(** * PRISMA STUDIO core engine (services/geminiService.ts, v3.1)

    A shallow embedding of the JSON repair engine [cleanJsonString], the
    keyframe table [getRequiredKeyframeCount], the style presets and the
    package normaliser / retry logic of [generateMoviePackage].

    JS strings are modelled as [string] (one [ascii] per UTF-16 code unit,
    which covers every character the engine inspects). *)

From Stdlib Require Import Bool ZArith QArith Lqa Ascii String List Lia.
Import ListNotations.

Close Scope Q_scope.
Open Scope bool_scope.
Open Scope string_scope.

(* ------------------------------------------------------------------ *)
(** ** Characters and JS string primitives *)

Definition code (c : ascii) : nat := nat_of_ascii c.

Definition ch (n : nat) : ascii := ascii_of_nat n.

(** JS [\s] and the set removed by [String.prototype.trim]
    (TAB, LF, VT, FF, CR, SPACE, NBSP in the Latin-1 range). *)
Definition is_js_ws (c : ascii) : bool :=
  let n := code c in
  (n =? 9)%nat || (n =? 10)%nat || (n =? 11)%nat || (n =? 12)%nat
  || (n =? 13)%nat || (n =? 32)%nat || (n =? 160)%nat.

Fixpoint trim_start (s : string) : string :=
  match s with
  | EmptyString => EmptyString
  | String c r => if is_js_ws c then trim_start r else s
  end.

Fixpoint trim_end (s : string) : string :=
  match s with
  | EmptyString => EmptyString
  | String c r =>
      let r' := trim_end r in
      match r' with
      | EmptyString => if is_js_ws c then EmptyString else String c EmptyString
      | _ => String c r'
      end
  end.

(** [String.prototype.trim] *)
Definition trim (s : string) : string := trim_end (trim_start s).

(** [String.prototype.toLowerCase] on Latin-1 code units. *)
Definition lower_char (c : ascii) : ascii :=
  let n := code c in
  if ((65 <=? n) && (n <=? 90))%nat
     || ((192 <=? n) && (n <=? 222) && negb (n =? 215))%nat
  then ch (n + 32) else c.

Fixpoint to_lower (s : string) : string :=
  match s with
  | EmptyString => EmptyString
  | String c r => String (lower_char c) (to_lower r)
  end.

Fixpoint str_take (n : nat) (s : string) : string :=
  match n, s with
  | O, _ => EmptyString
  | _, EmptyString => EmptyString
  | S n', String c r => String c (str_take n' r)
  end.

Fixpoint str_drop (n : nat) (s : string) : string :=
  match n, s with
  | O, _ => s
  | _, EmptyString => EmptyString
  | S n', String c r => str_drop n' r
  end.

(** [s.substring(0, n)] *)
Definition substring0 (s : string) (n : nat) : string := str_take n s.

(** [s.endsWith(suf)] *)
Definition ends_with (suf s : string) : bool :=
  let n := String.length s in
  let m := String.length suf in
  (m <=? n)%nat && String.eqb (str_drop (n - m) s) suf.

(** [s.includes(sub)] *)
Fixpoint includes (s sub : string) : bool :=
  String.prefix sub s ||
  match s with
  | EmptyString => false
  | String _ r => includes r sub
  end.

(** [s.indexOf(c)] for a one-character needle: the index or [-1]. *)
Fixpoint index_of_from (c : ascii) (i : Z) (s : string) : Z :=
  match s with
  | EmptyString => (-1)%Z
  | String d r => if Ascii.eqb c d then i else index_of_from c (i + 1)%Z r
  end.

Definition index_of (c : ascii) (s : string) : Z := index_of_from c 0 s.

Fixpoint repeat_char (c : ascii) (n : nat) : string :=
  match n with
  | O => EmptyString
  | S n' => String c (repeat_char c n')
  end.

(** [s.replace(/<c>/g, ' ')] for a single character [c]. *)
Fixpoint replace_char (c d : ascii) (s : string) : string :=
  match s with
  | EmptyString => EmptyString
  | String e r => String (if Ascii.eqb c e then d else e) (replace_char c d r)
  end.

Definition c_lbrace : ascii := "{"%char.
Definition c_rbrace : ascii := "}"%char.
Definition c_lbrack : ascii := "["%char.
Definition c_rbrack : ascii := "]"%char.
Definition c_comma : ascii := ","%char.
Definition c_colon : ascii := ":"%char.
Definition c_quote : ascii := ch 34.
Definition c_bslash : ascii := "\"%char.
Definition c_space : ascii := " "%char.
Definition c_lf : ascii := ch 10.
Definition c_cr : ascii := ch 13.

(** Test inputs are written with [`] for the double quote, which a Rocq
    string literal cannot hold without doubling it. *)
Definition qq (s : string) : string := replace_char "`"%char c_quote s.

(* ------------------------------------------------------------------ *)
(** ** cleanJsonString (lines 55-130) *)

(** [cleaned.replace(/^```json\s*/i, '')] *)
Definition strip_fence_open (s : string) : string :=
  if String.prefix "```" s
     && String.eqb (to_lower (str_take 4 (str_drop 3 s))) "json"
  then trim_start (str_drop 7 s) else s.

(** [.replace(/```$/i, '')] *)
Definition strip_fence_close (s : string) : string :=
  if ends_with "```" s then str_take (String.length s - 3) s else s.

(** Line 60: remove the markdown code blocks, then [.trim()]. *)
Definition unfence (s : string) : string :=
  trim (strip_fence_close (strip_fence_open s)).

(** Lines 63-67: the start of the first JSON object or array, or [-1]. *)
Definition root_start (cleaned : string) : Z :=
  let startObj := index_of c_lbrace cleaned in
  let startArr := index_of c_lbrack cleaned in
  if negb (startObj =? -1)%Z && ((startArr =? -1)%Z || (startObj <? startArr)%Z)
  then startObj
  else if negb (startArr =? -1)%Z then startArr
  else (-1)%Z.

(** The loop variables of lines 72-76. *)
Record scan_st := mkScan {
  braceCount : Z;
  bracketCount : Z;
  inString : bool;
  escaped : bool;
  lastSafePoint : Z
}.

Definition scan_init : scan_st := mkScan 0 0 false false (-1).

Definition is_safe_char (c : ascii) : bool :=
  Ascii.eqb c c_rbrace || Ascii.eqb c c_rbrack || Ascii.eqb c c_comma.

(** How the loop of lines 79-105 ended. *)
Inductive scan_exit :=
| Finished (i : nat)   (** counters back to zero at index [i] (line 97) *)
| Broke                (** a counter went negative (line 104) *)
| Exhausted.           (** the whole text was scanned *)

(** One iteration of the loop body at index [i] on character [c]; the
    boolean is [true] when the [finished] break of line 100 is taken (the
    [escaped] update of line 103 is then skipped). *)
Definition scan_step (i : nat) (st : scan_st) (c : ascii) : scan_st * bool :=
  let inStr :=
    if Ascii.eqb c c_quote && negb (escaped st) then negb (inString st)
    else inString st in
  if negb inStr then
    let b := braceCount st in
    let k := bracketCount st in
    let '(b, k) :=
      if Ascii.eqb c c_lbrace then ((b + 1)%Z, k)
      else if Ascii.eqb c c_rbrace then ((b - 1)%Z, k)
      else if Ascii.eqb c c_lbrack then (b, (k + 1)%Z)
      else if Ascii.eqb c c_rbrack then (b, (k - 1)%Z)
      else (b, k) in
    let last :=
      if (0 <=? b)%Z && (0 <=? k)%Z && is_safe_char c
      then Z.of_nat i else lastSafePoint st in
    if (b =? 0)%Z && (k =? 0)%Z && (0 <? i)%nat
    then (mkScan b k inStr (escaped st) last, true)
    else (mkScan b k inStr (Ascii.eqb c c_bslash && negb (escaped st)) last, false)
  else
    (mkScan (braceCount st) (bracketCount st) inStr
            (Ascii.eqb c c_bslash && negb (escaped st)) (lastSafePoint st), false).

Fixpoint scan (i : nat) (st : scan_st) (s : string) : scan_st * scan_exit :=
  match s with
  | EmptyString => (st, Exhausted)
  | String c r =>
      let '(st', fin) := scan_step i st c in
      if fin then (st', Finished i)
      else if (braceCount st' <? 0)%Z || (bracketCount st' <? 0)%Z
      then (st', Broke)
      else scan (S i) st' r
  end.

(** Lines 113-116: the balance re-count, which ignores string state. *)
Fixpoint balance (sBrace sBracket : Z) (s : string) : Z * Z :=
  match s with
  | EmptyString => (sBrace, sBracket)
  | String c r =>
      let sBrace :=
        if Ascii.eqb c c_lbrace then (sBrace + 1)%Z
        else if Ascii.eqb c c_rbrace then (sBrace - 1)%Z else sBrace in
      let sBracket :=
        if Ascii.eqb c c_lbrack then (sBracket + 1)%Z
        else if Ascii.eqb c c_rbrack then (sBracket - 1)%Z else sBracket in
      balance sBrace sBracket r
  end.

(** [.replace(/,$/, '')] *)
Definition strip_trailing_comma (s : string) : string :=
  if ends_with "," s then str_take (String.length s - 1) s else s.

(** Lines 108-123: truncation repair. *)
Definition repair (lastSafePoint : Z) (cleaned : string) : string :=
  if negb (lastSafePoint =? -1)%Z then
    let c := str_take (Z.to_nat lastSafePoint + 1) cleaned in
    let c := strip_trailing_comma (trim c) in
    let '(sBrace, sBracket) := balance 0 0 c in
    c ++ repeat_char c_rbrack (Z.to_nat sBracket)
      ++ repeat_char c_rbrace (Z.to_nat sBrace)
  else if ends_with "}" cleaned then cleaned else cleaned ++ "}".

(** [.replace(/,\s*([\]}])/g, '$1')] as a left-to-right matcher: [pend]
    holds the white space read after a pending comma. *)
Fixpoint strip_comma_closer_aux (pend : option string) (s : string) : string :=
  match s with
  | EmptyString =>
      match pend with
      | None => EmptyString
      | Some ws => String c_comma ws
      end
  | String c r =>
      match pend with
      | None =>
          if Ascii.eqb c c_comma then strip_comma_closer_aux (Some EmptyString) r
          else String c (strip_comma_closer_aux None r)
      | Some ws =>
          if is_js_ws c then strip_comma_closer_aux (Some (ws ++ String c EmptyString)) r
          else if Ascii.eqb c c_rbrack || Ascii.eqb c c_rbrace
          then String c (strip_comma_closer_aux None r)
          else String c_comma (ws ++
                 (if Ascii.eqb c c_comma then strip_comma_closer_aux (Some EmptyString) r
                  else String c (strip_comma_closer_aux None r)))
      end
  end.

Definition strip_comma_closer (s : string) : string := strip_comma_closer_aux None s.

(** State of the matcher of [/"\s*:\s*"/g]: [QNone] outside a match
    attempt, [QOpen ws] after a quote and white space, [QColon ws] after
    quote, white space, colon and white space ([ws] is the text read after
    the opening quote). *)
Inductive qstate := QNone | QOpen (ws : string) | QColon (ws : string).

Definition q_restart (c : ascii) (k : qstate -> string) : string :=
  if Ascii.eqb c c_quote then k (QOpen EmptyString) else String c (k QNone).

Definition colon_repl : string := String c_quote (String c_colon (String c_quote EmptyString)).

(** [.replace(/"\s*:\s*"/g, '":"')] *)
Fixpoint tighten_colons_aux (q : qstate) (s : string) : string :=
  match s with
  | EmptyString =>
      match q with
      | QNone => EmptyString
      | QOpen ws | QColon ws => String c_quote ws
      end
  | String c r =>
      match q with
      | QNone => q_restart c (fun q' => tighten_colons_aux q' r)
      | QOpen ws =>
          if is_js_ws c then tighten_colons_aux (QOpen (ws ++ String c EmptyString)) r
          else if Ascii.eqb c c_colon
          then tighten_colons_aux (QColon (ws ++ String c EmptyString)) r
          else String c_quote (ws ++ q_restart c (fun q' => tighten_colons_aux q' r))
      | QColon ws =>
          if is_js_ws c then tighten_colons_aux (QColon (ws ++ String c EmptyString)) r
          else if Ascii.eqb c c_quote then colon_repl ++ tighten_colons_aux QNone r
          else String c_quote (ws ++ q_restart c (fun q' => tighten_colons_aux q' r))
      end
  end.

Definition tighten_colons (s : string) : string := tighten_colons_aux QNone s.

(** Lines 125-129. *)
Definition post_process (s : string) : string :=
  tighten_colons (strip_comma_closer (replace_char c_cr c_space (replace_char c_lf c_space s))).

(** Lines 72-129: everything after the root character has been located;
    [cleaned] starts at the root. *)
Definition recover_from_root (cleaned : string) : string :=
  let '(st, ex) := scan 0 scan_init cleaned in
  let '(cleaned, finished) :=
    match ex with
    | Finished i => (str_take (S i) cleaned, true)
    | _ => (cleaned, false)
    end in
  let cleaned :=
    if negb finished
       && ((0 <? braceCount st)%Z || (0 <? bracketCount st)%Z || inString st)
    then repair (lastSafePoint st) cleaned
    else cleaned in
  post_process cleaned.

(** [cleanJsonString(text)]; [None] is [undefined]. *)
Definition cleanJsonString (text : option string) : string :=
  match text with
  | None => "{}"
  | Some t =>
      if String.eqb t "" then "{}" else
      let cleaned := unfence (trim t) in
      let start := root_start cleaned in
      if (start =? -1)%Z then "{}" else
      recover_from_root (str_drop (Z.to_nat start) cleaned)
  end.

(** The engine as the spec names it. *)
Definition recoverJson (rawText : string) : string := cleanJsonString (Some rawText).

(* ------------------------------------------------------------------ *)
(** ** The platform's [JSON.parse] (RFC 8259 grammar)

    Not code of this repository: the standard parser the engine's output is
    handed to.  Numbers keep their lexeme and strings the text between the
    quotes (escapes undecoded); two such values are equal exactly when the
    source texts agree, which is enough for every comparison made below. *)

Set Warnings "-register-all".

Inductive json :=
| JNull
| JBool (b : bool)
| JNum (lexeme : string)
| JStr (raw : string)
| JArr (items : list json)
| JObj (members : list (string * json)).

(** [POut] is reported when the recursion budget runs out, so that a
    [PErr] is always a genuine syntax error. *)
Inductive presult (A : Type) :=
| POk (a : A) (rest : string)
| PErr
| POut.
Arguments POk {A} a rest.
Arguments PErr {A}.
Arguments POut {A}.

Definition is_json_ws (c : ascii) : bool :=
  let n := code c in (n =? 9)%nat || (n =? 10)%nat || (n =? 13)%nat || (n =? 32)%nat.

Fixpoint skip_json_ws (s : string) : string :=
  match s with
  | String c r => if is_json_ws c then skip_json_ws r else s
  | EmptyString => EmptyString
  end.

Definition is_digit (c : ascii) : bool := ((48 <=? code c) && (code c <=? 57))%nat.

Definition is_hex (c : ascii) : bool :=
  is_digit c || ((65 <=? code c) && (code c <=? 70))%nat
  || ((97 <=? code c) && (code c <=? 102))%nat.

Definition is_simple_escape (c : ascii) : bool :=
  Ascii.eqb c c_quote || Ascii.eqb c c_bslash || Ascii.eqb c "/"%char
  || Ascii.eqb c "b"%char || Ascii.eqb c "f"%char || Ascii.eqb c "n"%char
  || Ascii.eqb c "r"%char || Ascii.eqb c "t"%char.

(** The body of a string literal after its opening quote: the raw text and
    what follows the closing quote. *)
Fixpoint string_body (s : string) : option (string * string) :=
  match s with
  | EmptyString => None
  | String c r =>
      if Ascii.eqb c c_quote then Some (EmptyString, r)
      else if Ascii.eqb c c_bslash then
        match r with
        | String e r' =>
            if is_simple_escape e then
              match string_body r' with
              | Some (b, t) => Some (String c (String e b), t)
              | None => None
              end
            else if Ascii.eqb e "u"%char then
              match r' with
              | String h1 (String h2 (String h3 (String h4 r''))) =>
                  if is_hex h1 && is_hex h2 && is_hex h3 && is_hex h4 then
                    match string_body r'' with
                    | Some (b, t) =>
                        Some (String c (String e (String h1 (String h2
                               (String h3 (String h4 b))))), t)
                    | None => None
                    end
                  else None
              | _ => None
              end
            else None
        | EmptyString => None
        end
      else if (code c <? 32)%nat then None
      else match string_body r with
           | Some (b, t) => Some (String c b, t)
           | None => None
           end
  end.

Fixpoint digits (s : string) : string * string :=
  match s with
  | String c r =>
      if is_digit c then let '(d, t) := digits r in (String c d, t)
      else (EmptyString, s)
  | EmptyString => (EmptyString, EmptyString)
  end.

Definition opt_char (c : ascii) (s : string) : string * string :=
  match s with
  | String d r => if Ascii.eqb c d then (String d EmptyString, r) else (EmptyString, s)
  | EmptyString => (EmptyString, EmptyString)
  end.

(** [-? (0 | [1-9][0-9]* ) (. [0-9]+)? ([eE] [+-]? [0-9]+)?] *)
Definition number (s : string) : option (string * string) :=
  let '(sign, s1) := opt_char "-"%char s in
  let int_part :=
    match s1 with
    | String "0"%char r => Some ("0", r)
    | _ => let '(d, r) := digits s1 in
           if String.eqb d "" then None else Some (d, r)
    end in
  match int_part with
  | None => None
  | Some (ip, s2) =>
      let frac :=
        match s2 with
        | String "."%char r =>
            let '(d, r') := digits r in
            if String.eqb d "" then None else Some ("." ++ d, r')
        | _ => Some (EmptyString, s2)
        end in
      match frac with
      | None => None
      | Some (fp, s3) =>
          let expo :=
            match s3 with
            | String e r =>
                if Ascii.eqb e "e"%char || Ascii.eqb e "E"%char then
                  let '(sg, r1) :=
                    match r with
                    | String p r1 =>
                        if Ascii.eqb p "+"%char || Ascii.eqb p "-"%char
                        then (String p EmptyString, r1) else (EmptyString, r)
                    | EmptyString => (EmptyString, r)
                    end in
                  let '(d, r2) := digits r1 in
                  if String.eqb d "" then None else Some (String e (sg ++ d), r2)
                else Some (EmptyString, s3)
            | EmptyString => Some (EmptyString, s3)
            end in
          match expo with
          | None => None
          | Some (ep, s4) => Some (sign ++ ip ++ fp ++ ep, s4)
          end
      end
  end.

Fixpoint parse_value (n : nat) (s : string) : presult json :=
  match n with
  | O => POut
  | S n' =>
      match s with
      | EmptyString => PErr
      | String c r =>
          if Ascii.eqb c c_lbrace then
            match parse_members n' (skip_json_ws r) with
            | POk ms t => POk (JObj ms) t
            | PErr => PErr
            | POut => POut
            end
          else if Ascii.eqb c c_lbrack then
            match parse_items n' (skip_json_ws r) with
            | POk xs t => POk (JArr xs) t
            | PErr => PErr
            | POut => POut
            end
          else if Ascii.eqb c c_quote then
            match string_body r with
            | Some (b, t) => POk (JStr b) t
            | None => PErr
            end
          else if String.prefix "true" s then POk (JBool true) (str_drop 4 s)
          else if String.prefix "false" s then POk (JBool false) (str_drop 5 s)
          else if String.prefix "null" s then POk JNull (str_drop 4 s)
          else match number s with
               | Some (lx, t) => POk (JNum lx) t
               | None => PErr
               end
      end
  end
(** after [[] and white space *)
with parse_items (n : nat) (s : string) : presult (list json) :=
  match n with
  | O => POut
  | S n' =>
      match s with
      | String c r =>
          if Ascii.eqb c c_rbrack then POk [] r
          else match parse_value n' s with
               | POk v t => parse_more_items n' [v] (skip_json_ws t)
               | PErr => PErr
               | POut => POut
               end
      | EmptyString => PErr
      end
  end
(** after an item and white space; [acc] holds the items read, reversed *)
with parse_more_items (n : nat) (acc : list json) (s : string) : presult (list json) :=
  match n with
  | O => POut
  | S n' =>
      match s with
      | String c r =>
          if Ascii.eqb c c_rbrack then POk (rev acc) r
          else if Ascii.eqb c c_comma then
            match parse_value n' (skip_json_ws r) with
            | POk v t => parse_more_items n' (v :: acc) (skip_json_ws t)
            | PErr => PErr
            | POut => POut
            end
          else PErr
      | EmptyString => PErr
      end
  end
(** after [{] and white space *)
with parse_members (n : nat) (s : string) : presult (list (string * json)) :=
  match n with
  | O => POut
  | S n' =>
      match s with
      | String c r =>
          if Ascii.eqb c c_rbrace then POk [] r
          else match parse_member n' s with
               | POk m t => parse_more_members n' [m] (skip_json_ws t)
               | PErr => PErr
               | POut => POut
               end
      | EmptyString => PErr
      end
  end
with parse_more_members (n : nat) (acc : list (string * json)) (s : string)
  : presult (list (string * json)) :=
  match n with
  | O => POut
  | S n' =>
      match s with
      | String c r =>
          if Ascii.eqb c c_rbrace then POk (rev acc) r
          else if Ascii.eqb c c_comma then
            match parse_member n' (skip_json_ws r) with
            | POk m t => parse_more_members n' (m :: acc) (skip_json_ws t)
            | PErr => PErr
            | POut => POut
            end
          else PErr
      | EmptyString => PErr
      end
  end
(** a member [key : value] *)
with parse_member (n : nat) (s : string) : presult (string * json) :=
  match n with
  | O => POut
  | S n' =>
      match s with
      | String c r =>
          if Ascii.eqb c c_quote then
            match string_body r with
            | Some (k, t) =>
                match skip_json_ws t with
                | String d t' =>
                    if Ascii.eqb d c_colon then
                      match parse_value n' (skip_json_ws t') with
                      | POk v u => POk (k, v) u
                      | PErr => PErr
                      | POut => POut
                      end
                    else PErr
                | EmptyString => PErr
                end
            | None => PErr
            end
          else PErr
      | EmptyString => PErr
      end
  end.

Inductive parse_outcome :=
| Accept (v : json)
| Reject
| OutOfBudget.

(** [JSON.parse(text)]: one value surrounded by white space. *)
Definition JSON_parse (text : string) : parse_outcome :=
  match parse_value (3 * String.length text + 3) (skip_json_ws text) with
  | POk v t => if String.eqb (skip_json_ws t) "" then Accept v else Reject
  | PErr => Reject
  | POut => OutOfBudget
  end.

Definition JSON_parse_opt (text : string) : option json :=
  match JSON_parse text with Accept v => Some v | _ => None end.

(* ------------------------------------------------------------------ *)
(** ** JS values and property lookup

    The keyframe table and the style presets are object literals used as
    maps: a lookup [obj[key]] finds an own property, and otherwise one
    inherited from [Object.prototype]. *)

Inductive jsval :=
| VUndef
| VNull
| VNum (n : Z)
| VStr (s : string)
| VFun (name : string) (arity : Z)       (** a built-in function *)
| VRecord (props : list (string * jsval))  (** an object literal *)
| VObjectPrototype.                     (** [Object.prototype] *)

(** The members of [Object.prototype] other than the [__proto__] accessor. *)
Definition object_prototype_member (k : string) : option jsval :=
  if String.eqb k "constructor" then Some (VFun "Object" 1)
  else if String.eqb k "__defineGetter__" then Some (VFun k 2)
  else if String.eqb k "__defineSetter__" then Some (VFun k 2)
  else if String.eqb k "hasOwnProperty" then Some (VFun k 1)
  else if String.eqb k "__lookupGetter__" then Some (VFun k 1)
  else if String.eqb k "__lookupSetter__" then Some (VFun k 1)
  else if String.eqb k "isPrototypeOf" then Some (VFun k 1)
  else if String.eqb k "propertyIsEnumerable" then Some (VFun k 1)
  else if String.eqb k "toString" then Some (VFun k 0)
  else if String.eqb k "valueOf" then Some (VFun k 0)
  else if String.eqb k "toLocaleString" then Some (VFun k 0)
  else None.

Fixpoint assoc {A} (k : string) (l : list (string * A)) : option A :=
  match l with
  | [] => None
  | (k', v) :: l' => if String.eqb k k' then Some v else assoc k l'
  end.

Definition inherited (k : string) : jsval :=
  match object_prototype_member k with Some v => v | None => VUndef end.

(** [v[k]] for the values the lookups below reach.  Of a function only the
    own properties [length] and [name] are modelled (no lookup below reads
    another one); a string's [length] is its own property. *)
Definition js_get (v : jsval) (k : string) : jsval :=
  match v with
  | VRecord props =>
      match assoc k props with
      | Some x => x
      | None => if String.eqb k "__proto__" then VObjectPrototype else inherited k
      end
  | VObjectPrototype => if String.eqb k "__proto__" then VNull else inherited k
  | VFun name arity =>
      if String.eqb k "length" then VNum arity
      else if String.eqb k "name" then VStr name else VUndef
  | VStr s => if String.eqb k "length" then VNum (Z.of_nat (String.length s)) else VUndef
  | VNum _ | VUndef | VNull => VUndef
  end.

(** [v?.[k]] *)
Definition js_get_opt (v : jsval) (k : string) : jsval :=
  match v with
  | VUndef | VNull => VUndef
  | _ => js_get v k
  end.

Definition truthy (v : jsval) : bool :=
  match v with
  | VUndef | VNull => false
  | VNum n => negb (n =? 0)%Z
  | VStr s => negb (String.eqb s "")
  | VFun _ _ | VRecord _ | VObjectPrototype => true
  end.

(** [a || b] *)
Definition js_or (a b : jsval) : jsval := if truthy a then a else b.

(* ------------------------------------------------------------------ *)
(** ** getRequiredKeyframeCount (lines 132-144) *)

(** [.replace(/\s+/g, '_')]; [run] is set inside a run of white space. *)
Fixpoint ws_to_underscore_aux (run : bool) (s : string) : string :=
  match s with
  | EmptyString => EmptyString
  | String c r =>
      if is_js_ws c then
        if run then ws_to_underscore_aux true r
        else String "_"%char (ws_to_underscore_aux true r)
      else String c (ws_to_underscore_aux false r)
  end.

Definition ws_to_underscore (s : string) : string := ws_to_underscore_aux false s.

Definition row (concise standard detailed : Z) : jsval :=
  VRecord [("concise", VNum concise); ("standard", VNum standard);
           ("detailed", VNum detailed)].

Definition keyframe_table : jsval :=
  VRecord
    [ ("30_seconds", row 4 5 6)
    ; ("1_minute", row 6 8 10)
    ; ("3_minutes", row 10 14 18)
    ; ("5_minutes", row 14 20 26)
    ; ("8_minutes", row 18 26 34)
    ; ("10_minutes", row 20 30 40) ].

Definition getRequiredKeyframeCount (duration density : string) : jsval :=
  let dKey := ws_to_underscore (to_lower duration) in
  let denKey := to_lower density in
  js_or (js_get_opt (js_get keyframe_table dKey) denKey) (VNum 8).

(** The spec's reading of the table (section 4.1): both labels lower-cased
    with white space replaced by [_], the own entry of the table when row
    and column are known, 8 otherwise. *)
Definition spec_requiredKeyframeCount (duration density : string) : Z :=
  let norm s := ws_to_underscore (to_lower s) in
  match keyframe_table with
  | VRecord rows =>
      match assoc (norm duration) rows with
      | Some (VRecord cols) =>
          match assoc (norm density) cols with
          | Some (VNum n) => n
          | _ => 8
          end
      | _ => 8
      end
  | _ => 8
  end.

(* ------------------------------------------------------------------ *)
(** ** VISUAL_STYLE_PRESETS (lines 146-227)

    Preset names are compared for equality only; the em dash of the
    Stickman names is written as its UTF-8 bytes. *)

Definition preset (image_style video_style recommended_vst : string) : jsval :=
  VRecord [("image_style", VStr image_style); ("video_style", VStr video_style);
           ("recommended_vst", VStr recommended_vst)].

Definition VISUAL_STYLE_PRESETS : jsval :=
  VRecord
  [ ("Stickman — 2D Classic", preset
       "2D classic stickman animation, clean vector linework, flat shapes"
       "2D classic stickman motion, smooth tweened animation, stable linework"
       "VST_01 Clean Digital Cinema")
  ; ("Stickman — Blueprint", preset
       "blueprint schematic style, cyan grid, white technical line drawings"
       "blueprint line-reveal animation, technical callout pop-ins"
       "VST_14 Matte Minimalist")
  ; ("Stickman — Chalkboard", preset
       "chalkboard sketch style, rough chalk strokes, dusty smudges"
       "chalk-writing reveal animation, smudge transitions, chalk dust"
       "VST_05 Overcast Documentary")
  ; ("Stickman — 3D Render", preset
       "simple 3D stick-figure render, smooth plastic, soft studio light"
       "simple 3D character animation, smooth keyframed motion"
       "VST_09 High-Key Commercial")
  ; ("Clay Animation", preset
       "clay animation style, handcrafted clay textures, fingerprints"
       "claymation motion, stop-motion jitter, tactile deformations"
       "VST_02 Warm Indie Drama")
  ; ("Studio Ghibli", preset
       "Studio Ghibli aesthetic, hand-painted watercolor anime, soft edges"
       "painterly animation feel, gentle parallax pans, soft light transitions"
       "VST_08 Soft Pastel Dream")
  ; ("Retro Anime", preset
       "retro 90s anime cel style, ink lines, limited shading, halation"
       "retro cel animation, limited-frame cadence, classic anime holds"
       "VST_06 Retro 35mm Film")
  ; ("Pixar Style", preset
       "stylized 3D family animation look, expressive faces, global illumination"
       "stylized 3D animation, smooth character arcs, cinematic DOF"
       "VST_09 High-Key Commercial")
  ; ("Stop-motion Animation", preset
       "miniature practical set, handmade props, tactile textures"
       "stop-motion feel, frame jitter, miniature parallax"
       "VST_07 Vintage 16mm Home-Movie")
  ; ("Cutout Animation", preset
       "2D cutout puppet look, layered paper shapes, crisp silhouettes"
       "cutout puppet motion, hinge-like limb movement, layered parallax"
       "VST_14 Matte Minimalist")
  ; ("3D CGI Animation", preset
       "high quality 3D CGI frame, detailed materials, cinematic lighting"
       "3D CGI cinematic, smooth camera moves, realistic motion blur"
       "VST_11 Anamorphic Cinematic")
  ; ("Cinematic 8K", preset
       "ultra-detailed cinematic realism, crisp textures, shallow DOF"
       "cinematic realism, slow dolly tracking, realistic motion blur"
       "VST_11 Anamorphic Cinematic")
  ; ("Documentary", preset
       "documentary realism, natural lighting, candid framing"
       "documentary camera language, handheld shake, natural ambience"
       "VST_05 Overcast Documentary")
  ; ("Cyberpunk", preset
       "cyberpunk neon city, wet reflective streets, magenta/cyan practicals"
       "neon noir cinematic, slow tracking, volumetric haze motion"
       "VST_12 Neon Night City")
  ; ("Film Noir", preset
       "film noir, classic monochrome, hard shadows, dramatic contrast"
       "noir pacing, slow push-in, chiaroscuro lighting, smoke drift"
       "VST_13 Black & White Classic")
  ; ("Low-Key Thriller", preset
       "low-key thriller lighting, deep shadows, tight contrast"
       "suspense pacing, slow dolly in, handheld tension"
       "VST_10 Low-Key Thriller")
  ].

(** Line 234: [VISUAL_STYLE_PRESETS[name] || VISUAL_STYLE_PRESETS["Studio Ghibli"]]. *)
Definition resolve_style (name : string) : jsval :=
  js_or (js_get VISUAL_STYLE_PRESETS name) (js_get VISUAL_STYLE_PRESETS "Studio Ghibli").

(* ------------------------------------------------------------------ *)
(** ** Reading the parsed completion

    [data.key] on a value returned by [JSON.parse].  The keys read by the
    normaliser are not members of [Object.prototype] or [Array.prototype],
    so only own members of parsed objects are found; of duplicated keys the
    last one wins, as in [JSON.parse]. *)

Definition hex_val (c : ascii) : nat :=
  let n := code c in
  if (n <=? 57)%nat then n - 48
  else if (n <=? 70)%nat then n - 55 else n - 87.

(** Decoding of a string literal's body; [None] when it holds a code unit
    outside Latin-1, which no key compared below contains. *)
Fixpoint json_unescape (s : string) : option string :=
  let cons c o := match o with Some t => Some (String c t) | None => None end in
  match s with
  | EmptyString => Some EmptyString
  | String c r =>
      if Ascii.eqb c c_bslash then
        match r with
        | String e r' =>
            if Ascii.eqb e "u"%char then
              match r' with
              | String h1 (String h2 (String h3 (String h4 r''))) =>
                  let v := 4096 * hex_val h1 + 256 * hex_val h2
                           + 16 * hex_val h3 + hex_val h4 in
                  if (v <? 256)%nat then cons (ch v) (json_unescape r'') else None
              | _ => None
              end
            else
              let d :=
                if Ascii.eqb e "b"%char then ch 8
                else if Ascii.eqb e "f"%char then ch 12
                else if Ascii.eqb e "n"%char then ch 10
                else if Ascii.eqb e "r"%char then ch 13
                else if Ascii.eqb e "t"%char then ch 9
                else e in
              cons d (json_unescape r')
        | EmptyString => None
        end
      else cons c (json_unescape r)
  end.

Definition key_is (raw name : string) : bool :=
  match json_unescape raw with Some k => String.eqb k name | None => false end.

Definition json_prop (j : json) (name : string) : option json :=
  match j with
  | JObj ms =>
      fold_left (fun acc m => if key_is (fst m) name then Some (snd m) else acc) ms None
  | _ => None
  end.

(** [o?.key] where [o] is itself the result of a lookup. *)
Definition json_prop_opt (o : option json) (name : string) : option json :=
  match o with Some j => json_prop j name | None => None end.

(** The double that [JSON.parse] reads from a number lexeme.  A lexeme
    [-? D (. F)? (e X)?] denotes [M * 10^(X - |F|)] with [M] the integer
    written by the digits [D F].  Rounding to the nearest double gives 0
    exactly when [M = 0] or the value is at most 2^-1075, half the least
    subnormal (at half it ties to the even neighbour, 0).  Since
    [M < 10^|D F|] and [2^1075 < 10^324], an exponent below
    [-(|D F| + 324)] needs no exact comparison. *)
Definition is_exp_mark (c : ascii) : bool := Ascii.eqb c "e"%char || Ascii.eqb c "E"%char.

Fixpoint mantissa_digits (lx : string) : string :=
  match lx with
  | EmptyString => EmptyString
  | String c r =>
      if is_exp_mark c then EmptyString
      else if is_digit c then String c (mantissa_digits r)
      else mantissa_digits r
  end.

Fixpoint fraction_length (seen_dot : bool) (lx : string) : nat :=
  match lx with
  | EmptyString => 0
  | String c r =>
      if is_exp_mark c then 0
      else if Ascii.eqb c "."%char then fraction_length true r
      else if seen_dot && is_digit c then S (fraction_length seen_dot r)
      else fraction_length seen_dot r
  end.

Fixpoint exponent_text (lx : string) : string :=
  match lx with
  | EmptyString => EmptyString
  | String c r => if is_exp_mark c then r else exponent_text r
  end.

Definition decimal_value (d : string) : Z :=
  fold_left (fun acc c => (10 * acc + Z.of_nat (code c - 48))%Z)
            (list_ascii_of_string d) 0%Z.

Definition exponent_value (x : string) : Z :=
  match x with
  | String "-"%char r => (- decimal_value r)%Z
  | String "+"%char r => decimal_value r
  | _ => decimal_value x
  end.

Definition number_is_zero (lx : string) : bool :=
  let ds := mantissa_digits lx in
  let m := decimal_value ds in
  let scale := (exponent_value (exponent_text lx) - Z.of_nat (fraction_length false lx))%Z in
  if (m =? 0)%Z then true
  else if (0 <=? scale)%Z then false
  else if (Z.of_nat (String.length ds) + 324 <=? - scale)%Z then true
  else (m * 2 ^ 1075 <=? 10 ^ (- scale))%Z.

Definition json_truthy (j : json) : bool :=
  match j with
  | JNull => false
  | JBool b => b
  | JNum lx => negb (number_is_zero lx)
  | JStr raw => negb (String.eqb raw "")
  | JArr _ | JObj _ => true
  end.

(* ------------------------------------------------------------------ *)
(** ** The production package (types.ts) and the normaliser
    (lines 304-320) *)

Record UserInput := mkInput {
  script : string;
  visualStyle : string;
  sceneDensity : string;
  aspectRatio : string;
  characterDescription : string;
  videoDuration : string;
  modelEngine : string
}.

(** [SceneDensity = 'Concise' | 'Standard' | 'Detailed'] *)
Definition is_scene_density (d : string) : bool :=
  String.eqb d "Concise" || String.eqb d "Standard" || String.eqb d "Detailed".

(** A field of the package: a value taken from the parsed completion, or one
    built by the normaliser. *)
Inductive pval :=
| PJson (j : json)
| PStr (s : string)
| PList (l : list pval)
| PRec (fields : list (string * pval))
| PJs (v : jsval).

Record Metadata := mkMetadata {
  topic : pval;
  mood : pval;
  md_visualStyle : string;
  md_aspectRatio : string;
  md_duration : string
}.

Record ProductionPackage := mkPackage {
  metadata : Metadata;
  seo : pval;
  story : pval;
  titles : pval;
  visualPrompts : list json;
  audioMap : list pval;
  cst : string;
  bst : string;
  gst : string;
  vst : jsval
}.

Definition default_seo : pval :=
  PRec [ ("bestTitle", PStr "Untitled"); ("altTitles", PList []);
         ("videoDescription", PStr ""); ("tags", PStr ""); ("hashtags", PStr "");
         ("thumbnailPrompt", PStr ""); ("sunoPrompt", PStr "") ].

(** [x || d] for a looked-up member [x]. *)
Definition or_default (o : option json) (d : pval) : pval :=
  match o with
  | Some j => if json_truthy j then PJson j else d
  | None => d
  end.

(** [StringToNumber] for optionally signed decimal integers; [None] is NaN.
    (Fractions, exponents, [Infinity] and 0x/0o/0b forms are not modelled:
    the only strings that reach it are function names.) *)
Definition str_to_number (s : string) : option Z :=
  let t := trim s in
  let '(neg, u) :=
    match t with
    | String "-"%char r => (true, r)
    | String "+"%char r => (false, r)
    | _ => (false, t)
    end in
  if String.eqb t "" then Some 0%Z
  else
    let '(d, rest) := digits u in
    if String.eqb d "" || negb (String.eqb rest "") then None
    else
      let v := fold_left (fun acc c => (10 * acc + Z.of_nat (code c - 48))%Z)
                         (list_ascii_of_string d) 0%Z in
      Some (if neg then (- v)%Z else v).

(** [ToNumber]; [None] is NaN.  Objects and functions convert through
    their [toString], which never yields a numeric string. *)
Definition to_number (v : jsval) : option Z :=
  match v with
  | VNum n => Some n
  | VNull => Some 0%Z
  | VStr s => str_to_number s
  | VUndef | VFun _ _ | VRecord _ | VObjectPrototype => None
  end.

(** [ToIntegerOrInfinity] (NaN becomes 0). *)
Definition to_integer (v : jsval) : Z :=
  match to_number v with Some n => n | None => 0%Z end.

(** [xs.slice(0, end)] *)
Definition js_slice0 {A} (xs : list A) (e : jsval) : list A :=
  let len := Z.of_nat (length xs) in
  let rel := to_integer e in
  let fin := if (rel <? 0)%Z then Z.max (len + rel) 0 else Z.min rel len in
  firstn (Z.to_nat fin) xs.

(** [n <= v] for a number [n]. *)
Definition js_le_num (n : Z) (v : jsval) : bool :=
  match to_number v with Some m => (n <=? m)%Z | None => false end.

Definition null_label_error : string := "Cannot read properties of null (reading 'label')".
Definition null_data_error : string := "Cannot read properties of null (reading 'visualPrompts')".

(** [p.label || "Scene"]; [None] is the [TypeError] raised on [null]. *)
Definition label_or_scene (p : json) : option pval :=
  match p with
  | JNull => None
  | _ => Some (or_default (json_prop p "label") (PStr "Scene"))
  end.

Fixpoint map_labels (ps : list json) : option (list pval) :=
  match ps with
  | [] => Some []
  | p :: ps' =>
      match label_or_scene p, map_labels ps' with
      | Some l, Some ls => Some (l :: ls)
      | _, _ => None
      end
  end.

Inductive normalized :=
| NOk (p : ProductionPackage)
| NThrow (message : string).

(** Lines 304-320, for the parsed completion [data]. *)
Definition normalize (data : json) (input : UserInput)
    (keyframeTotal stylePreset : jsval) : normalized :=
  match data with
  | JNull => NThrow null_data_error
  | _ =>
      let arr := match json_prop data "visualPrompts" with
                 | Some (JArr xs) => xs
                 | _ => []
                 end in
      let validPrompts := js_slice0 arr keyframeTotal in
      let md := mkMetadata
                  (or_default (json_prop_opt (json_prop data "metadata") "topic")
                              (PStr (substring0 (script input) 30)))
                  (or_default (json_prop_opt (json_prop data "metadata") "mood")
                              (PStr "Cinematic"))
                  (visualStyle input) (aspectRatio input) (videoDuration input) in
      let seo_v := or_default (json_prop data "seo") default_seo in
      let story_v := or_default (json_prop data "story") (PStr (script input)) in
      let titles_v :=
        match json_prop data "keyframe_plan_titles" with
        | Some j => if json_truthy j then Some (PJson j)
                    else option_map PList (map_labels validPrompts)
        | None => option_map PList (map_labels validPrompts)
        end in
      match titles_v with
      | None => NThrow null_label_error
      | Some t =>
          NOk (mkPackage md seo_v story_v t validPrompts [] "" "" ""
                         (js_get stylePreset "recommended_vst"))
      end
  end.

(* ------------------------------------------------------------------ *)
(** ** handleApiError and generateMoviePackage (lines 26-50, 231-328) *)

(** What [ai.models.generateContent] yields: a response whose [text] may be
    [undefined], or a thrown error with its message. *)
Inductive response :=
| RText (text : option string)
| RThrow (message : string).

Inductive gen_result :=
| GOk (p : ProductionPackage)
| GErr (message : string).

Definition STRUCTURAL_FAILURE : string :=
  "JSON_STRUCTURAL_FAILURE: Response was truncated or invalid. Please shorten script or reduce density.".

Definition QUOTA_MESSAGE : string :=
  "QUOTA EXHAUSTED: Your API key has reached its limit. Wait 60s or switch to a paid key.".

Definition KEY_MESSAGE : string := "API Key not valid. Please check your configuration.".

Section Generation.

(** The platform's [JSON.parse]; [None] is a thrown [SyntaxError]. *)
Variable parse : string -> option json.

(** The completion returned by the [k]-th call of [generateContent]. *)
Variable completion : nat -> response.

(** Lines 29-39: the lower-cased message that is classified. *)
Definition api_error_msg (message : string) : string :=
  if String.prefix "{" message then
    match parse message with
    | Some parsed =>
        match json_prop_opt (json_prop parsed "error") "message" with
        | Some (JStr raw) =>
            if json_truthy (JStr raw) then
              to_lower (match json_unescape raw with Some m => m | None => raw end)
            else to_lower message
        | Some _ =>
            (* a truthy non-string has no [toLowerCase]: the [TypeError] is
               caught and the message itself is used *)
            to_lower message
        | None => to_lower message
        end
    | None => to_lower message
    end
  else to_lower message.

(** The message of the error [handleApiError(error, task)] throws. *)
Definition handleApiError (message task : string) : string :=
  let msg := api_error_msg message in
  if includes msg "429" || includes msg "quota" || includes msg "limit"
     || includes msg "resource_exhausted" then QUOTA_MESSAGE
  else if includes msg "401" || includes msg "403" || includes msg "api key not valid"
          || includes msg "invalid api key" then KEY_MESSAGE
  else "Engine Failure [" ++ task ++ "]: "
       ++ (if String.eqb msg "" then "Unknown failure" else msg).

(** Line 322: the errors retried with back-off. *)
Definition quota_like (message : string) : bool :=
  includes message "429" || includes message "QUOTA" || includes message "RESOURCE_EXHAUSTED".

(** [generateMoviePackage(input, retryCount)] whose first model call is the
    [call]-th; the result comes with the index of the next call, i.e. the
    number of calls made so far.  A retry [return generateMoviePackage(input,
    retryCount + 1)] is not awaited inside [try], so its outcome is final.
    [fuel] bounds the recursion; [5 - retryCount] is always enough, since
    both retry paths require [retryCount < 5]. *)
Fixpoint gen (fuel : nat) (input : UserInput) (retryCount call : nat)
  : gen_result * nat :=
  let keyframeTotal := getRequiredKeyframeCount (videoDuration input) (sceneDensity input) in
  let stylePreset := resolve_style (visualStyle input) in
  let retry_if (cond : bool) (otherwise : gen_result * nat) :=
    if cond then
      match fuel with
      | S f => gen f input (S retryCount) (S call)
      | O => otherwise
      end
    else otherwise in
  (* the [catch (err)] block of lines 321-327 *)
  let handler (message : string) :=
    retry_if (quota_like message && (retryCount <? 5)%nat)
             (GErr (handleApiError message "GENERATE_PACKAGE"), S call) in
  match completion call with
  | RThrow m => handler m
  | RText t =>
      let rawJson := cleanJsonString t in
      match parse rawJson with
      | None => retry_if (retryCount <? 1)%nat (handler STRUCTURAL_FAILURE)
      | Some data =>
          match normalize data input keyframeTotal stylePreset with
          | NOk p => (GOk p, S call)
          | NThrow m => handler m
          end
      end
  end.

(** [generateMoviePackage(input)] as called by the app. *)
Definition generateMoviePackage (input : UserInput) : gen_result * nat :=
  gen 5 input 0 0.

End Generation.

(* ------------------------------------------------------------------ *)
(** ** Auxiliary definitions for the statements *)

(** The error the caller finally sees when both parse attempts fail. *)
Definition STRUCTURAL_REPORTED : string :=
  handleApiError JSON_parse_opt STRUCTURAL_FAILURE "GENERATE_PACKAGE".

(** The spec's step 2: the position of the first ['{'] or ['['], if any. *)
Fixpoint first_root_pos (s : string) : option nat :=
  match s with
  | EmptyString => None
  | String c r =>
      if Ascii.eqb c c_lbrace || Ascii.eqb c c_lbrack then Some O
      else option_map S (first_root_pos r)
  end.

(** [JSON.stringify(v)] with no spacing, for values whose strings need no
    escaping. *)
Definition quote (raw : string) : string := String c_quote (raw ++ String c_quote EmptyString).

Fixpoint print (j : json) : string :=
  match j with
  | JNull => "null"
  | JBool true => "true"
  | JBool false => "false"
  | JNum lx => lx
  | JStr raw => quote raw
  | JArr xs =>
      String c_lbrack
        ((fix items (first : bool) (l : list json) : string :=
            match l with
            | [] => EmptyString
            | x :: l' => (if first then EmptyString else ",") ++ print x ++ items false l'
            end) true xs ++ "]")
  | JObj ms =>
      String c_lbrace
        ((fix members (first : bool) (l : list (string * json)) : string :=
            match l with
            | [] => EmptyString
            | (k, v) :: l' =>
                (if first then EmptyString else ",") ++ quote k ++ ":" ++ print v
                ++ members false l'
            end) true ms ++ "}")
  end.

Fixpoint str_all (f : ascii -> bool) (s : string) : bool :=
  match s with
  | EmptyString => true
  | String c r => f c && str_all f r
  end.

(** Characters of string contents left alone by the post-processing. *)
Definition plain_char (c : ascii) : bool :=
  (32 <=? code c)%nat && negb (Ascii.eqb c c_quote) && negb (Ascii.eqb c c_bslash)
  && negb (Ascii.eqb c c_comma) && negb (Ascii.eqb c c_colon).

Definition num_char (c : ascii) : bool :=
  is_digit c || Ascii.eqb c "-"%char || Ascii.eqb c "+"%char || Ascii.eqb c "."%char
  || Ascii.eqb c "e"%char || Ascii.eqb c "E"%char.

Fixpoint safe_json (j : json) : bool :=
  match j with
  | JNull | JBool _ => true
  | JNum lx => negb (String.eqb lx "") && str_all num_char lx
  | JStr raw => str_all plain_char raw
  | JArr xs =>
      (fix all (l : list json) : bool :=
         match l with [] => true | x :: l' => safe_json x && all l' end) xs
  | JObj ms =>
      (fix all (l : list (string * json)) : bool :=
         match l with
         | [] => true
         | (k, v) :: l' => str_all plain_char k && safe_json v && all l'
         end) ms
  end.

Definition is_container (j : json) : bool :=
  match j with JArr _ | JObj _ => true | _ => false end.

(** [x] is [undefined], [null] or another falsy value. *)
Definition falsy_or_absent (o : option json) : bool :=
  match o with Some j => negb (json_truthy j) | None => true end.

(** Position of the first occurrence of [c] in [s]. *)
Fixpoint char_pos (c : ascii) (s : string) : option nat :=
  match s with
  | EmptyString => None
  | String d r => if Ascii.eqb c d then Some O else option_map S (char_pos c r)
  end.

(** A request and model responses used in the examples below. *)
Definition sample_input : UserInput :=
  mkInput "A long script about a lighthouse keeper and the storm." "Cyberpunk"
          "Standard" "16:9" "" "1 Minute" "gemini".

(** The model returns the same truncated text on every call. *)
Definition truncated_completion : nat -> response :=
  fun _ => RText (Some (qq "{`a`:{`b`:1")).

(** A completion whose [visualPrompts] holds twelve [null] entries. *)
Definition null_prompts : json :=
  JObj [("visualPrompts", JArr (repeat JNull 12))].

Definition completion_empty : nat -> response := fun _ => RText (Some "{}").

Definition completion_rich : nat -> response :=
  fun _ => RText (Some (qq "{`metadata`:{`topic`:`Storm`,`mood`:`Dark`},`visualStyle`:`x`,`cst`:`y`,`vst`:`z`}")).

(** The [visualPrompts] array of a parsed completion, [[]] when it is not
    an array. *)
Definition prompts_of (data : json) : list json :=
  match json_prop data "visualPrompts" with Some (JArr xs) => xs | _ => [] end.

(** The model returns [{"visualPrompts":[null, ..., null]}]. *)
Definition null_prompts_completion : nat -> response :=
  fun _ => RText (Some (print null_prompts)).

(** The separated items of [print (JArr xs)] and members of
    [print (JObj ms)]. *)
Definition print_items (first : bool) (l : list json) : string :=
  (fix items (first : bool) (l : list json) : string :=
     match l with
     | [] => EmptyString
     | x :: l' => (if first then EmptyString else ",") ++ print x ++ items false l'
     end) first l.

Definition print_members (first : bool) (l : list (string * json)) : string :=
  (fix members (first : bool) (l : list (string * json)) : string :=
     match l with
     | [] => EmptyString
     | (k, v) :: l' =>
         (if first then EmptyString else ",") ++ quote k ++ ":" ++ print v
         ++ members false l'
     end) first l.

(** Characters that leave the scan's counters and safe point alone outside
    a string. *)
Definition neutral (c : ascii) : bool :=
  negb (Ascii.eqb c c_quote || Ascii.eqb c c_bslash || Ascii.eqb c c_lbrace
        || Ascii.eqb c c_rbrace || Ascii.eqb c c_lbrack || Ascii.eqb c c_rbrack
        || Ascii.eqb c c_comma).

Definition printable (c : ascii) : bool := (32 <=? code c)%nat.

(** Induction over [json] through its lists. *)
Section JsonInd.
Variable P : json -> Prop.
Hypothesis HNull : P JNull.
Hypothesis HBool : forall b, P (JBool b).
Hypothesis HNum : forall lx, P (JNum lx).
Hypothesis HStr : forall raw, P (JStr raw).
Hypothesis HArr : forall xs, Forall P xs -> P (JArr xs).
Hypothesis HObj : forall ms, Forall (fun m => P (snd m)) ms -> P (JObj ms).

Fixpoint json_ind2 (j : json) : P j :=
  match j with
  | JNull => HNull
  | JBool b => HBool b
  | JNum lx => HNum lx
  | JStr raw => HStr raw
  | JArr xs =>
      HArr xs
        ((fix go (l : list json) : Forall P l :=
            match l with
            | [] => Forall_nil P
            | x :: l' => Forall_cons x (json_ind2 x) (go l')
            end) xs)
  | JObj ms =>
      HObj ms
        ((fix go (l : list (string * json)) : Forall (fun m => P (snd m)) l :=
            match l with
            | [] => Forall_nil _
            | (k, v) :: l' => Forall_cons (P := fun m => P (snd m)) (k, v) (json_ind2 v) (go l')
            end) ms)
  end.
End JsonInd.

(** The scan counters are not both zero. *)
Definition nz (b k : Z) : Prop := ((b =? 0)%Z && (k =? 0)%Z) = false.

(** [s] leaves the scan outside any string, with the same counters and
    without stopping, whenever the counters are not both zero. *)
Definition scan_pass (s : string) : Prop :=
  forall b k last i, (0 <= b)%Z -> (0 <= k)%Z -> nz b k ->
  exists last', scan i (mkScan b k false false last) s = (mkScan b k false false last', Exhausted).

(** The trailing-comma pass goes through [s] unchanged, whatever follows. *)
Definition strip_pass (s : string) : Prop :=
  forall r, strip_comma_closer_aux None (s ++ r) = s ++ strip_comma_closer_aux None r.

(** What may follow a value in a compact serialisation: nothing, or a
    character that is neither white space nor a colon. *)
Definition r_ok (r : string) : Prop :=
  match r with
  | EmptyString => True
  | String c _ => is_js_ws c = false /\ Ascii.eqb c c_colon = false
  end.

(** The colon-tightening pass goes through [s] unchanged before any
    text allowed by [r_ok]. *)
Definition tq_pass (s : string) : Prop :=
  forall r, r_ok r -> tighten_colons_aux QNone (s ++ r) = s ++ tighten_colons_aux QNone r.

(** [s] keeps a continuation allowed by [r_ok] allowed. *)
Definition r_ok_pres (s : string) : Prop := forall r, r_ok r -> r_ok (s ++ r).

(* ------------------------------------------------------------------ *)
(** ** The other services (lines 9-24 and 330-555)

    Each service is modelled from the answer of its model call on: the
    request text only goes to the model, whose answer is a parameter. *)

(** A call that returns a value or throws an error with a message. *)
Inductive outcome (A : Type) :=
| Ret (a : A)
| Throw (message : string).
Arguments Ret {A} a.
Arguments Throw {A} message.

Definition KEY_NOT_FOUND : string :=
  "API Key not found. Ensure environment is configured with a valid Gemini API Key.".

(** Lines 9-15: [getAiClient()], where [apiKey] is [process.env.API_KEY]. *)
Definition getAiClient (apiKey : option string) : outcome unit :=
  match apiKey with
  | Some k => if String.eqb k "" then Throw KEY_NOT_FOUND else Ret tt
  | None => Throw KEY_NOT_FOUND
  end.

(** [generateMoviePackage(input)] when [process.env.API_KEY] is [apiKey]:
    [getAiClient()] (line 232) runs before the [try], so a missing or empty
    key rejects the promise before any model call.  [generateMoviePackage]
    is the function once that check has passed: each retry runs the check
    again on the same environment value, and it passes again. *)
Definition generateMoviePackage_env (apiKey : option string) (parse : string -> option json)
  (completion : nat -> response) (input : UserInput) : gen_result * nat :=
  match getAiClient apiKey with
  | Throw m => (GErr m, 0%nat)
  | Ret _ => generateMoviePackage parse completion input
  end.

(** Lines 20-24: the time passed to [setTimeout], where [random] is the
    value [Math.random()] returned (in [0, 1)). *)
Definition delayWithJitter (attempt : nat) (random : Q) : Q :=
  (inject_Z (2 ^ Z.of_nat attempt * 2000) + random * 1000)%Q.

(** [response.text?.trim() || fallback] *)
Definition trimmed_or (text : option string) (fallback : string) : string :=
  match text with
  | Some t => if String.eqb (trim t) "" then fallback else trim t
  | None => fallback
  end.

(** Lines 330-371. *)
Definition generateVoiceoverPack (apiKey : option string) (resp : response) : outcome string :=
  match getAiClient apiKey with
  | Throw m => Throw m
  | Ret _ =>
      match resp with
      | RText t => Ret (trimmed_or t "Failed to generate prompt.")
      | RThrow m => Throw (handleApiError JSON_parse_opt m "GENERATE_VO_PACK")
      end
  end.

(** Lines 451-459. *)
Definition enhanceVisualPrompt (apiKey : option string) (prompt : string) (resp : response)
  : outcome string :=
  match getAiClient apiKey with
  | Throw m => Throw m
  | Ret _ =>
      match resp with
      | RText t => Ret (trimmed_or t prompt)
      | RThrow _ => Ret prompt
      end
  end.

(** Lines 461-478. *)
Definition enhanceVideoPrompt (apiKey : option string) (videoPrompt : string) (resp : response)
  : outcome string :=
  match getAiClient apiKey with
  | Throw m => Throw m
  | Ret _ =>
      match resp with
      | RText t => Ret (trimmed_or t videoPrompt)
      | RThrow _ => Ret videoPrompt
      end
  end.

Definition sfx_fallback : json :=
  JObj [("primary", JStr "Ambient soundscape"); ("secondary", JStr "Atmospheric")].

(** Lines 480-492: a [SyntaxError] of [JSON.parse] is caught like an API
    error. *)
Definition generateSfxCues (apiKey : option string) (resp : response) : outcome json :=
  match getAiClient apiKey with
  | Throw m => Throw m
  | Ret _ =>
      match resp with
      | RText t =>
          match JSON_parse_opt (cleanJsonString (t)) with
          | Some j => Ret j
          | None => Ret sfx_fallback
          end
      | RThrow _ => Ret sfx_fallback
      end
  end.

(** *** extractContinuityTokensFromImage (lines 400-429) and
    generateViralScript (lines 520-533); [syntaxError] is the message of the
    [SyntaxError] the platform's [JSON.parse] throws. *)

Definition extractContinuityTokensFromImage (apiKey : option string) (syntaxError : string)
    (resp : response) : outcome json :=
  match getAiClient apiKey with
  | Throw m => Throw m
  | Ret _ =>
      match resp with
      | RThrow m => Throw (handleApiError JSON_parse_opt m "EXTRACT_TOKENS")
      | RText t =>
          match JSON_parse_opt (cleanJsonString t) with
          | Some j => Ret j
          | None => Throw (handleApiError JSON_parse_opt syntaxError "EXTRACT_TOKENS")
          end
      end
  end.

Definition generateViralScript (apiKey : option string) (syntaxError : string)
    (resp : response) : outcome json :=
  match getAiClient apiKey with
  | Throw m => Throw m
  | Ret _ =>
      match resp with
      | RThrow m => Throw (handleApiError JSON_parse_opt m "GENERATE_VIRAL_SCRIPT")
      | RText t =>
          match JSON_parse_opt (cleanJsonString t) with
          | Some j => Ret j
          | None => Throw (handleApiError JSON_parse_opt syntaxError "GENERATE_VIRAL_SCRIPT")
          end
      end
  end.

(** *** refinePackagePrompts (lines 431-449) *)

Definition escape_char (e : ascii) : ascii :=
  if Ascii.eqb e "b"%char then ch 8
  else if Ascii.eqb e "f"%char then ch 12
  else if Ascii.eqb e "n"%char then ch 10
  else if Ascii.eqb e "r"%char then ch 13
  else if Ascii.eqb e "t"%char then ch 9
  else e.

(** The property key a string literal's body denotes, as UTF-16 code units
    (the parser only accepts well-formed escapes). *)
Fixpoint key_units (s : string) : list nat :=
  match s with
  | EmptyString => []
  | String c r =>
      if Ascii.eqb c c_bslash then
        match r with
        | String e r' =>
            if Ascii.eqb e "u"%char then
              match r' with
              | String h1 (String h2 (String h3 (String h4 r''))) =>
                  (4096 * hex_val h1 + 256 * hex_val h2 + 16 * hex_val h3 + hex_val h4)
                  :: key_units r''
              | _ => map code (list_ascii_of_string s)
              end
            else code (escape_char e) :: key_units r'
        | EmptyString => [code c]
        end
      else code c :: key_units r
  end.

Fixpoint digits_value (acc : Z) (u : list nat) : option Z :=
  match u with
  | [] => Some acc
  | d :: u' =>
      if ((48 <=? d) && (d <=? 57))%nat
      then digits_value (10 * acc + Z.of_nat (d - 48))%Z u' else None
  end.

(** A key that is an array index: the canonical decimal form of an integer
    below [2^32 - 1]. *)
Definition array_index (u : list nat) : option Z :=
  match u with
  | [] => None
  | d :: u' =>
      if (d =? 48)%nat && negb (match u' with [] => true | _ => false end) then None
      else match digits_value 0 u with
           | Some v => if (v <? 4294967295)%Z then Some v else None
           | None => None
           end
  end.

Definition units_eqb (a b : list nat) : bool :=
  if list_eq_dec Nat.eq_dec a b then true else false.

(** [CreateDataProperty] during [JSON.parse]: a repeated key keeps its
    place and takes the new value. *)
Fixpoint put_prop (k : list nat) (v : json) (props : list (list nat * json))
  : list (list nat * json) :=
  match props with
  | [] => [(k, v)]
  | (k', v') :: ps => if units_eqb k k' then (k', v) :: ps else (k', v') :: put_prop k v ps
  end.

Definition object_of (ms : list (string * json)) : list (list nat * json) :=
  fold_left (fun acc m => put_prop (key_units (fst m)) (snd m) acc) ms [].

Fixpoint insert_index (n : Z) (v : json) (l : list (Z * json)) : list (Z * json) :=
  match l with
  | [] => [(n, v)]
  | (n', v') :: l' => if (n <? n')%Z then (n, v) :: l else (n', v') :: insert_index n v l'
  end.

(** [Object.values(o)]: the array-index keys in ascending order, then the
    other keys in creation order. *)
Definition object_values (ms : list (string * json)) : list json :=
  let props := object_of ms in
  let idx := fold_left (fun acc p =>
                          match array_index (fst p) with
                          | Some n => insert_index n (snd p) acc
                          | None => acc
                          end) props [] in
  let others := filter (fun p => match array_index (fst p) with
                                 | Some _ => false | None => true end) props in
  map snd idx ++ map snd others.

Inductive refined :=
| RList (items : list json)   (** an array *)
| RValue (v : json).          (** any other value, returned as it is *)

(** Lines 443-445 for the parsed answer [raw]. *)
Definition refine_results (raw : json) : outcome refined :=
  match raw with
  | JArr xs => Ret (RList xs)
  | JNull => Throw null_data_error
  | JObj _ =>
      let results :=
        match json_prop raw "visualPrompts" with
        | Some j => if json_truthy j then j else JArr []
        | None => JArr []
        end in
      match results with
      | JArr xs => Ret (RList xs)
      | JObj ms => Ret (RList (object_values ms))
      | j => Ret (RValue j)
      end
  | JBool _ | JNum _ | JStr _ => Ret (RList [])
  end.

(** Lines 431-449; [syntaxError] is the message of the [SyntaxError] the
    platform's [JSON.parse] throws. *)
Definition refinePackagePrompts (apiKey : option string) (syntaxError : string)
    (resp : response) : outcome refined :=
  match getAiClient apiKey with
  | Throw m => Throw m
  | Ret _ =>
      match resp with
      | RThrow m => Throw (handleApiError JSON_parse_opt m "REFINE_PROMPTS")
      | RText t =>
          match JSON_parse_opt (cleanJsonString t) with
          | None => Throw (handleApiError JSON_parse_opt syntaxError "REFINE_PROMPTS")
          | Some raw =>
              match refine_results raw with
              | Ret r => Ret r
              | Throw m => Throw (handleApiError JSON_parse_opt m "REFINE_PROMPTS")
              end
          end
      end
  end.

(** *** generateImage (lines 373-398) *)

Record inline_data := mkInline {
  inl_mimeType : option string;
  inl_data : option string
}.

(** [response.candidates?.[0]?.content?.parts]: each part with or without
    [inlineData]; or a thrown error. *)
Inductive image_response :=
| IThrow (message : string)
| IParts (parts : option (list (option inline_data))).

Inductive request_part :=
| PInline (data mimeType : string)
| PText (text : string).

(** [s.split(',')[0]] *)
Fixpoint before_comma (s : string) : string :=
  match s with
  | EmptyString => EmptyString
  | String c r => if Ascii.eqb c c_comma then EmptyString else String c (before_comma r)
  end.

(** [s.split(',')[1]] *)
Fixpoint second_piece (s : string) : option string :=
  match s with
  | EmptyString => None
  | String c r => if Ascii.eqb c c_comma then Some (before_comma r) else second_piece r
  end.

Definition is_line_terminator (c : ascii) : bool := (code c =? 10)%nat || (code c =? 13)%nat.

(** [.*?;] after the colon: the shortest run before a [;] on one line. *)
Fixpoint lazy_to_semicolon (s : string) : option string :=
  match s with
  | EmptyString => None
  | String c r =>
      if Ascii.eqb c ";"%char then Some EmptyString
      else if is_line_terminator c then None
      else option_map (String c) (lazy_to_semicolon r)
  end.

(** [s.match(/:(.*?);/)?.[1]]: the leftmost colon that starts a match. *)
Fixpoint match_colon_semicolon (s : string) : option string :=
  match s with
  | EmptyString => None
  | String c r =>
      if Ascii.eqb c c_colon then
        match lazy_to_semicolon r with
        | Some m => Some m
        | None => match_colon_semicolon r
        end
      else match_colon_semicolon r
  end.

(** Lines 375-380: the parts sent with [prompt]. *)
Definition image_request_parts (prompt : string) (refImage : option string) : list request_part :=
  let ref :=
    match refImage with
    | Some r =>
        if String.eqb r "" then [] else
        let header := before_comma r in
        let data := match second_piece r with
                    | Some d => if String.eqb d "" then r else d
                    | None => r
                    end in
        let mime := match match_colon_semicolon header with
                    | Some m => if String.eqb m "" then "image/png" else m
                    | None => "image/png"
                    end in
        [PInline data mime]
    | None => []
    end in
  ref ++ [PText prompt].

(** [`${x}`] for an optional string. *)
Definition opt_text (o : option string) : string :=
  match o with Some s => s | None => "undefined" end.

(** Lines 387-389: the first part carrying inline data. *)
Fixpoint first_image (parts : list (option inline_data)) : option string :=
  match parts with
  | [] => None
  | Some d :: _ =>
      Some ("data:" ++ opt_text (inl_mimeType d) ++ ";base64," ++ opt_text (inl_data d))
  | None :: ps => first_image ps
  end.

Definition NO_IMAGE : string := "No image data returned from Engine.".

Section Images.

(** The answer of the [k]-th call of [generateContent]. *)
Variable image_completion : nat -> image_response.

(** [generateImage(..., retryCount)] whose first model call is the
    [call]-th, with the number of calls made so far. *)
Fixpoint gen_image (fuel retryCount call : nat) : outcome string * nat :=
  let handler (m : string) :=
    if quota_like m && (retryCount <? 3)%nat then
      match fuel with
      | S f => gen_image f (S retryCount) (S call)
      | O => (Throw (handleApiError JSON_parse_opt m "GENERATE_IMAGE"), S call)
      end
    else (Throw (handleApiError JSON_parse_opt m "GENERATE_IMAGE"), S call) in
  match image_completion call with
  | IThrow m => handler m
  | IParts ps =>
      match first_image (match ps with Some l => l | None => [] end) with
      | Some url => (Ret url, S call)
      | None => handler NO_IMAGE
      end
  end.

Definition generateImage (apiKey : option string) : outcome string * nat :=
  match getAiClient apiKey with
  | Throw m => (Throw m, 0)
  | Ret _ => gen_image 3 0 0
  end.

End Images.

(** *** generateSpeech, decode and createWavHeader (lines 494-555)

    An [ArrayBuffer] is a list of byte values. *)

(** [view.setUint8(i, v)] inside the buffer. *)
Fixpoint set_byte (buf : list Z) (i : nat) (v : Z) : list Z :=
  match buf, i with
  | [], _ => []
  | _ :: r, O => v :: r
  | x :: r, S i' => x :: set_byte r i' v
  end.

Definition setUint8 (buf : list Z) (off : nat) (v : Z) : list Z :=
  set_byte buf off (v mod 256)%Z.

(** [view.setUint16(off, v, true)]: little endian. *)
Definition setUint16 (buf : list Z) (off : nat) (v : Z) : list Z :=
  let u := (v mod 2 ^ 16)%Z in
  setUint8 (setUint8 buf off u) (off + 1) (u / 256)%Z.

(** [view.setUint32(off, v, true)]: little endian. *)
Definition setUint32 (buf : list Z) (off : nat) (v : Z) : list Z :=
  let u := (v mod 2 ^ 32)%Z in
  setUint8 (setUint8 (setUint8 (setUint8 buf off u) (off + 1) (u / 256)%Z)
                     (off + 2) (u / 65536)%Z) (off + 3) (u / 16777216)%Z.

(** Lines 542-555.  [bitsPerSample / 8] is a JS division: the products
    are written as the exact rationals they are for values below [2^53],
    truncated by [ToUint32]/[ToUint16] as [Z.quot]. *)
Definition createWavHeader (dataLength sampleRate numChannels bitsPerSample : Z) : list Z :=
  let b := repeat 0%Z 44 in
  let b := setUint8 b 0 82 in let b := setUint8 b 1 73 in
  let b := setUint8 b 2 70 in let b := setUint8 b 3 70 in
  let b := setUint32 b 4 (36 + dataLength) in
  let b := setUint8 b 8 87 in let b := setUint8 b 9 65 in
  let b := setUint8 b 10 86 in let b := setUint8 b 11 69 in
  let b := setUint8 b 12 102 in let b := setUint8 b 13 109 in
  let b := setUint8 b 14 116 in let b := setUint8 b 15 32 in
  let b := setUint32 b 16 16 in let b := setUint16 b 20 1 in
  let b := setUint16 b 22 numChannels in
  let b := setUint32 b 24 sampleRate in
  let b := setUint32 b 28 (Z.quot (sampleRate * numChannels * bitsPerSample) 8) in
  let b := setUint16 b 32 (Z.quot (numChannels * bitsPerSample) 8) in
  let b := setUint16 b 34 bitsPerSample in
  let b := setUint8 b 36 100 in let b := setUint8 b 37 97 in
  let b := setUint8 b 38 116 in let b := setUint8 b 39 97 in
  setUint32 b 40 dataLength.

(** Lines 535-540, from the string [atob] returned. *)
Definition decode (binaryString : string) : list Z :=
  map (fun c => (Z.of_nat (code c) mod 256)%Z) (list_ascii_of_string binaryString).

(** [response.candidates?.[0]?.content?.parts?.[0]?.inlineData?.data], or a
    thrown error. *)
Inductive speech_response :=
| SThrow (message : string)
| SAudio (base64Audio : option string).

Definition SYNTHESIS_FAILED : string := "Synthesis failed.".

Section Speech.

(** The platform's [atob]; [Throw] is its [InvalidCharacterError]. *)
Variable atob : string -> outcome string.

(** Lines 494-518; the returned object URL stands for the bytes of the
    [Blob] it names. *)
Definition generateSpeech (apiKey : option string) (resp : speech_response) : outcome (list Z) :=
  match getAiClient apiKey with
  | Throw m => Throw m
  | Ret _ =>
      match resp with
      | SThrow m => Throw (handleApiError JSON_parse_opt m "GENERATE_SPEECH")
      | SAudio a =>
          let fail := Throw (handleApiError JSON_parse_opt SYNTHESIS_FAILED "GENERATE_SPEECH") in
          match a with
          | None => fail
          | Some s =>
              if String.eqb s "" then fail else
              match atob s with
              | Throw m => Throw (handleApiError JSON_parse_opt m "GENERATE_SPEECH")
              | Ret bin =>
                  let pcmData := decode bin in
                  Ret (createWavHeader (Z.of_nat (length pcmData)) 24000 1 16 ++ pcmData)%list
              end
          end
      end
  end.

End Speech.

(** [view.getUint16(off, true)] and [view.getUint32(off, true)]. *)
Definition getUint16 (buf : list Z) (off : nat) : Z :=
  (nth off buf 0 + 256 * nth (off + 1) buf 0)%Z.

Definition getUint32 (buf : list Z) (off : nat) : Z :=
  (getUint16 buf off + 65536 * getUint16 buf (off + 2))%Z.

(** The preset names of [VISUAL_STYLE_PRESETS]. *)
Definition preset_names : list string :=
  match VISUAL_STYLE_PRESETS with VRecord ps => map fst ps | _ => [] end.

(** The own entry of [name] in the preset table. *)
Definition preset_entry (name : string) : option jsval :=
  match VISUAL_STYLE_PRESETS with VRecord ps => assoc name ps | _ => None end.

(** Every character of [s] satisfies [p]. *)
Definition str_forall (p : ascii -> bool) (s : string) : bool :=
  forallb p (list_ascii_of_string s).

Definition no_comma (c : ascii) : bool := negb (Ascii.eqb c c_comma).

(** A character that may occur in the MIME type of a data URL that is read
    back by [header.match(/:(.*?);/)]. *)
Definition mime_char (c : ascii) : bool :=
  negb (Ascii.eqb c c_comma || Ascii.eqb c ";"%char || is_line_terminator c).

(** The errors handleApiError reports for a missing image and a missing
    audio payload. *)
Definition NO_IMAGE_REPORTED : string :=
  "Engine Failure [GENERATE_IMAGE]: no image data returned from engine.".

Definition SYNTHESIS_REPORTED : string :=
  "Engine Failure [GENERATE_SPEECH]: synthesis failed.".

(** [s] starts with the root character ['{'] or ['[']. *)
Definition starts_with_root (s : string) : bool :=
  match s with
  | String c _ => Ascii.eqb c c_lbrace || Ascii.eqb c c_lbrack
  | EmptyString => false
  end.

(** JSON texts as the grammar of [JSON_parse], and the predicates of
    the C4 statement. *)

(** [s] starts with white space followed by a closer. *)
Fixpoint ws_then_closer (s : string) : bool :=
  match s with
  | EmptyString => false
  | String c r =>
      if is_js_ws c then ws_then_closer r else Ascii.eqb c c_rbrack || Ascii.eqb c c_rbrace
  end.

(** [s] holds a match of the comma pattern [/,\s*[\]}]/]. *)
Fixpoint has_comma_closer (s : string) : bool :=
  match s with
  | EmptyString => false
  | String c r => (Ascii.eqb c c_comma && ws_then_closer r) || has_comma_closer r
  end.

(** [s] starts with white space followed by a quote. *)
Fixpoint ws_then_quote (s : string) : bool :=
  match s with
  | EmptyString => false
  | String c r => if is_js_ws c then ws_then_quote r else Ascii.eqb c c_quote
  end.

(** [s] starts with white space, a colon, white space and a quote. *)
Fixpoint ws_colon_quote (s : string) : bool :=
  match s with
  | EmptyString => false
  | String c r =>
      if is_js_ws c then ws_colon_quote r else Ascii.eqb c c_colon && ws_then_quote r
  end.

(** [s] holds a match of the colon pattern: a quote, white space, a
    colon, white space and a quote. *)
Fixpoint has_quote_colon (s : string) : bool :=
  match s with
  | EmptyString => false
  | String c r => (Ascii.eqb c c_quote && ws_colon_quote r) || has_quote_colon r
  end.

(** The literal of the string [raw], quotes included, holds no match of
    either pattern of the post-processing. *)
Definition literal_clean (raw : string) : bool :=
  negb (has_comma_closer (quote raw)) && negb (has_quote_colon (quote raw)).

(** Every key and every string of the value is [literal_clean]. *)
Fixpoint strings_clean (j : json) : bool :=
  match j with
  | JNull | JBool _ | JNum _ => true
  | JStr raw => literal_clean raw
  | JArr xs =>
      (fix all (l : list json) : bool :=
         match l with [] => true | x :: l' => strings_clean x && all l' end) xs
  | JObj ms =>
      (fix all (l : list (string * json)) : bool :=
         match l with
         | [] => true
         | (k, v) :: l' => literal_clean k && strings_clean v && all l'
         end) ms
  end.

(** [w] is JSON white space (TAB, LF, CR, SPACE). *)
Definition json_ws (w : string) : Prop := str_all is_json_ws w = true.

(** [raw] is the text of a JSON string between its quotes: no bare
    quote, backslash or control character, and well-formed escapes. *)
Inductive body : string -> Prop :=
| BNil : body EmptyString
| BChar (c : ascii) (r : string) :
    Ascii.eqb c c_quote = false -> Ascii.eqb c c_bslash = false ->
    (code c <? 32)%nat = false -> body r -> body (String c r)
| BEsc (e : ascii) (r : string) :
    is_simple_escape e = true -> body r -> body (String c_bslash (String e r))
| BUni (h1 h2 h3 h4 : ascii) (r : string) :
    is_hex h1 && is_hex h2 && is_hex h3 && is_hex h4 = true -> body r ->
    body (String c_bslash (String "u"%char (String h1 (String h2 (String h3 (String h4 r)))))).

(** [vtext x v]: [x] is a JSON text of [v] with any white space between
    its tokens and none around it; [more_items] and [more_members] are the
    rest of an array or object after its first element. *)
Inductive vtext : string -> json -> Prop :=
| VTnull : vtext "null" JNull
| VTtrue : vtext "true" (JBool true)
| VTfalse : vtext "false" (JBool false)
| VTnum (lx : string) : number lx = Some (lx, EmptyString) -> vtext lx (JNum lx)
| VTstr (raw : string) : body raw -> vtext (quote raw) (JStr raw)
| VTarr0 (w : string) : json_ws w -> vtext (String c_lbrack (w ++ "]")) (JArr [])
| VTarr (w x w' m : string) (v : json) (vs : list json) :
    json_ws w -> vtext x v -> json_ws w' -> more_items m vs ->
    vtext (String c_lbrack (w ++ x ++ w' ++ m ++ "]")) (JArr (v :: vs))
| VTobj0 (w : string) : json_ws w -> vtext (String c_lbrace (w ++ "}")) (JObj [])
| VTobj (w k w1 w2 x w3 m : string) (v : json) (ms : list (string * json)) :
    json_ws w -> body k -> json_ws w1 -> json_ws w2 -> vtext x v -> json_ws w3 ->
    more_members m ms ->
    vtext (String c_lbrace (w ++ quote k ++ w1 ++ ":" ++ w2 ++ x ++ w3 ++ m ++ "}"))
          (JObj ((k, v) :: ms))
with more_items : string -> list json -> Prop :=
| MI0 : more_items EmptyString []
| MIc (w x w' m : string) (v : json) (vs : list json) :
    json_ws w -> vtext x v -> json_ws w' -> more_items m vs ->
    more_items (String c_comma (w ++ x ++ w' ++ m)) (v :: vs)
with more_members : string -> list (string * json) -> Prop :=
| MM0 : more_members EmptyString []
| MMc (w k w1 w2 x w3 m : string) (v : json) (ms : list (string * json)) :
    json_ws w -> body k -> json_ws w1 -> json_ws w2 -> vtext x v -> json_ws w3 ->
    more_members m ms ->
    more_members (String c_comma (w ++ quote k ++ w1 ++ ":" ++ w2 ++ x ++ w3 ++ m))
                 ((k, v) :: ms).

Scheme vtext_mind := Induction for vtext Sort Prop
with more_items_mind := Induction for more_items Sort Prop
with more_members_mind := Induction for more_members Sort Prop.
Combined Scheme vtext_all_ind from vtext_mind, more_items_mind, more_members_mind.

(** The characters that may follow a value inside a JSON text. *)
Definition delim_char (c : ascii) : bool :=
  is_json_ws c || Ascii.eqb c c_comma || Ascii.eqb c c_rbrack || Ascii.eqb c c_rbrace.

Definition delim (t : string) : Prop :=
  match t with EmptyString => True | String c _ => delim_char c = true end.

(** The steps of [number], one definition each. *)
Definition int_part_of (s1 : string) : option (string * string) :=
  match s1 with
  | String "0"%char r => Some ("0", r)
  | _ => let '(d, r) := digits s1 in
         if String.eqb d "" then None else Some (d, r)
  end.

Definition frac_of (s2 : string) : option (string * string) :=
  match s2 with
  | String "."%char r =>
      let '(d, r') := digits r in
      if String.eqb d "" then None else Some ("." ++ d, r')
  | _ => Some (EmptyString, s2)
  end.

Definition expo_of (s3 : string) : option (string * string) :=
  match s3 with
  | String e r =>
      if Ascii.eqb e "e"%char || Ascii.eqb e "E"%char then
        let '(sg, r1) :=
          match r with
          | String p r1 =>
              if Ascii.eqb p "+"%char || Ascii.eqb p "-"%char
              then (String p EmptyString, r1) else (EmptyString, r)
          | EmptyString => (EmptyString, r)
          end in
        let '(d, r2) := digits r1 in
        if String.eqb d "" then None else Some (String e (sg ++ d), r2)
      else Some (EmptyString, s3)
  | EmptyString => Some (EmptyString, s3)
  end.

Definition number_steps (s : string) : option (string * string) :=
  let '(sign, s1) := opt_char "-"%char s in
  match int_part_of s1 with
  | None => None
  | Some (ip, s2) =>
      match frac_of s2 with
      | None => None
      | Some (fp, s3) =>
          match expo_of s3 with
          | None => None
          | Some (ep, s4) => Some (sign ++ ip ++ fp ++ ep, s4)
          end
      end
  end.

(** A lexer result with [t] appended to the rest. *)
Definition shift (t : string) (o : option (string * string)) : option (string * string) :=
  match o with Some (a, b) => Some (a, b ++ t) | None => None end.

(** [s] does not start with JSON white space. *)
Definition ws_free_head (s : string) : Prop :=
  match s with EmptyString => True | String c _ => is_json_ws c = false end.

(** The facts about the first character of a value text. *)
Definition value_lead (c : ascii) : Prop :=
  is_json_ws c = false /\ is_js_ws c = false /\ Ascii.eqb c c_comma = false /\
  Ascii.eqb c c_rbrack = false /\ Ascii.eqb c c_rbrace = false /\
  Ascii.eqb c c_colon = false.

(** What a successful parse at fuel [n] says about its input. *)
Definition sound_at (n : nat) : Prop :=
  (forall s v t, parse_value n s = POk v t -> exists x, s = x ++ t /\ (delim t -> vtext x v)) /\
  (forall s xs t, parse_items n s = POk xs t ->
     (xs = [] /\ s = String c_rbrack t) \/
     exists x v w' m vs, xs = v :: vs /\ s = x ++ w' ++ m ++ String c_rbrack t /\
       vtext x v /\ json_ws w' /\ more_items m vs) /\
  (forall acc s xs t, parse_more_items n acc s = POk xs t ->
     exists m vs, xs = (rev acc ++ vs)%list /\ s = m ++ String c_rbrack t /\ more_items m vs) /\
  (forall s ms t, parse_members n s = POk ms t ->
     (ms = [] /\ s = String c_rbrace t) \/
     exists k w1 w2 x v w3 m ms', ms = (k, v) :: ms' /\
       s = quote k ++ w1 ++ ":" ++ w2 ++ x ++ w3 ++ m ++ String c_rbrace t /\
       body k /\ json_ws w1 /\ json_ws w2 /\ vtext x v /\ json_ws w3 /\ more_members m ms') /\
  (forall acc s ms t, parse_more_members n acc s = POk ms t ->
     exists m ms', ms = (rev acc ++ ms')%list /\ s = m ++ String c_rbrace t /\ more_members m ms') /\
  (forall s k v u, parse_member n s = POk (k, v) u ->
     exists w1 w2 x, s = quote k ++ w1 ++ ":" ++ w2 ++ x ++ u /\ body k /\
       json_ws w1 /\ json_ws w2 /\ (delim u -> vtext x v)).

(** The two newline replacements of [post_process] (lines 125-126). *)
Definition newline_pass (s : string) : string :=
  replace_char c_cr c_space (replace_char c_lf c_space s).

(** [newline_pass] on one character. *)
Definition nl_char (c : ascii) : ascii :=
  let c1 := if Ascii.eqb c_lf c then c_space else c in
  if Ascii.eqb c_cr c1 then c_space else c1.

(** The text the colon matcher holds back in state [q]. *)
Definition qprefix (q : qstate) : string :=
  match q with
  | QNone => EmptyString
  | QOpen ws | QColon ws => String c_quote ws
  end.

(** The states of the colon matcher reachable from [QNone]. *)
Definition q_wf (q : qstate) : Prop :=
  match q with
  | QNone => True
  | QOpen ws => str_all is_js_ws ws = true
  | QColon ws => exists w1 w2, ws = w1 ++ String c_colon w2 /\
                   str_all is_js_ws w1 = true /\ str_all is_js_ws w2 = true
  end.

(** What may follow a value: white space, then the end, a comma or a
    closer. *)
Definition follow_ok (r : string) : Prop :=
  match trim_start r with
  | EmptyString => True
  | String c _ => c = c_comma \/ c = c_rbrack \/ c = c_rbrace
  end.

(* ================================================================== *)
(** * Properties *)

(** ** Helper lemmas *)

Lemma index_of_from_pos (c : ascii) (s : string) :
  forall i, index_of_from c i s =
            match char_pos c s with None => (-1)%Z | Some n => (i + Z.of_nat n)%Z end.
Proof.
  induction s as [|d r IH]; intro i; simpl; [reflexivity|].
  destruct (Ascii.eqb c d); [lia|].
  rewrite IH. destruct (char_pos c r); simpl; lia.
Qed.

Lemma first_root_pos_min (s : string) :
  first_root_pos s =
  match char_pos c_lbrace s, char_pos c_lbrack s with
  | None, None => None
  | Some a, None => Some a
  | None, Some b => Some b
  | Some a, Some b => Some (Nat.min a b)
  end.
Proof.
  assert (F : Ascii.eqb c_lbrack c_lbrace = false) by reflexivity.
  assert (F' : Ascii.eqb c_lbrace c_lbrack = false) by reflexivity.
  induction s as [|d r IH]; cbn [first_root_pos char_pos]; [reflexivity|].
  rewrite (Ascii.eqb_sym c_lbrace d), (Ascii.eqb_sym c_lbrack d).
  destruct (Ascii.eqb_spec d c_lbrace) as [->|N1].
  - rewrite F'. destruct (char_pos c_lbrack r); reflexivity.
  - destruct (Ascii.eqb_spec d c_lbrack) as [->|N2].
    + rewrite ?F, ?F'. destruct (char_pos c_lbrace r); reflexivity.
    + simpl. rewrite IH.
      destruct (char_pos c_lbrace r), (char_pos c_lbrack r); reflexivity.
Qed.

Lemma root_start_first (s : string) :
  root_start s = match first_root_pos s with None => (-1)%Z | Some i => Z.of_nat i end.
Proof.
  unfold root_start, index_of. rewrite !index_of_from_pos, first_root_pos_min.
  destruct (char_pos c_lbrace s) as [a|], (char_pos c_lbrack s) as [b|]; simpl;
    repeat (match goal with |- context [(?x =? ?y)%Z] => destruct (Z.eqb_spec x y) end
            || match goal with |- context [(?x <? ?y)%Z] => destruct (Z.ltb_spec x y) end);
    simpl; try lia.
Qed.

Lemma recoverJson_root (t : string) :
  recoverJson t =
  match first_root_pos (unfence (trim t)) with
  | None => "{}"
  | Some i => recover_from_root (str_drop i (unfence (trim t)))
  end.
Proof.
  unfold recoverJson, cleanJsonString.
  destruct (String.eqb_spec t "") as [->|_]; [reflexivity|].
  cbv zeta. rewrite root_start_first.
  destruct (first_root_pos (unfence (trim t))) as [i|]; [|reflexivity].
  destruct (Z.eqb_spec (Z.of_nat i) (-1)); [lia|]. rewrite Nat2Z.id. reflexivity.
Qed.

Lemma handle_structural_failure (parse : string -> option json) :
  handleApiError parse STRUCTURAL_FAILURE "GENERATE_PACKAGE" = STRUCTURAL_REPORTED.
Proof. reflexivity. Qed.

Lemma quota_like_structural : quota_like STRUCTURAL_FAILURE = false.
Proof. vm_compute. reflexivity. Qed.

(** ** C1 *)

(** C1 (counterexample): for the mid-string truncation
    [qq "{`a`:`hello wor"] the engine only appends a closing brace, and
    JSON.parse rejects the result. *)
Lemma C1_truncated_string_unparseable :
  recoverJson (qq "{`a`:`hello wor") = qq "{`a`:`hello wor}" /\
  JSON_parse (recoverJson (qq "{`a`:`hello wor")) = Reject.
Proof. split; vm_compute; reflexivity. Qed.

(** C1 (amended): recoverJson returns the parseable text [{}] when its
    input is undefined, empty, or has neither '{' nor '[' once trimmed and
    unfenced; in the other cases its output is not guaranteed to parse:
    [qq "{`a`:`hello wor"] gives [qq "{`a`:`hello wor}"], which JSON.parse
    rejects. *)
Theorem C1_empty_object_only_when_no_root (t : string)
  (H : first_root_pos (unfence (trim t)) = None) :
  recoverJson t = "{}" /\ JSON_parse (recoverJson t) = Accept (JObj []) /\
  cleanJsonString None = "{}" /\ recoverJson "" = "{}" /\
  recoverJson (qq "{`a`:`hello wor") = qq "{`a`:`hello wor}" /\
  JSON_parse (recoverJson (qq "{`a`:`hello wor")) = Reject.
Proof.
  assert (E : recoverJson t = "{}") by (rewrite recoverJson_root, H; reflexivity).
  rewrite E. repeat split; vm_compute; reflexivity.
Qed.

Lemma C1_empty_object_only_when_no_root_witness :
  first_root_pos (unfence (trim "no structure here")) = None /\
  recoverJson "no structure here" = "{}".
Proof.
  split; [vm_compute; reflexivity|].
  apply (C1_empty_object_only_when_no_root "no structure here"). vm_compute. reflexivity.
Defined.

(** ** C2 *)

(** C2: for [qq "{`a`:1,`b`:[1,2,"] the scan ends with one brace and one
    bracket open and the last safe-to-cut point at the final comma; the
    repair drops that comma and appends ']' then '}', giving
    [qq "{`a`:1,`b`:[1,2]}"], which parses, with a = 1. *)
Theorem C2_truncated_object_repaired :
  scan 0 scan_init (qq "{`a`:1,`b`:[1,2,") = (mkScan 1 1 false false 15, Exhausted) /\
  repair 15 (qq "{`a`:1,`b`:[1,2,") = qq "{`a`:1,`b`:[1,2]}" /\
  recoverJson (qq "{`a`:1,`b`:[1,2,") = qq "{`a`:1,`b`:[1,2]}" /\
  JSON_parse (recoverJson (qq "{`a`:1,`b`:[1,2,"))
  = Accept (JObj [("a", JNum "1"); ("b", JArr [JNum "1"; JNum "2"])]) /\
  option_map (fun v => json_prop v "a") (JSON_parse_opt (recoverJson (qq "{`a`:1,`b`:[1,2,")))
  = Some (Some (JNum "1")).
Proof. repeat split; vm_compute; reflexivity. Qed.

(** ** C3 *)

(** C3: on [qq "{`a`:1}"] followed by any text the scan reaches zero
    counters at the closing brace, the text is cut there and the rest is
    ignored; [qq "{`a`:1}}}"] gives text that parses to {a:1}. *)
Theorem C3_stray_closers_ignored :
  (forall r : string,
     snd (scan 0 scan_init (qq "{`a`:1}" ++ r)) = Finished 6 /\
     recover_from_root (qq "{`a`:1}" ++ r) = qq "{`a`:1}") /\
  recoverJson (qq "{`a`:1}}}") = qq "{`a`:1}" /\
  JSON_parse (recoverJson (qq "{`a`:1}}}")) = Accept (JObj [("a", JNum "1")]).
Proof.
  split; [|split; vm_compute; reflexivity].
  intro r. split; [reflexivity|].
  unfold recover_from_root. vm_compute. reflexivity.
Qed.

(** ** C5 *)

(** C5: for every input, recoverJson starts from the first '{' or '['
    (whichever occurs first) of the trimmed, unfenced text, drops what
    precedes it, and returns [{}] when neither occurs; a text whose first
    structural character is '[' is recovered from that bracket. *)
Theorem C5_root_is_first_brace_or_bracket :
  (forall t : string,
     recoverJson t =
     match first_root_pos (unfence (trim t)) with
     | None => "{}"
     | Some i => recover_from_root (str_drop i (unfence (trim t)))
     end) /\
  recoverJson (qq "note [{`a`:1}] {") = qq "[{`a`:1}]".
Proof.
  split; [exact recoverJson_root|]. vm_compute. reflexivity.
Qed.

(** ** C7 *)

Lemma str_app_assoc (a b c : string) : (a ++ b) ++ c = a ++ (b ++ c).
Proof. induction a as [|x a IH]; simpl; [reflexivity | now rewrite IH]. Qed.

Lemma str_app_nil_r (a : string) : a ++ "" = a.
Proof. induction a as [|x a IH]; simpl; [reflexivity | now rewrite IH]. Qed.

Lemma str_length_app (a b : string) : String.length (a ++ b) = String.length a + String.length b.
Proof. induction a as [|x a IH]; simpl; [reflexivity | now rewrite IH]. Qed.

Lemma str_all_app (f : ascii -> bool) (a b : string) :
  str_all f (a ++ b) = str_all f a && str_all f b.
Proof.
  induction a as [|x a IH]; simpl; [reflexivity|]. rewrite IH. apply andb_assoc.
Qed.

Lemma str_all_impl (f g : ascii -> bool) (s : string) :
  (forall c, f c = true -> g c = true) -> str_all f s = true -> str_all g s = true.
Proof.
  intro Hfg. induction s as [|x s IH]; simpl; [reflexivity|].
  intro H. apply andb_true_iff in H as [H1 H2]. rewrite (Hfg x H1). simpl. auto.
Qed.

Lemma str_take_all (n : nat) (s : string) : (String.length s <= n)%nat -> str_take n s = s.
Proof.
  revert n. induction s as [|x s IH]; intros [|n] H; simpl in *; try reflexivity; [lia|].
  rewrite IH by lia. reflexivity.
Qed.

Lemma str_drop_app (k : nat) (a b : string) :
  (k <= String.length a)%nat -> str_drop k (a ++ b) = str_drop k a ++ b.
Proof.
  revert k. induction a as [|x a IH]; intros [|k] H; simpl in *; try reflexivity; [lia|].
  apply IH. lia.
Qed.

Lemma list_ascii_app (a b : string) :
  list_ascii_of_string (a ++ b) = (list_ascii_of_string a ++ list_ascii_of_string b)%list.
Proof. induction a as [|x a IH]; simpl; [reflexivity | now rewrite IH]. Qed.

Lemma ends_with_last (suf s : string) (c d : ascii) :
  ends_with (suf ++ String d "") (s ++ String c "") = true -> c = d.
Proof.
  unfold ends_with. rewrite !str_length_app. simpl.
  intro H. apply andb_true_iff in H as [L E]. apply Nat.leb_le in L.
  apply String.eqb_eq in E.
  rewrite str_drop_app in E by lia.
  apply (f_equal list_ascii_of_string) in E. rewrite !list_ascii_app in E.
  simpl in E. apply app_inj_tail in E as [_ E]. congruence.
Qed.

Lemma trim_end_last (s : string) (c : ascii) :
  is_js_ws c = false -> trim_end (s ++ String c "") = s ++ String c "".
Proof.
  intro W. induction s as [|x s IH]; simpl.
  - rewrite W. reflexivity.
  - rewrite IH. destruct (s ++ String c "") eqn:E; [destruct s; discriminate E | reflexivity].
Qed.

(** ** The scan over printed values *)

Lemma scan_app (i : nat) (st : scan_st) (a b : string) :
  scan i st (a ++ b) =
  match scan i st a with
  | (st', Exhausted) => scan (i + String.length a) st' b
  | r => r
  end.
Proof.
  revert i st. induction a as [|x a IH]; intros i st; simpl.
  - rewrite Nat.add_0_r. reflexivity.
  - destruct (scan_step i st x) as [st' fin]. destruct fin; [reflexivity|].
    destruct ((braceCount st' <? 0)%Z || (bracketCount st' <? 0)%Z); [reflexivity|].
    rewrite IH. destruct (scan (S i) st' a) as [st'' []]; try reflexivity.
    rewrite Nat.add_succ_r. reflexivity.
Qed.

Lemma neutral_eqbs (c : ascii) :
  neutral c = true ->
  Ascii.eqb c c_quote = false /\ Ascii.eqb c c_bslash = false /\
  Ascii.eqb c c_lbrace = false /\ Ascii.eqb c c_rbrace = false /\
  Ascii.eqb c c_lbrack = false /\ Ascii.eqb c c_rbrack = false /\
  Ascii.eqb c c_comma = false.
Proof.
  unfold neutral. intro H. rewrite !negb_orb in H. rewrite !andb_true_iff in H.
  rewrite !negb_true_iff in H. tauto.
Qed.

Lemma scan_neutral (w : string) (b k last : Z) :
  str_all neutral w = true -> (0 <= b)%Z -> (0 <= k)%Z -> nz b k ->
  forall i, scan i (mkScan b k false false last) w = (mkScan b k false false last, Exhausted).
Proof.
  intros Hw Hb Hk Hnz. induction w as [|c w IH]; intro i; [reflexivity|].
  simpl in Hw. apply andb_true_iff in Hw as [Hc Hw].
  destruct (neutral_eqbs c Hc) as (Q & B & LB & RB & LK & RK & CM).
  cbn [scan]. unfold scan_step, is_safe_char. cbn [escaped inString braceCount bracketCount lastSafePoint].
  rewrite Q, LB, RB, LK, RK, CM, B. cbn. unfold nz in Hnz. rewrite Hnz. cbn.
  replace ((b <? 0)%Z || (k <? 0)%Z) with false by (symmetry; apply orb_false_iff; split; apply Z.ltb_ge; lia).
  rewrite andb_false_r. apply IH; assumption.
Qed.

Lemma plain_eqbs (c : ascii) :
  plain_char c = true ->
  Ascii.eqb c c_quote = false /\ Ascii.eqb c c_bslash = false /\
  Ascii.eqb c c_comma = false /\ Ascii.eqb c c_colon = false /\ printable c = true.
Proof.
  unfold plain_char, printable. intro H. rewrite !andb_true_iff in H.
  rewrite !negb_true_iff in H. tauto.
Qed.

Ltac not_char H c K :=
  let E := fresh in
  destruct (Ascii.eqb_spec c K) as [E|E];
  [subst; vm_compute in H; discriminate H | reflexivity].

Lemma num_neutral (c : ascii) : num_char c = true -> neutral c = true.
Proof.
  intro H. unfold neutral.
  assert (Ascii.eqb c c_quote = false) as -> by not_char H c c_quote.
  assert (Ascii.eqb c c_bslash = false) as -> by not_char H c c_bslash.
  assert (Ascii.eqb c c_lbrace = false) as -> by not_char H c c_lbrace.
  assert (Ascii.eqb c c_rbrace = false) as -> by not_char H c c_rbrace.
  assert (Ascii.eqb c c_lbrack = false) as -> by not_char H c c_lbrack.
  assert (Ascii.eqb c c_rbrack = false) as -> by not_char H c c_rbrack.
  assert (Ascii.eqb c c_comma = false) as -> by not_char H c c_comma.
  reflexivity.
Qed.

Lemma scan_pass_app (a b : string) : scan_pass a -> scan_pass b -> scan_pass (a ++ b).
Proof.
  intros Ha Hb b0 k last i H1 H2 H3.
  destruct (Ha b0 k last i H1 H2 H3) as [l1 E1].
  rewrite scan_app, E1. apply Hb; assumption.
Qed.

Lemma scan_pass_neutral (w : string) : str_all neutral w = true -> scan_pass w.
Proof.
  intros Hw b k last i H1 H2 H3. exists last. apply scan_neutral; assumption.
Qed.

Lemma scan_pass_comma : scan_pass ",".
Proof.
  intros b k last i H1 H2 H3. exists (Z.of_nat i). unfold nz in H3.
  cbn [scan]. unfold scan_step, is_safe_char. cbn.
  rewrite H3. cbn.
  replace (0 <=? b)%Z with true by (symmetry; apply Z.leb_le; lia).
  replace (0 <=? k)%Z with true by (symmetry; apply Z.leb_le; lia).
  replace ((b <? 0)%Z || (k <? 0)%Z) with false by (symmetry; apply orb_false_iff; split; apply Z.ltb_ge; lia).
  reflexivity.
Qed.

Lemma scan_in_string (w : string) (b k last : Z) :
  str_all plain_char w = true -> (0 <= b)%Z -> (0 <= k)%Z ->
  forall i, scan i (mkScan b k true false last) w = (mkScan b k true false last, Exhausted).
Proof.
  intros Hw Hb Hk. induction w as [|c w IH]; intro i; [reflexivity|].
  simpl in Hw. apply andb_true_iff in Hw as [Hc Hw].
  destruct (plain_eqbs c Hc) as (Q & B & _ & _ & _).
  cbn [scan]. unfold scan_step. cbn [escaped inString braceCount bracketCount lastSafePoint].
  rewrite Q, B. cbn.
  replace ((b <? 0)%Z || (k <? 0)%Z) with false by (symmetry; apply orb_false_iff; split; apply Z.ltb_ge; lia).
  apply IH; assumption.
Qed.

Lemma scan_pass_quote (raw : string) : str_all plain_char raw = true -> scan_pass (quote raw).
Proof.
  intros Hr b k last i H1 H2 H3. exists last. unfold quote, nz in *.
  cbn [scan]. unfold scan_step. cbn.
  replace ((b <? 0)%Z || (k <? 0)%Z) with false by (symmetry; apply orb_false_iff; split; apply Z.ltb_ge; lia).
  rewrite scan_app, scan_in_string by assumption.
  cbn [scan]. unfold scan_step. cbn. rewrite H3. cbn.
  replace ((b <? 0)%Z || (k <? 0)%Z) with false by (symmetry; apply orb_false_iff; split; apply Z.ltb_ge; lia).
  rewrite andb_false_r. reflexivity.
Qed.

Ltac nonneg_counts :=
  repeat match goal with
  | |- context [((?b <? 0)%Z || (?k <? 0)%Z)] =>
      replace ((b <? 0)%Z || (k <? 0)%Z) with false
        by (symmetry; apply orb_false_iff; split; apply Z.ltb_ge; lia)
  | |- context [(0 <=? ?b)%Z] =>
      replace (0 <=? b)%Z with true by (symmetry; apply Z.leb_le; lia)
  end.

Lemma scan_arr_wrap (s : string) :
  scan_pass s -> forall b k last i, (0 <= b)%Z -> (0 <= k)%Z ->
  scan i (mkScan b k false false last) (String c_lbrack (s ++ "]")) =
  (mkScan b k false false (Z.of_nat (S (i + String.length s))),
   if (b =? 0)%Z && (k =? 0)%Z then Finished (S (i + String.length s)) else Exhausted).
Proof.
  intros Hs b k last i Hb Hk.
  cbn [scan]. unfold scan_step, is_safe_char. cbn.
  replace (k + 1 =? 0)%Z with false by (symmetry; apply Z.eqb_neq; lia).
  rewrite andb_false_r, !andb_false_l, andb_false_r. cbn. nonneg_counts.
  rewrite scan_app.
  destruct (Hs b (k + 1)%Z last (S i)) as [l1 E1]; [lia | lia | |].
  { unfold nz. replace (k + 1 =? 0)%Z with false by (symmetry; apply Z.eqb_neq; lia).
    apply andb_false_r. }
  rewrite E1. cbn [scan]. unfold scan_step, is_safe_char. cbn.
  replace (k + 1 - 1)%Z with k by lia. nonneg_counts. cbn.
  destruct ((b =? 0)%Z && (k =? 0)%Z); cbn; nonneg_counts; reflexivity.
Qed.

Lemma scan_obj_wrap (s : string) :
  scan_pass s -> forall b k last i, (0 <= b)%Z -> (0 <= k)%Z ->
  scan i (mkScan b k false false last) (String c_lbrace (s ++ "}")) =
  (mkScan b k false false (Z.of_nat (S (i + String.length s))),
   if (b =? 0)%Z && (k =? 0)%Z then Finished (S (i + String.length s)) else Exhausted).
Proof.
  intros Hs b k last i Hb Hk.
  cbn [scan]. unfold scan_step, is_safe_char. cbn.
  replace (b + 1 =? 0)%Z with false by (symmetry; apply Z.eqb_neq; lia).
  rewrite andb_false_r, !andb_false_l. cbn. nonneg_counts.
  rewrite scan_app.
  destruct (Hs (b + 1)%Z k last (S i)) as [l1 E1]; [lia | lia | |].
  { unfold nz. replace (b + 1 =? 0)%Z with false by (symmetry; apply Z.eqb_neq; lia).
    reflexivity. }
  rewrite E1. cbn [scan]. unfold scan_step, is_safe_char. cbn.
  replace (b + 1 - 1)%Z with b by lia. nonneg_counts. cbn.
  destruct ((b =? 0)%Z && (k =? 0)%Z); cbn; nonneg_counts; reflexivity.
Qed.

Lemma print_arr (xs : list json) : print (JArr xs) = String c_lbrack (print_items true xs ++ "]").
Proof. reflexivity. Qed.

Lemma print_obj (ms : list (string * json)) :
  print (JObj ms) = String c_lbrace (print_members true ms ++ "}").
Proof. reflexivity. Qed.

Lemma print_items_cons (first : bool) (x : json) (l : list json) :
  print_items first (x :: l) = (if first then "" else ",") ++ print x ++ print_items false l.
Proof. reflexivity. Qed.

Lemma print_members_cons (first : bool) (k : string) (v : json) (l : list (string * json)) :
  print_members first ((k, v) :: l)
  = (if first then "" else ",") ++ quote k ++ ":" ++ print v ++ print_members false l.
Proof. reflexivity. Qed.

Lemma safe_arr_cons (x : json) (l : list json) :
  safe_json (JArr (x :: l)) = safe_json x && safe_json (JArr l).
Proof. reflexivity. Qed.

Lemma safe_obj_cons (k : string) (v : json) (l : list (string * json)) :
  safe_json (JObj ((k, v) :: l)) = str_all plain_char k && safe_json v && safe_json (JObj l).
Proof. reflexivity. Qed.

Lemma scan_pass_nil : scan_pass "".
Proof. intros b k last i _ _ _. exists last. reflexivity. Qed.

Lemma scan_pass_sep (first : bool) : scan_pass (if first then "" else ",").
Proof. destruct first; [exact scan_pass_nil | exact scan_pass_comma]. Qed.

Lemma scan_pass_arr (xs : list json) :
  scan_pass (print_items true xs) -> scan_pass (print (JArr xs)).
Proof.
  intros H b k last i Hb Hk Hnz. rewrite print_arr, scan_arr_wrap by assumption.
  unfold nz in Hnz. rewrite Hnz. eexists. reflexivity.
Qed.

Lemma scan_pass_obj (ms : list (string * json)) :
  scan_pass (print_members true ms) -> scan_pass (print (JObj ms)).
Proof.
  intros H b k last i Hb Hk Hnz. rewrite print_obj, scan_obj_wrap by assumption.
  unfold nz in Hnz. rewrite Hnz. eexists. reflexivity.
Qed.

Lemma scan_print (v : json) : safe_json v = true -> scan_pass (print v).
Proof.
  induction v as [| b | lx | raw | xs IH | ms IH] using json_ind2; intro Hs.
  - apply scan_pass_neutral. reflexivity.
  - apply scan_pass_neutral. destruct b; reflexivity.
  - apply scan_pass_neutral. simpl in Hs. apply andb_true_iff in Hs as [_ Hs].
    exact (str_all_impl num_char neutral lx num_neutral Hs).
  - apply scan_pass_quote. exact Hs.
  - apply scan_pass_arr. generalize true as first.
    induction IH as [|x l Px Pl IHl]; intro first; [exact scan_pass_nil|].
    rewrite safe_arr_cons in Hs. apply andb_true_iff in Hs as [Hx Hl].
    rewrite print_items_cons.
    apply scan_pass_app; [apply scan_pass_sep|]. apply scan_pass_app; [apply Px; exact Hx|].
    apply IHl. exact Hl.
  - apply scan_pass_obj. generalize true as first.
    induction IH as [|[k v] l Pv Pl IHl]; intro first; [exact scan_pass_nil|].
    rewrite safe_obj_cons in Hs. apply andb_true_iff in Hs as [Hkv Hl].
    apply andb_true_iff in Hkv as [Hk Hv].
    rewrite print_members_cons.
    apply scan_pass_app; [apply scan_pass_sep|].
    apply scan_pass_app; [apply scan_pass_quote; exact Hk|].
    apply scan_pass_app; [apply scan_pass_neutral; reflexivity|].
    apply scan_pass_app; [apply Pv; exact Hv|].
    apply IHl. exact Hl.
Qed.

(** ** Post-processing of printed values *)

Lemma num_char_facts (c : ascii) :
  num_char c = true ->
  printable c = true /\ is_js_ws c = false /\ Ascii.eqb c c_comma = false /\
  Ascii.eqb c c_rbrack = false /\ Ascii.eqb c c_rbrace = false /\
  Ascii.eqb c c_colon = false /\ Ascii.eqb c c_quote = false.
Proof.
  destruct c as [[] [] [] [] [] [] [] []]; intro H; vm_compute in H;
    try discriminate H; vm_compute; repeat split.
Qed.

Lemma printable_print (v : json) : safe_json v = true -> str_all printable (print v) = true.
Proof.
  induction v as [| b | lx | raw | xs IH | ms IH] using json_ind2; intro Hs.
  - reflexivity.
  - destruct b; reflexivity.
  - simpl in Hs. apply andb_true_iff in Hs as [_ Hs].
    refine (str_all_impl num_char printable lx _ Hs). intros c Hc. apply (num_char_facts c Hc).
  - unfold print, quote. simpl. rewrite str_all_app. simpl.
    rewrite (str_all_impl plain_char printable raw); [reflexivity| |exact Hs].
    intros c Hc. apply (plain_eqbs c Hc).
  - rewrite print_arr. cbn [str_all]. rewrite str_all_app.
    enough (G : forall first, str_all printable (print_items first xs) = true)
      by (rewrite G; reflexivity).
    induction IH as [|x l Px Pl IHl]; intro first; [reflexivity|].
    rewrite safe_arr_cons in Hs. apply andb_true_iff in Hs as [Hx Hl].
    rewrite print_items_cons, !str_all_app, Px, IHl by assumption.
    destruct first; reflexivity.
  - rewrite print_obj. cbn [str_all]. rewrite str_all_app.
    enough (G : forall first, str_all printable (print_members first ms) = true)
      by (rewrite G; reflexivity).
    induction IH as [|[k v] l Pv Pl IHl]; intro first; [reflexivity|].
    rewrite safe_obj_cons in Hs. apply andb_true_iff in Hs as [Hkv Hl].
    apply andb_true_iff in Hkv as [Hk Hv].
    cbn [snd] in Pv.
    rewrite print_members_cons, !str_all_app, Pv, IHl by assumption.
    unfold quote. simpl. rewrite str_all_app. simpl.
    rewrite (str_all_impl plain_char printable k); [destruct first; reflexivity| |exact Hk].
    intros c Hc. apply (plain_eqbs c Hc).
Qed.

Lemma replace_char_id (c d : ascii) (s : string) :
  str_all printable s = true -> printable c = false -> replace_char c d s = s.
Proof.
  intros H Hc. induction s as [|x s IH]; [reflexivity|].
  simpl in H. apply andb_true_iff in H as [Hx H]. simpl.
  destruct (Ascii.eqb_spec c x) as [<-|_]; [congruence|]. rewrite IH by exact H. reflexivity.
Qed.

Lemma print_lead (v : json) :
  safe_json v = true ->
  exists c s, print v = String c s /\ is_js_ws c = false /\ Ascii.eqb c c_comma = false /\
    Ascii.eqb c c_rbrack = false /\ Ascii.eqb c c_rbrace = false /\
    Ascii.eqb c c_colon = false /\
    (Ascii.eqb c c_quote = false \/ exists raw, v = JStr raw).
Proof.
  intro Hs. destruct v as [| [] | lx | raw | xs | ms].
  - eexists _, _. split; [reflexivity|]. vm_compute. tauto.
  - eexists _, _. split; [reflexivity|]. vm_compute. tauto.
  - eexists _, _. split; [reflexivity|]. vm_compute. tauto.
  - simpl in Hs. apply andb_true_iff in Hs as [Hn Hs].
    destruct lx as [|c s]; [discriminate Hn|]. simpl in Hs. apply andb_true_iff in Hs as [Hc _].
    destruct (num_char_facts c Hc) as (_ & W & C & RK & RB & CL & Q).
    exists c, s. simpl. tauto.
  - eexists _, _. split; [reflexivity|]. vm_compute. split; [reflexivity|]. eauto 10.
  - eexists _, _. split; [reflexivity|]. vm_compute. tauto.
  - eexists _, _. split; [reflexivity|]. vm_compute. tauto.
Qed.

Lemma quote_app (k x : string) : quote k ++ x = String c_quote (k ++ String c_quote x).
Proof. unfold quote. simpl. rewrite str_app_assoc. reflexivity. Qed.

Lemma strip_pass_app (a b : string) : strip_pass a -> strip_pass b -> strip_pass (a ++ b).
Proof. intros Ha Hb r. rewrite !str_app_assoc, Ha, Hb. reflexivity. Qed.

Lemma strip_pass_nocomma (w : string) :
  str_all (fun c => negb (Ascii.eqb c c_comma)) w = true -> strip_pass w.
Proof.
  intros Hw r. induction w as [|c w IH]; [reflexivity|].
  simpl in Hw. apply andb_true_iff in Hw as [Hc Hw]. apply negb_true_iff in Hc.
  simpl. rewrite Hc, IH by exact Hw. reflexivity.
Qed.

Lemma strip_pass_cons (c : ascii) (s : string) :
  Ascii.eqb c c_comma = false -> strip_pass s -> strip_pass (String c s).
Proof. intros Hc Hs r. simpl. rewrite Hc, Hs. reflexivity. Qed.

Lemma strip_pass_comma_lead (c : ascii) (s : string) :
  is_js_ws c = false -> Ascii.eqb c c_comma = false -> Ascii.eqb c c_rbrack = false ->
  Ascii.eqb c c_rbrace = false -> strip_pass (String c s) ->
  strip_pass (String c_comma (String c s)).
Proof.
  intros W C RK RB Hs r. specialize (Hs r). simpl in *. rewrite W, RK, RB, C in *. simpl.
  injection Hs as Hs. rewrite Hs. reflexivity.
Qed.

Lemma strip_pass_sep_value (first : bool) (v : json) (rest : string) :
  safe_json v = true -> strip_pass (print v ++ rest) ->
  strip_pass ((if first then "" else ",") ++ print v ++ rest).
Proof.
  intros Hv H. destruct first; [exact H|].
  destruct (print_lead v Hv) as (c & s & E & W & C & RK & RB & _ & _).
  rewrite E in *. apply strip_pass_comma_lead; assumption.
Qed.

Lemma strip_print (v : json) : safe_json v = true -> strip_pass (print v).
Proof.
  induction v as [| b | lx | raw | xs IH | ms IH] using json_ind2; intro Hs.
  - apply strip_pass_nocomma. reflexivity.
  - apply strip_pass_nocomma. destruct b; reflexivity.
  - apply strip_pass_nocomma. simpl in Hs. apply andb_true_iff in Hs as [_ Hs].
    refine (str_all_impl num_char _ lx _ Hs). intros c Hc.
    destruct (num_char_facts c Hc) as (_ & _ & C & _). rewrite C. reflexivity.
  - apply strip_pass_nocomma. unfold print, quote. simpl. rewrite str_all_app. simpl.
    rewrite (str_all_impl plain_char (fun c => negb (Ascii.eqb c c_comma)) raw);
      [reflexivity| |exact Hs].
    intros c Hc. destruct (plain_eqbs c Hc) as (_ & _ & C & _). rewrite C. reflexivity.
  - rewrite print_arr. apply strip_pass_cons; [reflexivity|].
    apply strip_pass_app; [|apply strip_pass_nocomma; reflexivity].
    generalize true as first.
    induction IH as [|x l Px Pl IHl]; intro first; [intro r; reflexivity|].
    rewrite safe_arr_cons in Hs. apply andb_true_iff in Hs as [Hx Hl].
    rewrite print_items_cons. apply strip_pass_sep_value; [exact Hx|].
    apply strip_pass_app; [apply Px; exact Hx | apply IHl; exact Hl].
  - rewrite print_obj. apply strip_pass_cons; [reflexivity|].
    apply strip_pass_app; [|apply strip_pass_nocomma; reflexivity].
    generalize true as first.
    induction IH as [|[k v] l Pv Pl IHl]; intro first; [intro r; reflexivity|].
    rewrite safe_obj_cons in Hs. apply andb_true_iff in Hs as [Hkv Hl].
    apply andb_true_iff in Hkv as [Hk Hv]. cbn [snd] in Pv.
    rewrite print_members_cons. 
    assert (Q : strip_pass (quote k ++ ":")).
    { apply strip_pass_nocomma. unfold quote. simpl. rewrite !str_all_app. simpl.
      rewrite (str_all_impl plain_char (fun c => negb (Ascii.eqb c c_comma)) k);
        [reflexivity| |exact Hk].
      intros c Hc. destruct (plain_eqbs c Hc) as (_ & _ & C & _). rewrite C. reflexivity. }
    destruct first.
    + change (strip_pass (quote k ++ ":" ++ print v ++ print_members false l)).
      rewrite <- str_app_assoc. apply strip_pass_app; [exact Q|].
      apply strip_pass_app; [apply Pv; exact Hv | apply IHl; exact Hl].
    + change (strip_pass (String c_comma (quote k ++ ":" ++ print v ++ print_members false l))).
      rewrite quote_app. apply strip_pass_comma_lead; try reflexivity.
      rewrite <- quote_app, <- str_app_assoc. apply strip_pass_app; [exact Q|].
      apply strip_pass_app; [apply Pv; exact Hv | apply IHl; exact Hl].
Qed.

Lemma tq_pass_app (a b : string) : tq_pass a -> tq_pass b -> r_ok_pres b -> tq_pass (a ++ b).
Proof.
  intros Ha Hb Hp r Hr. rewrite !str_app_assoc, Ha by (apply Hp; exact Hr).
  rewrite Hb by exact Hr. reflexivity.
Qed.

Lemma r_ok_pres_cons (c : ascii) (s : string) :
  is_js_ws c = false -> Ascii.eqb c c_colon = false -> r_ok_pres (String c s).
Proof. intros W C r _. simpl. auto. Qed.

Lemma r_ok_pres_nil : r_ok_pres "".
Proof. intros r H. exact H. Qed.

Lemma tighten_noquote (w : string) :
  str_all (fun c => negb (Ascii.eqb c c_quote)) w = true ->
  forall r, tighten_colons_aux QNone (w ++ r) = w ++ tighten_colons_aux QNone r.
Proof.
  intros Hw r. induction w as [|c w IH]; [reflexivity|].
  simpl in Hw. apply andb_true_iff in Hw as [Hc Hw]. apply negb_true_iff in Hc.
  simpl. unfold q_restart. rewrite Hc, IH by exact Hw. reflexivity.
Qed.

Lemma tq_pass_noquote (w : string) :
  str_all (fun c => negb (Ascii.eqb c c_quote)) w = true -> tq_pass w.
Proof. intros Hw r _. apply tighten_noquote. exact Hw. Qed.

Lemma tq_pass_cons (c : ascii) (s : string) :
  Ascii.eqb c c_quote = false -> tq_pass s -> tq_pass (String c s).
Proof. intros Hc Hs r Hr. simpl. unfold q_restart. rewrite Hc, Hs by exact Hr. reflexivity. Qed.

Lemma plain_noquote (k : string) :
  str_all plain_char k = true -> str_all (fun c => negb (Ascii.eqb c c_quote)) k = true.
Proof.
  apply str_all_impl. intros c Hc. destruct (plain_eqbs c Hc) as (Q & _). rewrite Q. reflexivity.
Qed.

Lemma tighten_to_quote (w r : string) :
  str_all (fun c => negb (Ascii.eqb c c_quote)) w = true ->
  tighten_colons_aux QNone (w ++ String c_quote r) = w ++ tighten_colons_aux (QOpen "") r.
Proof. intro Hw. rewrite tighten_noquote by exact Hw. reflexivity. Qed.

Lemma tighten_open (k : string) :
  str_all plain_char k = true ->
  forall w s, tighten_colons_aux (QOpen w) (k ++ String c_quote s)
              = String c_quote (w ++ k ++ tighten_colons_aux (QOpen "") s).
Proof.
  induction k as [|c k IH]; intros Hk w s.
  - simpl. reflexivity.
  - simpl in Hk. apply andb_true_iff in Hk as [Hc Hk].
    destruct (plain_eqbs c Hc) as (Q & _ & _ & CL & _).
    simpl. destruct (is_js_ws c).
    + rewrite IH by exact Hk. rewrite str_app_assoc. reflexivity.
    + rewrite CL. unfold q_restart. rewrite Q.
      rewrite tighten_to_quote by (apply plain_noquote; exact Hk). reflexivity.
Qed.

Lemma tighten_open_end (r : string) :
  r_ok r -> tighten_colons_aux (QOpen "") r = String c_quote (tighten_colons_aux QNone r).
Proof.
  destruct r as [|c r]; [reflexivity|]. intros [W C]. simpl. rewrite W, C. reflexivity.
Qed.

Lemma tq_pass_quote (raw : string) : str_all plain_char raw = true -> tq_pass (quote raw).
Proof.
  intros Hr r Ho. rewrite quote_app. simpl. unfold q_restart. simpl.
  rewrite tighten_open by exact Hr. rewrite tighten_open_end by exact Ho.
  rewrite str_app_assoc. reflexivity.
Qed.

Lemma r_ok_pres_print (v : json) : safe_json v = true -> r_ok_pres (print v).
Proof.
  intro Hv. destruct (print_lead v Hv) as (c & s & E & W & _ & _ & _ & CL & _).
  rewrite E. apply r_ok_pres_cons; assumption.
Qed.

Lemma r_ok_pres_items (l : list json) : r_ok_pres (print_items false l).
Proof. destruct l as [|x l]; [apply r_ok_pres_nil | apply r_ok_pres_cons; reflexivity]. Qed.

Lemma r_ok_pres_members (l : list (string * json)) : r_ok_pres (print_members false l).
Proof.
  destruct l as [|[k v] l]; [apply r_ok_pres_nil | apply r_ok_pres_cons; reflexivity].
Qed.

Lemma tq_pass_sep (first : bool) : tq_pass (if first then "" else ",").
Proof. apply tq_pass_noquote. destruct first; reflexivity. Qed.

Lemma tighten_colon_value (v : json) :
  safe_json v = true -> tq_pass (print v) -> forall r, r_ok r ->
  tighten_colons_aux (QColon ":") (print v ++ r)
  = String c_quote (String c_colon (print v ++ tighten_colons_aux QNone r)).
Proof.
  intros Hv Pv r Hr.
  destruct (print_lead v Hv) as (c & s & E & W & _ & _ & _ & _ & [Q | [raw ->]]).
  - specialize (Pv r Hr). rewrite E in *. simpl in Pv |- *. rewrite W, Q.
    unfold q_restart in Pv |- *. rewrite Q in Pv |- *. rewrite Pv. reflexivity.
  - assert (Hraw : str_all plain_char raw = true) by exact Hv.
    change (print (JStr raw)) with (quote raw). rewrite quote_app. simpl.
    rewrite tighten_to_quote by (apply plain_noquote; exact Hraw).
    rewrite tighten_open_end by exact Hr. simpl. rewrite str_app_assoc. reflexivity.
Qed.

Lemma tq_pass_member (k : string) (v : json) :
  str_all plain_char k = true -> safe_json v = true -> tq_pass (print v) ->
  tq_pass (quote k ++ ":" ++ print v).
Proof.
  intros Hk Hv Pv r Hr. rewrite !str_app_assoc, quote_app. simpl. unfold q_restart. simpl.
  rewrite tighten_open by exact Hk. simpl.
  rewrite tighten_colon_value by assumption.
  simpl. rewrite !str_app_assoc. reflexivity.
Qed.

Lemma tq_print (v : json) : safe_json v = true -> tq_pass (print v).
Proof.
  induction v as [| b | lx | raw | xs IH | ms IH] using json_ind2; intro Hs.
  - apply tq_pass_noquote. reflexivity.
  - apply tq_pass_noquote. destruct b; reflexivity.
  - apply tq_pass_noquote. simpl in Hs. apply andb_true_iff in Hs as [_ Hs].
    refine (str_all_impl num_char _ lx _ Hs). intros c Hc.
    destruct (num_char_facts c Hc) as (_ & _ & _ & _ & _ & _ & Q). rewrite Q. reflexivity.
  - apply tq_pass_quote. exact Hs.
  - rewrite print_arr. apply tq_pass_cons; [reflexivity|].
    apply tq_pass_app; [| apply tq_pass_noquote; reflexivity | apply r_ok_pres_cons; reflexivity].
    generalize true as first.
    induction IH as [|x l Px Pl IHl]; intro first; [intros r _; reflexivity|].
    rewrite safe_arr_cons in Hs. apply andb_true_iff in Hs as [Hx Hl].
    rewrite print_items_cons.
    destruct first.
    + change (tq_pass (print x ++ print_items false l)).
      apply tq_pass_app; [apply Px; exact Hx | apply IHl; exact Hl | apply r_ok_pres_items].
    + change (tq_pass (String c_comma (print x ++ print_items false l))).
      apply tq_pass_cons; [reflexivity|].
      apply tq_pass_app; [apply Px; exact Hx | apply IHl; exact Hl | apply r_ok_pres_items].
  - rewrite print_obj. apply tq_pass_cons; [reflexivity|].
    apply tq_pass_app; [| apply tq_pass_noquote; reflexivity | apply r_ok_pres_cons; reflexivity].
    generalize true as first.
    induction IH as [|[k v] l Pv Pl IHl]; intro first; [intros r _; reflexivity|].
    rewrite safe_obj_cons in Hs. apply andb_true_iff in Hs as [Hkv Hl].
    apply andb_true_iff in Hkv as [Hk Hv]. cbn [snd] in Pv.
    rewrite print_members_cons.
    assert (M : tq_pass ((quote k ++ ":" ++ print v) ++ print_members false l)).
    { apply tq_pass_app; [apply tq_pass_member; [exact Hk | exact Hv | apply Pv; exact Hv]
                        | apply IHl; exact Hl | apply r_ok_pres_members]. }
    rewrite !str_app_assoc in M.
    destruct first.
    + exact M.
    + change (tq_pass (String c_comma (quote k ++ ":" ++ print v ++ print_members false l))).
      apply tq_pass_cons; [reflexivity | exact M].
Qed.

Lemma scan_items (xs : list json) (first : bool) :
  safe_json (JArr xs) = true -> scan_pass (print_items first xs).
Proof.
  revert first. induction xs as [|x l IH]; intros first Hs; [exact scan_pass_nil|].
  rewrite safe_arr_cons in Hs. apply andb_true_iff in Hs as [Hx Hl].
  rewrite print_items_cons. apply scan_pass_app; [apply scan_pass_sep|].
  apply scan_pass_app; [apply scan_print; exact Hx | apply IH; exact Hl].
Qed.

Lemma scan_members (ms : list (string * json)) (first : bool) :
  safe_json (JObj ms) = true -> scan_pass (print_members first ms).
Proof.
  revert first. induction ms as [|[k v] l IH]; intros first Hs; [exact scan_pass_nil|].
  rewrite safe_obj_cons in Hs. apply andb_true_iff in Hs as [Hkv Hl].
  apply andb_true_iff in Hkv as [Hk Hv].
  rewrite print_members_cons.
  apply scan_pass_app; [apply scan_pass_sep|].
  apply scan_pass_app; [apply scan_pass_quote; exact Hk|].
  apply scan_pass_app; [apply scan_pass_neutral; reflexivity|].
  apply scan_pass_app; [apply scan_print; exact Hv | apply IH; exact Hl].
Qed.

Lemma post_process_print (v : json) : safe_json v = true -> post_process (print v) = print v.
Proof.
  intro Hs. unfold post_process, tighten_colons, strip_comma_closer.
  rewrite (replace_char_id c_lf), (replace_char_id c_cr);
    [| apply printable_print; exact Hs | reflexivity | apply printable_print; exact Hs | reflexivity].
  pose proof (strip_print v Hs "") as E.
  change (strip_comma_closer_aux None "") with "" in E. rewrite !str_app_nil_r in E.
  rewrite E.
  pose proof (tq_print v Hs "" I) as T.
  change (tighten_colons_aux QNone "") with "" in T. rewrite !str_app_nil_r in T.
  exact T.
Qed.

Lemma container_shape (j : json) :
  is_container j = true -> safe_json j = true ->
  exists c0 mid c1, print j = String c0 (mid ++ String c1 "") /\ scan_pass mid /\
    ((c0 = c_lbrack /\ c1 = c_rbrack) \/ (c0 = c_lbrace /\ c1 = c_rbrace)).
Proof.
  intros Hc Hs. destruct j as [| | | | xs | ms]; try discriminate Hc.
  - exists c_lbrack, (print_items true xs), c_rbrack. rewrite print_arr.
    split; [reflexivity|]. split; [apply scan_items; exact Hs | left; split; reflexivity].
  - exists c_lbrace, (print_members true ms), c_rbrace. rewrite print_obj.
    split; [reflexivity|]. split; [apply scan_members; exact Hs | right; split; reflexivity].
Qed.

Lemma trim_start_lead (c : ascii) (r : string) :
  is_js_ws c = false -> trim_start (String c r) = String c r.
Proof. intro W. simpl. rewrite W. reflexivity. Qed.

Lemma strip_fence_open_lead (c : ascii) (r : string) :
  c <> "`"%char -> strip_fence_open (String c r) = String c r.
Proof.
  intro Hc. unfold strip_fence_open. cbn [String.prefix].
  destruct (ascii_dec "`" c) as [E|_]; [congruence | reflexivity].
Qed.

Lemma strip_fence_close_last (s : string) (c : ascii) :
  c <> "`"%char -> strip_fence_close (s ++ String c "") = s ++ String c "".
Proof.
  intro Hc. unfold strip_fence_close.
  destruct (ends_with "```" (s ++ String c "")) eqn:E; [|reflexivity].
  change "```" with ("``" ++ String "`" "") in E. apply ends_with_last in E. congruence.
Qed.

Lemma unfence_trim_wrapped (c0 c1 : ascii) (mid : string) :
  is_js_ws c0 = false -> is_js_ws c1 = false -> c0 <> "`"%char -> c1 <> "`"%char ->
  unfence (trim (String c0 (mid ++ String c1 ""))) = String c0 (mid ++ String c1 "").
Proof.
  intros W0 W1 B0 B1.
  assert (Tr : trim (String c0 (mid ++ String c1 "")) = String c0 (mid ++ String c1 "")).
  { unfold trim. rewrite trim_start_lead by exact W0.
    change (String c0 (mid ++ String c1 "")) with (String c0 mid ++ String c1 "").
    apply trim_end_last. exact W1. }
  unfold unfence. rewrite Tr, strip_fence_open_lead by exact B0.
  change (String c0 (mid ++ String c1 "")) with (String c0 mid ++ String c1 "").
  rewrite strip_fence_close_last by exact B1. exact Tr.
Qed.

Lemma recover_identity (j : json) :
  is_container j = true -> safe_json j = true -> recoverJson (print j) = print j.
Proof.
  intros Hc Hs. rewrite recoverJson_root.
  destruct (container_shape j Hc Hs) as (c0 & mid & c1 & E & Hm & Hcc).
  rewrite E.
  assert (U : is_js_ws c0 = false /\ is_js_ws c1 = false /\ c0 <> "`"%char /\ c1 <> "`"%char /\
              first_root_pos (String c0 (mid ++ String c1 "")) = Some 0 /\
              forall last, scan 0 (mkScan 0 0 false false last) (String c0 (mid ++ String c1 ""))
              = (mkScan 0 0 false false (Z.of_nat (S (0 + String.length mid))),
                 Finished (S (0 + String.length mid)))).
  { destruct Hcc as [[-> ->] | [-> ->]]; (split; [reflexivity|]); (split; [reflexivity|]);
      (split; [discriminate|]); (split; [discriminate|]); (split; [reflexivity|]); intro last.
    - exact (scan_arr_wrap mid Hm 0 0 last 0 ltac:(lia) ltac:(lia)).
    - exact (scan_obj_wrap mid Hm 0 0 last 0 ltac:(lia) ltac:(lia)). }
  destruct U as (W0 & W1 & B0 & B1 & F & Sc).
  rewrite unfence_trim_wrapped by assumption. rewrite F.
  change (str_drop 0 ?x) with x.
  unfold recover_from_root, scan_init. rewrite Sc.
  cbv beta iota zeta.
  rewrite str_take_all by (simpl; rewrite str_length_app; simpl; lia).
  cbn [negb andb]. rewrite <- E. apply post_process_print. exact Hs.
Qed.


(** ** Recovery of arbitrary JSON texts *)

Lemma number_steps_eq (s : string) : number s = number_steps s.
Proof. reflexivity. Qed.

Lemma delim_char_facts (c : ascii) :
  delim_char c = true ->
  is_digit c = false /\ Ascii.eqb "-"%char c = false /\ Ascii.eqb c "0"%char = false /\
  Ascii.eqb c "."%char = false /\ Ascii.eqb c "e"%char = false /\ Ascii.eqb c "E"%char = false /\
  Ascii.eqb c "+"%char = false /\ Ascii.eqb c "-"%char = false.
Proof.
  destruct c as [[] [] [] [] [] [] [] []]; intro H; vm_compute in H;
    try discriminate H; vm_compute; repeat split.
Qed.

Lemma int_part_cons (c : ascii) (r : string) :
  int_part_of (String c r) =
  if Ascii.eqb c "0"%char then Some ("0", r)
  else let '(d, r') := digits (String c r) in
       if String.eqb d "" then None else Some (d, r').
Proof. destruct c as [[] [] [] [] [] [] [] []]; reflexivity. Qed.

Lemma frac_cons (c : ascii) (r : string) :
  frac_of (String c r) =
  if Ascii.eqb c "."%char then
    (let '(d, r') := digits r in if String.eqb d "" then None else Some ("." ++ d, r'))
  else Some (EmptyString, String c r).
Proof. destruct c as [[] [] [] [] [] [] [] []]; reflexivity. Qed.

Lemma digits_app (u t : string) :
  delim t -> digits (u ++ t) = (fst (digits u), snd (digits u) ++ t).
Proof.
  intro Ht. induction u as [|c u IH]; simpl.
  - destruct t as [|d t]; [reflexivity|]. simpl in Ht.
    destruct (delim_char_facts d Ht) as [D _]. simpl. rewrite D. reflexivity.
  - destruct (is_digit c); [|reflexivity]. rewrite IH.
    destruct (digits u) as [d r]. reflexivity.
Qed.

Lemma opt_char_app (u t : string) :
  delim t -> opt_char "-"%char (u ++ t) = (fst (opt_char "-"%char u), snd (opt_char "-"%char u) ++ t).
Proof.
  intro Ht. destruct u as [|c u].
  - destruct t as [|d t]; [reflexivity|]. simpl in Ht.
    destruct (delim_char_facts d Ht) as (_ & M & _). unfold opt_char. change ("" ++ String d t) with (String d t). cbv beta iota. rewrite M. reflexivity.
  - change (String c u ++ t) with (String c (u ++ t)).
    unfold opt_char. destruct (Ascii.eqb "-"%char c); reflexivity.
Qed.

Lemma int_part_app (u t : string) : delim t -> int_part_of (u ++ t) = shift t (int_part_of u).
Proof.
  intro Ht. destruct u as [|c u].
  - destruct t as [|d t]; [reflexivity|]. simpl in Ht.
    destruct (delim_char_facts d Ht) as (D & _ & Z0 & _).
    change ("" ++ String d t) with (String d t).
    rewrite int_part_cons, Z0. cbn [digits]. rewrite D. reflexivity.
  - change (String c u ++ t) with (String c (u ++ t)).
    rewrite !int_part_cons. destruct (Ascii.eqb c "0"%char); [reflexivity|].
    change (String c (u ++ t)) with (String c u ++ t). rewrite digits_app by exact Ht.
    destruct (digits (String c u)) as [d r]. simpl. destruct (String.eqb d ""); reflexivity.
Qed.

Lemma frac_app (u t : string) : delim t -> frac_of (u ++ t) = shift t (frac_of u).
Proof.
  intro Ht. destruct u as [|c u].
  - destruct t as [|d t]; [reflexivity|]. simpl in Ht.
    destruct (delim_char_facts d Ht) as (_ & _ & _ & P & _).
    change ("" ++ String d t) with (String d t). rewrite frac_cons, P. reflexivity.
  - change (String c u ++ t) with (String c (u ++ t)).
    rewrite !frac_cons. destruct (Ascii.eqb c "."%char); [|reflexivity].
    rewrite digits_app by exact Ht.
    destruct (digits u) as [d r]. simpl. destruct (String.eqb d ""); reflexivity.
Qed.

Lemma expo_app (u t : string) : delim t -> expo_of (u ++ t) = shift t (expo_of u).
Proof.
  intro Ht. destruct u as [|e u].
  - destruct t as [|d t]; [reflexivity|]. simpl in Ht.
    destruct (delim_char_facts d Ht) as (_ & _ & _ & _ & E1 & E2 & _).
    change ("" ++ String d t) with (String d t). cbn [expo_of]. rewrite E1, E2. reflexivity.
  - simpl. destruct (Ascii.eqb e "e"%char || Ascii.eqb e "E"%char); [|reflexivity].
    destruct u as [|p u].
    + destruct t as [|d t]; [reflexivity|]. simpl in Ht.
      destruct (delim_char_facts d Ht) as (D & _ & _ & _ & _ & _ & P1 & P2).
      simpl. rewrite P1, P2. simpl. rewrite D. reflexivity.
    + simpl. destruct (Ascii.eqb p "+"%char || Ascii.eqb p "-"%char).
      * rewrite digits_app by exact Ht. destruct (digits u) as [d r]. simpl.
        destruct (String.eqb d ""); reflexivity.
      * change (String p (u ++ t)) with (String p u ++ t). rewrite digits_app by exact Ht.
        destruct (digits (String p u)) as [d r]. simpl. destruct (String.eqb d ""); reflexivity.
Qed.

Lemma number_app (u t : string) : delim t -> number (u ++ t) = shift t (number u).
Proof.
  intro Ht. rewrite (number_steps_eq (u ++ t)), (number_steps_eq u). unfold number_steps.
  rewrite opt_char_app by exact Ht. destruct (opt_char "-"%char u) as [sign s1]. simpl.
  rewrite int_part_app by exact Ht. destruct (int_part_of s1) as [[ip s2]|]; [|reflexivity].
  simpl. rewrite frac_app by exact Ht. destruct (frac_of s2) as [[fp s3]|]; [|reflexivity].
  simpl. rewrite expo_app by exact Ht. destruct (expo_of s3) as [[ep s4]|]; reflexivity.
Qed.

Lemma digits_facts (s d r : string) :
  digits s = (d, r) -> s = d ++ r /\ str_all is_digit d = true.
Proof.
  revert d r. induction s as [|c s IH]; intros d r H; simpl in H.
  - injection H as <- <-. split; reflexivity.
  - destruct (is_digit c) eqn:D.
    + destruct (digits s) as [d' r'] eqn:E. injection H as <- <-.
      destruct (IH d' r' eq_refl) as [-> A]. simpl. rewrite D, A. split; reflexivity.
    + injection H as <- <-. split; reflexivity.
Qed.

Lemma opt_char_facts (s a b : string) :
  opt_char "-"%char s = (a, b) -> s = a ++ b /\ (a = "" \/ a = "-").
Proof.
  unfold opt_char. destruct s as [|c s].
  - intro H. injection H as <- <-. auto.
  - destruct (Ascii.eqb_spec "-"%char c) as [<-|_]; intro H; injection H as <- <-; auto.
Qed.

Lemma int_part_facts (s a b : string) :
  int_part_of s = Some (a, b) -> s = a ++ b /\ str_all is_digit a = true /\ a <> "".
Proof.
  destruct s as [|c s]; [discriminate|]. rewrite int_part_cons.
  destruct (Ascii.eqb_spec c "0"%char) as [->|_].
  - intro H. injection H as <- <-. split; [reflexivity|]. split; [reflexivity | discriminate].
  - destruct (digits (String c s)) as [d r] eqn:E.
    destruct (String.eqb_spec d "") as [_|N]; [discriminate|].
    intro H. injection H as <- <-. destruct (digits_facts _ _ _ E). auto.
Qed.

Lemma digits_num (d : string) : str_all is_digit d = true -> str_all num_char d = true.
Proof.
  apply str_all_impl. intros c H. unfold num_char. rewrite H. reflexivity.
Qed.

Lemma frac_facts (s a b : string) :
  frac_of s = Some (a, b) -> s = a ++ b /\ str_all num_char a = true.
Proof.
  destruct s as [|c s].
  - intro H. injection H as <- <-. split; reflexivity.
  - rewrite frac_cons. destruct (Ascii.eqb_spec c "."%char) as [->|_].
    + destruct (digits s) as [d r] eqn:E. destruct (String.eqb d ""); [discriminate|].
      intro H. injection H as <- <-. destruct (digits_facts _ _ _ E) as [-> D].
      split; [reflexivity|]. simpl. apply digits_num. exact D.
    + intro H. injection H as <- <-. split; reflexivity.
Qed.

Lemma expo_facts (s a b : string) :
  expo_of s = Some (a, b) -> s = a ++ b /\ str_all num_char a = true.
Proof.
  destruct s as [|e s]; simpl.
  - intro H. injection H as <- <-. split; reflexivity.
  - destruct (Ascii.eqb e "e"%char || Ascii.eqb e "E"%char) eqn:EE.
    2: { intro H. injection H as <- <-. split; reflexivity. }
    assert (Ne : num_char e = true).
    { unfold num_char. apply orb_true_iff in EE as [EE|EE]; rewrite EE; rewrite ?orb_true_r; reflexivity. }
    destruct s as [|p s].
    + simpl. discriminate.
    + destruct (Ascii.eqb p "+"%char || Ascii.eqb p "-"%char) eqn:PP.
      * destruct (digits s) as [d r] eqn:E. destruct (String.eqb d ""); [discriminate|].
        intro H. injection H as <- <-. destruct (digits_facts _ _ _ E) as [-> D].
        split; [reflexivity|]. simpl. rewrite Ne. simpl.
        assert (Np : num_char p = true).
        { unfold num_char. apply orb_true_iff in PP as [PP|PP]; rewrite PP; rewrite ?orb_true_r; reflexivity. }
        rewrite Np. apply digits_num. exact D.
      * destruct (digits (String p s)) as [d r] eqn:E. destruct (String.eqb d ""); [discriminate|].
        intro H. injection H as <- <-. destruct (digits_facts _ _ _ E) as [E' D].
        rewrite E'. split; [reflexivity|]. simpl. rewrite Ne. apply digits_num. exact D.
Qed.

Lemma number_facts (s lx t : string) :
  number s = Some (lx, t) ->
  s = lx ++ t /\ str_all num_char lx = true /\
  exists c r, lx = String c r /\ (Ascii.eqb c "-"%char || is_digit c) = true.
Proof.
  rewrite number_steps_eq. unfold number_steps.
  destruct (opt_char "-"%char s) as [sign s1] eqn:E1.
  destruct (int_part_of s1) as [[ip s2]|] eqn:E2; [|discriminate].
  destruct (frac_of s2) as [[fp s3]|] eqn:E3; [|discriminate].
  destruct (expo_of s3) as [[ep s4]|] eqn:E4; [|discriminate].
  intro H. injection H as <- <-.
  destruct (opt_char_facts _ _ _ E1) as [-> Hs].
  destruct (int_part_facts _ _ _ E2) as (-> & Di & Ne).
  destruct (frac_facts _ _ _ E3) as [-> Nf].
  destruct (expo_facts _ _ _ E4) as [-> Ne4].
  split; [rewrite !str_app_assoc; reflexivity|].
  split.
  - rewrite !str_all_app, Nf, Ne4, (digits_num ip Di).
    destruct Hs as [->| ->]; reflexivity.
  - destruct Hs as [->| ->].
    + destruct ip as [|c r]; [congruence|]. exists c, (r ++ fp ++ ep). split; [reflexivity|].
      simpl in Di. apply andb_true_iff in Di as [Dc _]. rewrite Dc, orb_true_r. reflexivity.
    + eexists _, _. split; reflexivity.
Qed.

Lemma shift_inv (t lx : string) (o : option (string * string)) :
  shift t o = Some (lx, t) -> o = Some (lx, "").
Proof.
  destruct o as [[a b]|]; simpl; [|discriminate]. intro H. injection H as -> E.
  destruct b as [|x b]; [reflexivity|].
  apply (f_equal String.length) in E. rewrite str_length_app in E. simpl in E. lia.
Qed.

Ltac str_norm := repeat (progress (rewrite ?str_app_assoc; cbn [append])).
Ltac str_eq := str_norm; reflexivity.

Lemma body_string_body (raw : string) :
  body raw -> forall t, string_body (raw ++ String c_quote t) = Some (raw, t).
Proof.
  induction 1 as [| c r Q B L _ IH | e r E _ IH | h1 h2 h3 h4 r Hx _ IH]; intro t.
  - reflexivity.
  - cbn [append string_body]. rewrite Q, B, L, IH. reflexivity.
  - cbn [append string_body]. change (Ascii.eqb c_bslash c_quote) with false.
    change (Ascii.eqb c_bslash c_bslash) with true. cbv iota. rewrite E, IH. reflexivity.
  - cbn [append string_body]. change (Ascii.eqb c_bslash c_quote) with false.
    change (Ascii.eqb c_bslash c_bslash) with true. cbv iota.
    change (is_simple_escape "u"%char) with false. change (Ascii.eqb "u"%char "u"%char) with true.
    cbv iota. rewrite Hx, IH. reflexivity.
Qed.

Lemma string_body_sound (s b t : string) :
  string_body s = Some (b, t) -> s = b ++ String c_quote t /\ body b.
Proof.
  remember (String.length s) as n eqn:Hn. revert s b t Hn.
  induction n as [n IH] using lt_wf_ind. intros s b t Hn H.
  destruct s as [|c r]; [discriminate|]. cbn [string_body] in H.
  destruct (Ascii.eqb c c_quote) eqn:Q.
  { apply Ascii.eqb_eq in Q. subst c. injection H as <- <-. split; [reflexivity | constructor]. }
  destruct (Ascii.eqb c c_bslash) eqn:B.
  { apply Ascii.eqb_eq in B. subst c.
    destruct r as [|e r']; [discriminate|].
    destruct (is_simple_escape e) eqn:E.
    - destruct (string_body r') as [[b' t']|] eqn:R; [|discriminate].
      injection H as <- <-.
      destruct (IH (String.length r') ltac:(simpl in Hn; lia) r' b' t' eq_refl R) as [-> Hb].
      split; [reflexivity | constructor; assumption].
    - destruct (Ascii.eqb e "u"%char) eqn:U; [|discriminate]. apply Ascii.eqb_eq in U. subst e.
      destruct r' as [|h1 [|h2 [|h3 [|h4 r'']]]]; try discriminate.
      destruct (is_hex h1 && is_hex h2 && is_hex h3 && is_hex h4) eqn:Hx; [|discriminate].
      destruct (string_body r'') as [[b' t']|] eqn:R; [|discriminate].
      injection H as <- <-.
      destruct (IH (String.length r'') ltac:(simpl in Hn; lia) r'' b' t' eq_refl R) as [-> Hb].
      split; [reflexivity | constructor; assumption]. }
  destruct (code c <? 32)%nat eqn:L; [discriminate|].
  destruct (string_body r) as [[b' t']|] eqn:R; [|discriminate].
  injection H as <- <-.
  destruct (IH (String.length r) ltac:(simpl in Hn; lia) r b' t' eq_refl R) as [-> Hb].
  split; [reflexivity | constructor; assumption].
Qed.

Lemma json_ws_app (a b : string) : json_ws a -> json_ws b -> json_ws (a ++ b).
Proof. unfold json_ws. rewrite str_all_app. intros -> ->. reflexivity. Qed.

Lemma skip_ws_app (w s : string) : json_ws w -> skip_json_ws (w ++ s) = skip_json_ws s.
Proof.
  unfold json_ws. induction w as [|c w IH]; [reflexivity|].
  simpl. intro H. apply andb_true_iff in H as [Hc Hw]. rewrite Hc. apply IH, Hw.
Qed.

Lemma skip_ws_stop (s : string) : ws_free_head s -> skip_json_ws s = s.
Proof. destruct s as [|c r]; [reflexivity|]. simpl. intros ->. reflexivity. Qed.

Lemma skip_ws_split (s : string) :
  exists w, s = w ++ skip_json_ws s /\ json_ws w /\ ws_free_head (skip_json_ws s).
Proof.
  induction s as [|c r IH].
  - exists "". repeat split.
  - simpl. destruct (is_json_ws c) eqn:W.
    + destruct IH as (w & E & Hw & Hh). exists (String c w). simpl. rewrite <- E.
      unfold json_ws in *. simpl. rewrite W, Hw. repeat split; assumption.
    + exists "". simpl. repeat split. exact W.
Qed.

Lemma json_js_ws (c : ascii) : is_json_ws c = true -> is_js_ws c = true.
Proof.
  unfold is_json_ws, is_js_ws. intro H. rewrite !orb_true_iff in *. tauto.
Qed.

Lemma prefix_app_drop (p s : string) : String.prefix p s = true -> s = p ++ str_drop (String.length p) s.
Proof.
  revert s. induction p as [|c p IH]; intros s H.
  - reflexivity.
  - destruct s as [|d s]; [discriminate|]. simpl in H.
    destruct (ascii_dec c d) as [<-|_]; [|discriminate]. simpl. f_equal. apply IH, H.
Qed.

Lemma prefix_lit_app (p t : string) : String.prefix p (p ++ t) = true.
Proof.
  induction p as [|c p IH]; [destruct t; reflexivity|]. simpl. destruct (ascii_dec c c); [exact IH | congruence].
Qed.

Lemma str_drop_lit (p t : string) : str_drop (String.length p) (p ++ t) = t.
Proof. induction p as [|c p IH]; [reflexivity | exact IH]. Qed.

Lemma prefix_head_ne (c d : ascii) (p s : string) :
  c <> d -> String.prefix (String d p) (String c s) = false.
Proof. intro N. simpl. destruct (ascii_dec d c) as [E|_]; [congruence | reflexivity]. Qed.

Lemma num_lead_facts (c : ascii) :
  (Ascii.eqb c "-"%char || is_digit c) = true ->
  value_lead c /\ Ascii.eqb c c_quote = false /\ Ascii.eqb c c_lbrace = false /\
  Ascii.eqb c c_lbrack = false /\ c <> "t"%char /\ c <> "f"%char /\ c <> "n"%char /\
  printable c = true.
Proof.
  unfold value_lead.
  destruct c as [[] [] [] [] [] [] [] []]; intro H; vm_compute in H;
    try discriminate H; vm_compute; repeat split; discriminate.
Qed.

Lemma vtext_lead (x : string) (v : json) :
  vtext x v ->
  exists c r, x = String c r /\ value_lead c /\
    (Ascii.eqb c c_quote = false \/ exists raw, v = JStr raw /\ x = quote raw /\ body raw).
Proof.
  intro H. unfold value_lead. destruct H.
  - eexists _, _. split; [reflexivity|]. vm_compute. tauto.
  - eexists _, _. split; [reflexivity|]. vm_compute. tauto.
  - eexists _, _. split; [reflexivity|]. vm_compute. tauto.
  - destruct (number_facts _ _ _ H) as (_ & _ & c & r & -> & Hc).
    destruct (num_lead_facts c Hc) as (L & Q & _). exists c, r. split; [reflexivity|].
    split; [exact L | left; exact Q].
  - eexists _, _. split; [reflexivity|]. split; [vm_compute; tauto|]. right. eauto.
  - eexists _, _. split; [reflexivity|]. vm_compute. tauto.
  - eexists _, _. split; [reflexivity|]. vm_compute. tauto.
  - eexists _, _. split; [reflexivity|]. vm_compute. tauto.
  - eexists _, _. split; [reflexivity|]. vm_compute. tauto.
Qed.

Lemma more_items_lead (m : string) (vs : list json) :
  more_items m vs -> m = "" \/ exists r, m = String c_comma r.
Proof. destruct 1; eauto. Qed.

Lemma more_members_lead (m : string) (ms : list (string * json)) :
  more_members m ms -> m = "" \/ exists r, m = String c_comma r.
Proof. destruct 1; eauto. Qed.

Lemma delim_before (w m : string) (c : ascii) (t : string) :
  json_ws w -> (m = "" \/ exists r, m = String c_comma r) -> delim_char c = true ->
  delim (w ++ m ++ String c t).
Proof.
  intros Hw Hm Hc. destruct w as [|d w].
  - destruct Hm as [->|[r ->]]; [exact Hc | reflexivity].
  - unfold json_ws in Hw. simpl in Hw. apply andb_true_iff in Hw as [Hd _].
    simpl. unfold delim_char. rewrite Hd. reflexivity.
Qed.

Lemma skip_before (w m : string) (c : ascii) (t : string) :
  json_ws w -> (m = "" \/ exists r, m = String c_comma r) -> is_json_ws c = false ->
  skip_json_ws (w ++ m ++ String c t) = m ++ String c t.
Proof.
  intros Hw Hm Hc. rewrite skip_ws_app by exact Hw. apply skip_ws_stop.
  destruct Hm as [->|[r ->]]; [exact Hc | reflexivity].
Qed.

Lemma skip_value (w x t : string) (v : json) :
  json_ws w -> vtext x v -> skip_json_ws (w ++ x ++ t) = x ++ t.
Proof.
  intros Hw Hx. rewrite skip_ws_app by exact Hw. apply skip_ws_stop.
  destruct (vtext_lead x v Hx) as (c & r & -> & L & _). apply L.
Qed.

Lemma lit_delim_rbrack : delim_char c_rbrack = true. Proof. reflexivity. Qed.
Lemma lit_delim_rbrace : delim_char c_rbrace = true. Proof. reflexivity. Qed.
Lemma lit_ws_rbrack : is_json_ws c_rbrack = false. Proof. reflexivity. Qed.
Lemma lit_ws_rbrace : is_json_ws c_rbrace = false. Proof. reflexivity. Qed.

Lemma parser_sound (n : nat) : sound_at n.
Proof.
  induction n as [|n IH].
  { repeat split; intros; discriminate. }
  destruct IH as (S1 & S2 & S3 & S4 & S5 & S6).
  repeat split.
  - (* value *)
    intros s v t H. destruct s as [|c r]; [discriminate|]. cbn [parse_value parse_items parse_more_items parse_members parse_more_members parse_member] in H.
    destruct (Ascii.eqb c c_lbrace) eqn:E1.
    { apply Ascii.eqb_eq in E1. subst c.
      destruct (parse_members n (skip_json_ws r)) as [ms t'| |] eqn:E; try discriminate H.
      injection H as <- <-. destruct (skip_ws_split r) as (w & Ew & Hw & _).
      destruct (S4 _ _ _ E) as [[-> Er]|(k & w1 & w2 & x & v & w3 & m & ms' & -> & Er & Hk & H1 & H2 & Hx & H3 & Hm)];
        rewrite Er in Ew; rewrite Ew.
      - exists (String c_lbrace (w ++ "}")). split; [str_eq|]. intros _. constructor. exact Hw.
      - exists (String c_lbrace (w ++ quote k ++ w1 ++ ":" ++ w2 ++ x ++ w3 ++ m ++ "}")).
        split; [str_eq|]. intros _. constructor; assumption. }
    destruct (Ascii.eqb c c_lbrack) eqn:E2.
    { apply Ascii.eqb_eq in E2. subst c.
      destruct (parse_items n (skip_json_ws r)) as [xs t'| |] eqn:E; try discriminate H.
      injection H as <- <-. destruct (skip_ws_split r) as (w & Ew & Hw & _).
      destruct (S2 _ _ _ E) as [[-> Er]|(x & v & w' & m & vs & -> & Er & Hx & H1 & Hm)];
        rewrite Er in Ew; rewrite Ew.
      - exists (String c_lbrack (w ++ "]")). split; [str_eq|]. intros _. constructor. exact Hw.
      - exists (String c_lbrack (w ++ x ++ w' ++ m ++ "]")).
        split; [str_eq|]. intros _. constructor; assumption. }
    destruct (Ascii.eqb c c_quote) eqn:E3.
    { apply Ascii.eqb_eq in E3. subst c.
      destruct (string_body r) as [[b t']|] eqn:E; [|discriminate H].
      injection H as <- <-. destruct (string_body_sound _ _ _ E) as [-> Hb].
      exists (quote b). split; [rewrite quote_app; reflexivity|]. intros _. constructor. exact Hb. }
    destruct (String.prefix "true" (String c r)) eqn:P1.
    { injection H as <- <-. exists "true". split; [exact (prefix_app_drop _ _ P1)|].
      intros _. constructor. }
    destruct (String.prefix "false" (String c r)) eqn:P2.
    { injection H as <- <-. exists "false". split; [exact (prefix_app_drop _ _ P2)|].
      intros _. constructor. }
    destruct (String.prefix "null" (String c r)) eqn:P3.
    { injection H as <- <-. exists "null". split; [exact (prefix_app_drop _ _ P3)|].
      intros _. constructor. }
    destruct (number (String c r)) as [[lx t']|] eqn:E; [|discriminate H].
    injection H as <- <-. destruct (number_facts _ _ _ E) as (Es & _).
    exists lx. split; [exact Es|]. intro Hd. constructor.
    rewrite Es, number_app in E by exact Hd. exact (shift_inv _ _ _ E).
  - (* items *)
    intros s xs t H. destruct s as [|c r]; [discriminate|]. cbn [parse_value parse_items parse_more_items parse_members parse_more_members parse_member] in H.
    destruct (Ascii.eqb c c_rbrack) eqn:E1.
    { apply Ascii.eqb_eq in E1. subst c. injection H as <- <-. left. split; reflexivity. }
    destruct (parse_value n (String c r)) as [v t1| |] eqn:E; try discriminate H.
    destruct (S1 _ _ _ E) as (x & Ex & Hx).
    destruct (S3 _ _ _ _ H) as (m & vs & -> & Et & Hm).
    destruct (skip_ws_split t1) as (w' & Ew & Hw & _). rewrite Et in Ew.
    right. exists x, v, w', m, vs. split; [reflexivity|]. split; [rewrite Ex, Ew; reflexivity|].
    split; [|split; assumption]. apply Hx. rewrite Ew.
    apply delim_before; [exact Hw | exact (more_items_lead _ _ Hm) | reflexivity].
  - (* more items *)
    intros acc s xs t H. destruct s as [|c r]; [discriminate|]. cbn [parse_value parse_items parse_more_items parse_members parse_more_members parse_member] in H.
    destruct (Ascii.eqb c c_rbrack) eqn:E1.
    { apply Ascii.eqb_eq in E1. subst c. injection H as <- <-. exists "", [].
      split; [rewrite app_nil_r; reflexivity|]. split; [reflexivity | constructor]. }
    destruct (Ascii.eqb c c_comma) eqn:E2; [|discriminate H].
    apply Ascii.eqb_eq in E2. subst c.
    destruct (parse_value n (skip_json_ws r)) as [v t1| |] eqn:E; try discriminate H.
    destruct (S1 _ _ _ E) as (x & Ex & Hx).
    destruct (S3 _ _ _ _ H) as (m & vs & -> & Et & Hm).
    destruct (skip_ws_split r) as (w & Ew0 & Hw0 & _).
    destruct (skip_ws_split t1) as (w' & Ew & Hw & _). rewrite Et in Ew.
    exists (String c_comma (w ++ x ++ w' ++ m)), (v :: vs).
    split; [simpl; rewrite <- app_assoc; reflexivity|].
    split; [rewrite Ew0, Ex, Ew; str_eq|].
    constructor; try assumption. apply Hx. rewrite Ew.
    apply delim_before; [exact Hw | exact (more_items_lead _ _ Hm) | reflexivity].
  - (* members *)
    intros s ms t H. destruct s as [|c r]; [discriminate|]. cbn [parse_value parse_items parse_more_items parse_members parse_more_members parse_member] in H.
    destruct (Ascii.eqb c c_rbrace) eqn:E1.
    { apply Ascii.eqb_eq in E1. subst c. injection H as <- <-. left. split; reflexivity. }
    destruct (parse_member n (String c r)) as [[k v] t1| |] eqn:E; try discriminate H.
    destruct (S6 _ _ _ _ E) as (w1 & w2 & x & Ex & Hk & H1 & H2 & Hx).
    destruct (S5 _ _ _ _ H) as (m & ms' & -> & Et & Hm).
    destruct (skip_ws_split t1) as (w3 & Ew & Hw & _). rewrite Et in Ew.
    right. exists k, w1, w2, x, v, w3, m, ms'. split; [reflexivity|].
    split; [rewrite Ex, Ew; reflexivity|].
    repeat split; try assumption. apply Hx. rewrite Ew.
    apply delim_before; [exact Hw | exact (more_members_lead _ _ Hm) | reflexivity].
  - (* more members *)
    intros acc s ms t H. destruct s as [|c r]; [discriminate|]. cbn [parse_value parse_items parse_more_items parse_members parse_more_members parse_member] in H.
    destruct (Ascii.eqb c c_rbrace) eqn:E1.
    { apply Ascii.eqb_eq in E1. subst c. injection H as <- <-. exists "", [].
      split; [rewrite app_nil_r; reflexivity|]. split; [reflexivity | constructor]. }
    destruct (Ascii.eqb c c_comma) eqn:E2; [|discriminate H].
    apply Ascii.eqb_eq in E2. subst c.
    destruct (parse_member n (skip_json_ws r)) as [[k v] t1| |] eqn:E; try discriminate H.
    destruct (S6 _ _ _ _ E) as (w1 & w2 & x & Ex & Hk & H1 & H2 & Hx).
    destruct (S5 _ _ _ _ H) as (m & ms' & -> & Et & Hm).
    destruct (skip_ws_split r) as (w & Ew0 & Hw0 & _).
    destruct (skip_ws_split t1) as (w3 & Ew & Hw & _). rewrite Et in Ew.
    exists (String c_comma (w ++ quote k ++ w1 ++ ":" ++ w2 ++ x ++ w3 ++ m)), ((k, v) :: ms').
    split; [simpl; rewrite <- app_assoc; reflexivity|].
    split; [rewrite Ew0, Ex, Ew; str_eq|].
    constructor; try assumption. apply Hx. rewrite Ew.
    apply delim_before; [exact Hw | exact (more_members_lead _ _ Hm) | reflexivity].
  - (* member *)
    intros s k v u H. destruct s as [|c r]; [discriminate|]. cbn [parse_value parse_items parse_more_items parse_members parse_more_members parse_member] in H.
    destruct (Ascii.eqb c c_quote) eqn:E1; [|discriminate H].
    apply Ascii.eqb_eq in E1. subst c.
    destruct (string_body r) as [[k0 t0]|] eqn:E; [|discriminate H].
    destruct (string_body_sound _ _ _ E) as [-> Hk].
    destruct (skip_ws_split t0) as (w1 & Ew1 & Hw1 & _).
    destruct (skip_json_ws t0) as [|d t'] eqn:Et0; [discriminate H|].
    destruct (Ascii.eqb d c_colon) eqn:E2; [|discriminate H].
    apply Ascii.eqb_eq in E2. subst d.
    destruct (parse_value n (skip_json_ws t')) as [v0 u0| |] eqn:Ev; try discriminate H.
    injection H as <- <- <-.
    destruct (S1 _ _ _ Ev) as (x & Ex & Hx).
    destruct (skip_ws_split t') as (w2 & Ew2 & Hw2 & _).
    exists w1, w2, x. split; [|repeat split; assumption].
    rewrite Ew1, Ew2, Ex. rewrite quote_app. str_eq.
Qed.

Ltac lit_bool t :=
  let e := eval vm_compute in t in
  match e with true => change t with true | false => change t with false end.

Ltac lits :=
  repeat match goal with
  | |- context [Ascii.eqb ?a ?b] => lit_bool (Ascii.eqb a b)
  | |- context [is_json_ws ?a] => lit_bool (is_json_ws a)
  end; cbv beta iota.

Ltac hlen H := unfold quote in H; repeat (progress (simpl in H; rewrite ?str_length_app in H)).

Lemma parser_complete :
  (forall x v, vtext x v -> forall t n, delim t -> (2 * String.length x <= n)%nat ->
     parse_value n (x ++ t) = POk v t) /\
  (forall m vs, more_items m vs -> forall acc t n, (2 * String.length m + 1 <= n)%nat ->
     parse_more_items n acc (m ++ String c_rbrack t) = POk (rev acc ++ vs)%list t) /\
  (forall m ms, more_members m ms -> forall acc t n, (2 * String.length m + 1 <= n)%nat ->
     parse_more_members n acc (m ++ String c_rbrace t) = POk (rev acc ++ ms)%list t).
Proof.
  apply vtext_all_ind.
  - intros t [|n] _ Hn; [simpl in Hn; lia|]. destruct t; reflexivity.
  - intros t [|n] _ Hn; [simpl in Hn; lia|]. destruct t; reflexivity.
  - intros t [|n] _ Hn; [simpl in Hn; lia|]. destruct t; reflexivity.
  - intros lx Hnum t n Ht Hn.
    destruct (number_facts _ _ _ Hnum) as (_ & _ & c & r & Elx & Hc).
    destruct (num_lead_facts c Hc) as (_ & Q & LB & LK & NT & NF & NN & _).
    destruct n as [|n]; [subst lx; simpl in Hn; lia|].
    rewrite Elx. change (String c r ++ t) with (String c (r ++ t)).
    cbn [parse_value]. rewrite LB, LK, Q, !prefix_head_ne by congruence.
    change (String c (r ++ t)) with (String c r ++ t). rewrite <- Elx.
    rewrite number_app, Hnum by exact Ht. reflexivity.
  - intros raw Hb t [|n] _ Hn; [unfold quote in Hn; simpl in Hn; lia|].
    rewrite quote_app. cbn [parse_value]. lits. rewrite body_string_body by exact Hb. reflexivity.
  - intros w Hw t n _ Hn. hlen Hn. destruct n as [|[|n]]; [lia | lia|].
    str_norm. cbn [parse_value]. lits. rewrite skip_ws_app by exact Hw.
    cbn [parse_items]. lits. reflexivity.
  - intros w x w' m v vs Hw Hx IHx Hw' Hm IHm t n Ht Hn.
    hlen Hn.
    destruct n as [|[|n]]; [lia | lia|].
    str_norm. cbn [parse_value]. lits. rewrite (skip_value w x _ v Hw Hx).
    destruct (vtext_lead x v Hx) as (c & r & Ex & (_ & _ & _ & RK & _) & _).
    rewrite Ex. change (String c r ++ ?z) with (String c (r ++ z)).
    cbn [parse_items]. rewrite RK. change (String c (r ++ ?z)) with (String c r ++ z). rewrite <- Ex.
    rewrite IHx; [| apply delim_before; [exact Hw' | exact (more_items_lead _ _ Hm) | reflexivity] | lia].
    rewrite skip_before by first [exact Hw' | exact (more_items_lead _ _ Hm) | reflexivity].
    rewrite IHm by lia. reflexivity.
  - intros w Hw t n _ Hn. hlen Hn. destruct n as [|[|n]]; [lia | lia|].
    str_norm. cbn [parse_value]. lits. rewrite skip_ws_app by exact Hw.
    cbn [parse_members]. lits. reflexivity.
  - intros w k w1 w2 x w3 m v ms Hw Hk H1 H2 Hx IHx H3 Hm IHm t n Ht Hn.
    hlen Hn.
    destruct n as [|[|[|n]]]; [lia | lia | lia|].
    str_norm. cbn [parse_value]. lits. rewrite skip_ws_app by exact Hw.
    rewrite quote_app. cbn [skip_json_ws]. lits. cbn [parse_members]. lits. cbn [parse_member]. lits.
    rewrite body_string_body by exact Hk. rewrite skip_ws_app by exact H1.
    cbn [skip_json_ws]. lits. rewrite (skip_value w2 x _ v H2 Hx). lits.
    rewrite IHx; [| apply delim_before; [exact H3 | exact (more_members_lead _ _ Hm) | reflexivity] | lia].
    rewrite skip_before by first [exact H3 | exact (more_members_lead _ _ Hm) | reflexivity].
    rewrite IHm by lia. reflexivity.
  - intros acc t [|n] Hn; [simpl in Hn; lia|].
    cbn [append parse_more_items]. lits. rewrite app_nil_r. reflexivity.
  - intros w x w' m v vs Hw Hx IHx Hw' Hm IHm acc t n Hn.
    hlen Hn.
    destruct n as [|n]; [lia|].
    str_norm. cbn [parse_more_items]. lits. rewrite (skip_value w x _ v Hw Hx).
    rewrite IHx; [| apply delim_before; [exact Hw' | exact (more_items_lead _ _ Hm) | reflexivity] | lia].
    rewrite skip_before by first [exact Hw' | exact (more_items_lead _ _ Hm) | reflexivity].
    rewrite IHm by lia. simpl. rewrite <- app_assoc. reflexivity.
  - intros acc t [|n] Hn; [simpl in Hn; lia|].
    cbn [append parse_more_members]. lits. rewrite app_nil_r. reflexivity.
  - intros w k w1 w2 x w3 m v ms Hw Hk H1 H2 Hx IHx H3 Hm IHm acc t n Hn.
    hlen Hn.
    destruct n as [|n]; [lia|].
    str_norm. cbn [parse_more_members]. lits. rewrite skip_ws_app by exact Hw.
    rewrite quote_app. cbn [skip_json_ws]. lits.
    destruct n as [|n]; [lia|]. cbn [parse_member]. lits.
    rewrite body_string_body by exact Hk. rewrite skip_ws_app by exact H1.
    cbn [skip_json_ws]. lits. rewrite (skip_value w2 x _ v H2 Hx). lits.
    rewrite IHx; [| apply delim_before; [exact H3 | exact (more_members_lead _ _ Hm) | reflexivity] | lia].
    rewrite skip_before by first [exact H3 | exact (more_members_lead _ _ Hm) | reflexivity].
    rewrite IHm by lia. simpl. rewrite <- app_assoc. reflexivity.
Qed.

Lemma hex_facts (c : ascii) :
  is_hex c = true -> Ascii.eqb c c_quote = false /\ Ascii.eqb c c_bslash = false /\ printable c = true.
Proof.
  destruct c as [[] [] [] [] [] [] [] []]; intro H; vm_compute in H;
    try discriminate H; vm_compute; repeat split.
Qed.

Lemma escape_facts (c : ascii) :
  is_simple_escape c = true -> Ascii.eqb c c_bslash = false \/ c = c_bslash.
Proof. destruct (Ascii.eqb_spec c c_bslash); auto. Qed.

Lemma escape_printable (c : ascii) : is_simple_escape c = true -> printable c = true.
Proof.
  destruct c as [[] [] [] [] [] [] [] []]; intro H; vm_compute in H;
    try discriminate H; reflexivity.
Qed.

Ltac scan_steps :=
  cbn [scan]; unfold scan_step; cbn [escaped inString braceCount bracketCount lastSafePoint].

Lemma scan_plain_in_string (c : ascii) (r : string) (b k last : Z) (i : nat) :
  Ascii.eqb c c_quote = false -> Ascii.eqb c c_bslash = false -> (0 <= b)%Z -> (0 <= k)%Z ->
  scan i (mkScan b k true false last) (String c r) = scan (S i) (mkScan b k true false last) r.
Proof.
  intros Q B Hb Hk. scan_steps. rewrite Q, B. cbn. nonneg_counts. reflexivity.
Qed.

Lemma scan_escape_in_string (e : ascii) (r : string) (b k last : Z) (i : nat) :
  (0 <= b)%Z -> (0 <= k)%Z ->
  scan i (mkScan b k true false last) (String c_bslash (String e r))
  = scan (S (S i)) (mkScan b k true false last) r.
Proof.
  intros Hb Hk. scan_steps. lits. cbn. nonneg_counts.
  destruct (Ascii.eqb e c_quote); cbn; rewrite ?andb_false_r; cbn; nonneg_counts; reflexivity.
Qed.

Lemma scan_body (raw : string) :
  body raw -> forall b k last i, (0 <= b)%Z -> (0 <= k)%Z ->
  scan i (mkScan b k true false last) raw = (mkScan b k true false last, Exhausted).
Proof.
  induction 1 as [| c r Q B L _ IH | e r E _ IH | h1 h2 h3 h4 r Hx _ IH];
    intros b k last i Hb Hk.
  - reflexivity.
  - rewrite scan_plain_in_string by assumption. apply IH; assumption.
  - rewrite scan_escape_in_string by assumption. apply IH; assumption.
  - apply andb_true_iff in Hx as [Hx H4]. apply andb_true_iff in Hx as [Hx H3].
    apply andb_true_iff in Hx as [H1 H2].
    destruct (hex_facts _ H1) as (Q1 & B1 & _). destruct (hex_facts _ H2) as (Q2 & B2 & _).
    destruct (hex_facts _ H3) as (Q3 & B3 & _). destruct (hex_facts _ H4) as (Q4 & B4 & _).
    rewrite scan_escape_in_string by assumption.
    rewrite !scan_plain_in_string by assumption. apply IH; assumption.
Qed.

Lemma scan_pass_body_quote (raw : string) : body raw -> scan_pass (quote raw).
Proof.
  intros Hr b k last i H1 H2 H3. exists last. unfold quote, nz in *.
  cbn [scan]. unfold scan_step. cbn.
  replace ((b <? 0)%Z || (k <? 0)%Z) with false by (symmetry; apply orb_false_iff; split; apply Z.ltb_ge; lia).
  rewrite scan_app, scan_body by assumption.
  cbn [scan]. unfold scan_step. cbn. rewrite H3. cbn.
  replace ((b <? 0)%Z || (k <? 0)%Z) with false by (symmetry; apply orb_false_iff; split; apply Z.ltb_ge; lia).
  rewrite andb_false_r. reflexivity.
Qed.

Lemma ws_neutral (c : ascii) : is_json_ws c = true -> neutral c = true.
Proof.
  destruct c as [[] [] [] [] [] [] [] []]; intro H; vm_compute in H;
    try discriminate H; reflexivity.
Qed.

Lemma scan_pass_ws (w : string) : json_ws w -> scan_pass w.
Proof. intro H. apply scan_pass_neutral. exact (str_all_impl _ _ w ws_neutral H). Qed.

Lemma scan_pass_wrap_arr (s : string) : scan_pass s -> scan_pass (String c_lbrack (s ++ "]")).
Proof.
  intros H b k last i Hb Hk Hnz. rewrite scan_arr_wrap by assumption.
  unfold nz in Hnz. rewrite Hnz. eexists. reflexivity.
Qed.

Lemma scan_pass_wrap_obj (s : string) : scan_pass s -> scan_pass (String c_lbrace (s ++ "}")).
Proof.
  intros H b k last i Hb Hk Hnz. rewrite scan_obj_wrap by assumption.
  unfold nz in Hnz. rewrite Hnz. eexists. reflexivity.
Qed.

Lemma scan_pass_lit (s : string) : str_all neutral s = true -> scan_pass s.
Proof. exact (scan_pass_neutral s). Qed.

Lemma vtext_scan :
  (forall x v, vtext x v -> scan_pass x) /\
  (forall m vs, more_items m vs -> scan_pass m) /\
  (forall m ms, more_members m ms -> scan_pass m).
Proof.
  apply vtext_all_ind.
  - apply scan_pass_lit. reflexivity.
  - apply scan_pass_lit. reflexivity.
  - apply scan_pass_lit. reflexivity.
  - intros lx H. destruct (number_facts _ _ _ H) as (_ & N & _).
    apply scan_pass_lit. exact (str_all_impl _ _ lx num_neutral N).
  - intros raw H. apply scan_pass_body_quote. exact H.
  - intros w Hw. apply scan_pass_wrap_arr, scan_pass_ws, Hw.
  - intros w x w' m v vs Hw _ Px Hw' _ Pm.
    replace (w ++ x ++ w' ++ m ++ "]") with ((w ++ x ++ w' ++ m) ++ "]") by (rewrite !str_app_assoc; reflexivity).
    apply scan_pass_wrap_arr.
    repeat apply scan_pass_app; try assumption; apply scan_pass_ws; assumption.
  - intros w Hw. apply scan_pass_wrap_obj, scan_pass_ws, Hw.
  - intros w k w1 w2 x w3 m v ms Hw Hk H1 H2 _ Px H3 _ Pm.
    replace (w ++ quote k ++ w1 ++ ":" ++ w2 ++ x ++ w3 ++ m ++ "}")
      with ((w ++ quote k ++ w1 ++ ":" ++ w2 ++ x ++ w3 ++ m) ++ "}") by (rewrite !str_app_assoc; reflexivity).
    apply scan_pass_wrap_obj.
    repeat apply scan_pass_app; try assumption;
      first [apply scan_pass_ws; assumption | apply scan_pass_body_quote; assumption
            | apply scan_pass_lit; reflexivity].
  - exact scan_pass_nil.
  - intros w x w' m v vs Hw _ Px Hw' _ Pm.
    change (String c_comma (w ++ x ++ w' ++ m)) with ("," ++ (w ++ x ++ w' ++ m)).
    repeat apply scan_pass_app; try assumption;
      first [apply scan_pass_ws; assumption | exact scan_pass_comma].
  - exact scan_pass_nil.
  - intros w k w1 w2 x w3 m v ms Hw Hk H1 H2 _ Px H3 _ Pm.
    change (String c_comma (w ++ quote k ++ w1 ++ ":" ++ w2 ++ x ++ w3 ++ m))
      with ("," ++ (w ++ quote k ++ w1 ++ ":" ++ w2 ++ x ++ w3 ++ m)).
    repeat apply scan_pass_app; try assumption;
      first [apply scan_pass_ws; assumption | apply scan_pass_body_quote; assumption
            | exact scan_pass_comma | apply scan_pass_lit; reflexivity].
Qed.

Lemma vtext_container (x : string) (v : json) :
  vtext x v -> is_container v = true ->
  exists c0 mid c1, x = String c0 (mid ++ String c1 "") /\ scan_pass mid /\
    ((c0 = c_lbrack /\ c1 = c_rbrack) \/ (c0 = c_lbrace /\ c1 = c_rbrace)).
Proof.
  destruct vtext_scan as (SV & SI & SM).
  intros H Hc. destruct H; try discriminate Hc.
  - exists c_lbrack, w, c_rbrack. split; [reflexivity|]. split; [apply scan_pass_ws; assumption|]. auto.
  - exists c_lbrack, (w ++ x ++ w' ++ m), c_rbrack. split; [str_eq|].
    split; [|auto]. repeat apply scan_pass_app; eauto; apply scan_pass_ws; assumption.
  - exists c_lbrace, w, c_rbrace. split; [reflexivity|]. split; [apply scan_pass_ws; assumption|]. auto.
  - exists c_lbrace, (w ++ quote k ++ w1 ++ ":" ++ w2 ++ x ++ w3 ++ m), c_rbrace. split; [str_eq|].
    split; [|auto]. repeat apply scan_pass_app; eauto;
      first [apply scan_pass_ws; assumption | apply scan_pass_body_quote; assumption
            | apply scan_pass_lit; reflexivity].
Qed.

Lemma post_process_passes (s : string) :
  post_process s = tighten_colons_aux QNone (strip_comma_closer_aux None (newline_pass s)).
Proof. reflexivity. Qed.

Lemma replace_char_app (c d : ascii) (a b : string) :
  replace_char c d (a ++ b) = replace_char c d a ++ replace_char c d b.
Proof. induction a as [|x a IH]; simpl; [reflexivity | now rewrite IH]. Qed.

Lemma newline_app (a b : string) : newline_pass (a ++ b) = newline_pass a ++ newline_pass b.
Proof. unfold newline_pass. rewrite !replace_char_app. reflexivity. Qed.

Lemma newline_printable (s : string) : str_all printable s = true -> newline_pass s = s.
Proof.
  intro H. unfold newline_pass. rewrite (replace_char_id c_lf), (replace_char_id c_cr);
    [reflexivity | exact H | reflexivity | exact H | reflexivity].
Qed.

Lemma newline_cons (c : ascii) (s : string) :
  printable c = true -> newline_pass (String c s) = String c (newline_pass s).
Proof.
  intro H. change (String c s) with (String c "" ++ s). rewrite newline_app.
  rewrite (newline_printable (String c "")) by (simpl; rewrite H; reflexivity). reflexivity.
Qed.

Lemma newline_pass_cons (c : ascii) (s : string) :
  newline_pass (String c s) = String (nl_char c) (newline_pass s).
Proof. reflexivity. Qed.

Lemma nl_char_ws (c : ascii) : is_json_ws c = true -> is_json_ws (nl_char c) = true.
Proof.
  destruct c as [[] [] [] [] [] [] [] []]; intro H; vm_compute in H;
    try discriminate H; reflexivity.
Qed.

Lemma newline_ws (w : string) : json_ws w -> json_ws (newline_pass w).
Proof.
  unfold json_ws. induction w as [|c w IH]; [reflexivity|].
  rewrite newline_pass_cons. cbn [str_all]. intro H.
  apply andb_true_iff in H as [Hc Hw]. rewrite nl_char_ws, IH by assumption. reflexivity.
Qed.

Lemma body_printable (raw : string) : body raw -> str_all printable raw = true.
Proof.
  induction 1 as [| c r Q B L _ IH | e r E _ IH | h1 h2 h3 h4 r Hx _ IH].
  - reflexivity.
  - simpl. unfold printable. apply Nat.ltb_ge in L. apply Nat.leb_le in L. rewrite L. exact IH.
  - simpl. rewrite escape_printable by exact E. exact IH.
  - apply andb_true_iff in Hx as [Hx H4]. apply andb_true_iff in Hx as [Hx H3].
    apply andb_true_iff in Hx as [H1 H2].
    simpl. rewrite (proj2 (proj2 (hex_facts _ H1))), (proj2 (proj2 (hex_facts _ H2))),
      (proj2 (proj2 (hex_facts _ H3))), (proj2 (proj2 (hex_facts _ H4))). exact IH.
Qed.

Lemma newline_quote (raw : string) : body raw -> newline_pass (quote raw) = quote raw.
Proof.
  intro H. apply newline_printable. unfold quote. simpl. rewrite str_all_app, body_printable by exact H.
  reflexivity.
Qed.

Ltac nl_norm :=
  repeat first [ rewrite newline_app
               | rewrite newline_cons by reflexivity ].

Lemma vtext_newline :
  (forall x v, vtext x v -> vtext (newline_pass x) v) /\
  (forall m vs, more_items m vs -> more_items (newline_pass m) vs) /\
  (forall m ms, more_members m ms -> more_members (newline_pass m) ms).
Proof.
  apply vtext_all_ind.
  - exact VTnull.
  - exact VTtrue.
  - exact VTfalse.
  - intros lx H. destruct (number_facts _ _ _ H) as (_ & N & _).
    rewrite newline_printable; [constructor; exact H|].
    refine (str_all_impl _ _ lx _ N). intros c Hc. apply (num_char_facts c Hc).
  - intros raw H. rewrite newline_quote by exact H. constructor. exact H.
  - intros w Hw. nl_norm. constructor. apply newline_ws, Hw.
  - intros w x w' m v vs Hw _ Px Hw' _ Pm. nl_norm.
    constructor; try assumption; apply newline_ws; assumption.
  - intros w Hw. nl_norm. constructor. apply newline_ws, Hw.
  - intros w k w1 w2 x w3 m v ms Hw Hk H1 H2 _ Px H3 _ Pm. nl_norm.
    rewrite newline_quote by exact Hk.
    constructor; try assumption; apply newline_ws; assumption.
  - exact MI0.
  - intros w x w' m v vs Hw _ Px Hw' _ Pm. nl_norm.
    constructor; try assumption; apply newline_ws; assumption.
  - exact MM0.
  - intros w k w1 w2 x w3 m v ms Hw Hk H1 H2 _ Px H3 _ Pm. nl_norm.
    rewrite newline_quote by exact Hk.
    constructor; try assumption; apply newline_ws; assumption.
Qed.

Lemma strip_ws_run (w : string) (p r : string) :
  str_all is_js_ws w = true ->
  strip_comma_closer_aux (Some p) (w ++ r) = strip_comma_closer_aux (Some (p ++ w)) r.
Proof.
  revert p. induction w as [|c w IH]; intros p H.
  - rewrite str_app_nil_r. reflexivity.
  - simpl in H. apply andb_true_iff in H as [Hc Hw]. simpl. rewrite Hc, IH by exact Hw.
    rewrite str_app_assoc. reflexivity.
Qed.

Lemma strip_no_match (s : string) :
  has_comma_closer s = false ->
  strip_comma_closer_aux None s = s /\
  (forall ws, ws_then_closer s = false ->
     strip_comma_closer_aux (Some ws) s = String c_comma (ws ++ s)).
Proof.
  induction s as [|d s IH]; intro H.
  - split; [reflexivity|]. intros ws _. simpl. rewrite str_app_nil_r. reflexivity.
  - simpl in H. apply orb_false_iff in H as [H1 H2]. destruct (IH H2) as [N S].
    split.
    + simpl. destruct (Ascii.eqb d c_comma) eqn:C.
      * simpl in H1. rewrite S by exact H1. apply Ascii.eqb_eq in C. subst d. reflexivity.
      * rewrite N. reflexivity.
    + intros ws Hw. simpl in Hw |- *. destruct (is_js_ws d).
      * rewrite S by exact Hw. rewrite str_app_assoc. reflexivity.
      * rewrite Hw. destruct (Ascii.eqb d c_comma) eqn:C.
        -- simpl in H1. rewrite S by exact H1. apply Ascii.eqb_eq in C. subst d. reflexivity.
        -- rewrite N. reflexivity.
Qed.

Lemma strip_split (c : ascii) :
  is_js_ws c = false -> Ascii.eqb c c_comma = false ->
  forall s q r, strip_comma_closer_aux q (s ++ String c r)
               = strip_comma_closer_aux q (s ++ String c "") ++ strip_comma_closer_aux None r.
Proof.
  intros W C. induction s as [|d s IH]; intros q r.
  - destruct q as [ws|]; simpl.
    + rewrite W. destruct (Ascii.eqb c c_rbrack || Ascii.eqb c c_rbrace); [reflexivity|].
      rewrite C. simpl. rewrite str_app_assoc. reflexivity.
    + rewrite C. reflexivity.
  - destruct q as [ws|]; simpl.
    + destruct (is_js_ws d); [apply IH|].
      destruct (Ascii.eqb d c_rbrack || Ascii.eqb d c_rbrace); [simpl; rewrite IH; reflexivity|].
      destruct (Ascii.eqb d c_comma); simpl; rewrite IH, str_app_assoc; reflexivity.
    + destruct (Ascii.eqb d c_comma); [apply IH|]. simpl. rewrite IH. reflexivity.
Qed.

Lemma strip_pass_literal (raw : string) :
  has_comma_closer (quote raw) = false -> strip_pass (quote raw).
Proof.
  intros H r. rewrite quote_app.
  change (String c_quote (raw ++ String c_quote r)) with (String c_quote raw ++ String c_quote r).
  rewrite strip_split by reflexivity.
  change (String c_quote raw ++ String c_quote "") with (quote raw).
  rewrite (proj1 (strip_no_match _ H)). rewrite quote_app. reflexivity.
Qed.

Lemma strip_pass_comma_ws (w : string) (c : ascii) (s : string) :
  json_ws w -> is_js_ws c = false -> Ascii.eqb c c_comma = false ->
  Ascii.eqb c c_rbrack = false -> Ascii.eqb c c_rbrace = false ->
  strip_pass (String c s) -> strip_pass (String c_comma (w ++ String c s)).
Proof.
  intros Hw W C RK RB Hs r. specialize (Hs r).
  cbn [append strip_comma_closer_aux] in *. rewrite C in Hs. injection Hs as Hs.
  change (Ascii.eqb c_comma c_comma) with true. cbv iota.
  rewrite str_app_assoc.
  rewrite strip_ws_run by exact (str_all_impl _ _ w json_js_ws Hw).
  cbn [append strip_comma_closer_aux]. rewrite W, RK, RB, C. cbn [orb].
  rewrite Hs. str_eq.
Qed.

Lemma strip_pass_ws (w : string) : json_ws w -> strip_pass w.
Proof.
  intro H. apply strip_pass_nocomma. refine (str_all_impl _ _ w _ H).
  intros c Hc. destruct c as [[] [] [] [] [] [] [] []]; vm_compute in Hc; try discriminate Hc; reflexivity.
Qed.

Lemma clean_arr_cons (x : json) (l : list json) :
  strings_clean (JArr (x :: l)) = strings_clean x && strings_clean (JArr l).
Proof. reflexivity. Qed.

Lemma clean_obj_cons (k : string) (v : json) (l : list (string * json)) :
  strings_clean (JObj ((k, v) :: l)) = literal_clean k && strings_clean v && strings_clean (JObj l).
Proof. reflexivity. Qed.

Lemma literal_clean_comma (raw : string) : literal_clean raw = true -> has_comma_closer (quote raw) = false.
Proof. unfold literal_clean. intro H. apply andb_true_iff in H as [H _]. apply negb_true_iff, H. Qed.

Lemma literal_clean_colon (raw : string) : literal_clean raw = true -> has_quote_colon (quote raw) = false.
Proof. unfold literal_clean. intro H. apply andb_true_iff in H as [_ H]. apply negb_true_iff, H. Qed.

Lemma strip_pass_lit (s : string) : str_all (fun c => negb (Ascii.eqb c c_comma)) s = true -> strip_pass s.
Proof. exact (strip_pass_nocomma s). Qed.

Lemma vtext_strip :
  (forall x v, vtext x v -> strings_clean v = true -> strip_pass x) /\
  (forall m vs, more_items m vs -> strings_clean (JArr vs) = true -> strip_pass m) /\
  (forall m ms, more_members m ms -> strings_clean (JObj ms) = true -> strip_pass m).
Proof.
  apply vtext_all_ind.
  - intros _. apply strip_pass_lit. reflexivity.
  - intros _. apply strip_pass_lit. reflexivity.
  - intros _. apply strip_pass_lit. reflexivity.
  - intros lx H _. destruct (number_facts _ _ _ H) as (_ & N & _).
    apply strip_pass_lit. refine (str_all_impl _ _ lx _ N).
    intros c Hc. destruct (num_char_facts c Hc) as (_ & _ & C & _). rewrite C. reflexivity.
  - intros raw _ Hc. apply strip_pass_literal, literal_clean_comma, Hc.
  - intros w Hw _. apply strip_pass_cons; [reflexivity|].
    apply strip_pass_app; [apply strip_pass_ws, Hw | apply strip_pass_lit; reflexivity].
  - intros w x w' m v vs Hw _ Px Hw' _ Pm Hc. rewrite clean_arr_cons in Hc.
    apply andb_true_iff in Hc as [Hv Hvs].
    apply strip_pass_cons; [reflexivity|].
    repeat apply strip_pass_app; auto using strip_pass_ws; apply strip_pass_lit; reflexivity.
  - intros w Hw _. apply strip_pass_cons; [reflexivity|].
    apply strip_pass_app; [apply strip_pass_ws, Hw | apply strip_pass_lit; reflexivity].
  - intros w k w1 w2 x w3 m v ms Hw Hk H1 H2 _ Px H3 _ Pm Hc. rewrite clean_obj_cons in Hc.
    apply andb_true_iff in Hc as [Hc Hms]. apply andb_true_iff in Hc as [Hck Hv].
    apply strip_pass_cons; [reflexivity|].
    repeat apply strip_pass_app; auto using strip_pass_ws;
      first [apply strip_pass_literal, literal_clean_comma; assumption
            | apply strip_pass_lit; reflexivity].
  - intros _ r. reflexivity.
  - intros w x w' m v vs Hw Hx Px Hw' _ Pm Hc. rewrite clean_arr_cons in Hc.
    apply andb_true_iff in Hc as [Hv Hvs].
    destruct (vtext_lead x v Hx) as (c & s & -> & (_ & W & C & RK & RB & _) & _).
    change (String c s ++ w' ++ m) with (String c (s ++ w' ++ m)).
    apply strip_pass_comma_ws; try assumption.
    change (String c (s ++ w' ++ m)) with (String c s ++ w' ++ m).
    repeat apply strip_pass_app; auto using strip_pass_ws.
  - intros _ r. reflexivity.
  - intros w k w1 w2 x w3 m v ms Hw Hk H1 H2 _ Px H3 _ Pm Hc. rewrite clean_obj_cons in Hc.
    apply andb_true_iff in Hc as [Hc Hms]. apply andb_true_iff in Hc as [Hck Hv].
    rewrite quote_app. apply strip_pass_comma_ws; try assumption; try reflexivity.
    rewrite <- quote_app.
    repeat apply strip_pass_app; auto using strip_pass_ws;
      first [apply strip_pass_literal, literal_clean_comma; assumption
            | apply strip_pass_lit; reflexivity].
Qed.

Lemma js_ws_noquote (c : ascii) : is_js_ws c = true -> negb (Ascii.eqb c c_quote) = true.
Proof.
  destruct c as [[] [] [] [] [] [] [] []]; intro H; vm_compute in H;
    try discriminate H; reflexivity.
Qed.

Lemma js_ws_str_noquote (w : string) :
  str_all is_js_ws w = true -> str_all (fun c => negb (Ascii.eqb c c_quote)) w = true.
Proof. apply str_all_impl, js_ws_noquote. Qed.

Lemma json_ws_js (w : string) : json_ws w -> str_all is_js_ws w = true.
Proof. apply str_all_impl, json_js_ws. Qed.

Lemma json_ws_noquote (w : string) : json_ws w -> str_all (fun c => negb (Ascii.eqb c c_quote)) w = true.
Proof. intro H. apply js_ws_str_noquote, json_ws_js, H. Qed.

Lemma tq_cons_nq (c : ascii) (s : string) :
  Ascii.eqb c c_quote = false ->
  tighten_colons_aux QNone (String c s) = String c (tighten_colons_aux QNone s).
Proof. intro H. cbn [tighten_colons_aux]. unfold q_restart. rewrite H. reflexivity. Qed.

Lemma tq_cons_q (s : string) :
  tighten_colons_aux QNone (String c_quote s) = tighten_colons_aux (QOpen "") s.
Proof. reflexivity. Qed.

Lemma tq_open_run (w : string) :
  str_all is_js_ws w = true ->
  forall p r, tighten_colons_aux (QOpen p) (w ++ r) = tighten_colons_aux (QOpen (p ++ w)) r.
Proof.
  induction w as [|c w IH]; intros H p r.
  - rewrite str_app_nil_r. reflexivity.
  - cbn [str_all] in H. apply andb_true_iff in H as [Hc Hw].
    cbn [append tighten_colons_aux]. rewrite Hc, IH by exact Hw. rewrite str_app_assoc. reflexivity.
Qed.

Lemma tq_colon_run (w : string) :
  str_all is_js_ws w = true ->
  forall p r, tighten_colons_aux (QColon p) (w ++ r) = tighten_colons_aux (QColon (p ++ w)) r.
Proof.
  induction w as [|c w IH]; intros H p r.
  - rewrite str_app_nil_r. reflexivity.
  - cbn [str_all] in H. apply andb_true_iff in H as [Hc Hw].
    cbn [append tighten_colons_aux]. rewrite Hc, IH by exact Hw. rewrite str_app_assoc. reflexivity.
Qed.

Lemma tq_open_colon (p r : string) :
  tighten_colons_aux (QOpen p) (":" ++ r) = tighten_colons_aux (QColon (p ++ String c_colon "")) r.
Proof. reflexivity. Qed.

Lemma tq_colon_nq (c : ascii) (ws s : string) :
  is_js_ws c = false -> Ascii.eqb c c_quote = false ->
  tighten_colons_aux (QColon ws) (String c s)
  = String c_quote (ws ++ String c (tighten_colons_aux QNone s)).
Proof. intros W Q. cbn [tighten_colons_aux]. unfold q_restart. rewrite W, Q. reflexivity. Qed.

Lemma tq_colon_q (ws s : string) :
  tighten_colons_aux (QColon ws) (String c_quote s) = colon_repl ++ tighten_colons_aux QNone s.
Proof. reflexivity. Qed.

Lemma qc_suffix (a b : string) : has_quote_colon (a ++ b) = false -> has_quote_colon b = false.
Proof.
  induction a as [|c a IH]; intro H; [exact H|].
  cbn [append has_quote_colon] in H. apply orb_false_iff in H as [_ H]. exact (IH H).
Qed.

Lemma ws_then_quote_run (w s : string) :
  str_all is_js_ws w = true -> ws_then_quote (w ++ String c_quote s) = true.
Proof.
  induction w as [|c w IH]; intro H; [reflexivity|].
  cbn [str_all] in H. apply andb_true_iff in H as [Hc Hw]. cbn [append ws_then_quote].
  rewrite Hc. exact (IH Hw).
Qed.

Lemma ws_colon_quote_run (w1 w2 s : string) :
  str_all is_js_ws w1 = true -> str_all is_js_ws w2 = true ->
  ws_colon_quote (w1 ++ String c_colon (w2 ++ String c_quote s)) = true.
Proof.
  intros H1 H2. induction w1 as [|c w IH].
  - cbn [append ws_colon_quote]. rewrite ws_then_quote_run by exact H2. reflexivity.
  - cbn [str_all] in H1. apply andb_true_iff in H1 as [Hc Hw]. cbn [append ws_colon_quote].
    rewrite Hc. exact (IH Hw).
Qed.

Lemma qc_match (w1 w2 s : string) :
  str_all is_js_ws w1 = true -> str_all is_js_ws w2 = true ->
  has_quote_colon (String c_quote (w1 ++ String c_colon (w2 ++ String c_quote s))) = true.
Proof.
  intros H1 H2. cbn [has_quote_colon]. rewrite ws_colon_quote_run by assumption. reflexivity.
Qed.

Ltac qc_from H a :=
  apply (qc_suffix a); revert H; str_norm; exact (fun h => h).

Lemma tighten_literal (s : string) :
  forall q rest, q_wf q ->
  has_quote_colon (qprefix q ++ s ++ String c_quote "") = false ->
  tighten_colons_aux q (s ++ String c_quote rest)
  = qprefix q ++ s ++ tighten_colons_aux (QOpen "") rest.
Proof.
  induction s as [|c s IH]; intros q rest Wq H.
  - destruct q as [|ws|ws]; cbn [qprefix append].
    + reflexivity.
    + reflexivity.
    + destruct Wq as (w1 & w2 & -> & H1 & H2). cbn [qprefix append] in H.
      rewrite str_app_assoc in H. cbn [append] in H.
      rewrite qc_match in H by assumption. discriminate H.
  - destruct q as [|ws|ws]; cbn [qprefix append] in H |- *.
    + cbn [tighten_colons_aux]. unfold q_restart.
      destruct (Ascii.eqb c c_quote) eqn:Q.
      * apply Ascii.eqb_eq in Q. subst c.
        rewrite IH by (exact I || reflexivity || exact H). reflexivity.
      * rewrite IH by (exact I || reflexivity || qc_from H (String c "")). reflexivity.
    + cbn [tighten_colons_aux]. destruct (is_js_ws c) eqn:W.
      * rewrite IH.
        -- cbn [qprefix append]. str_eq.
        -- cbn [q_wf]. rewrite str_all_app. cbn [str_all]. rewrite Wq, W. reflexivity.
        -- cbn [qprefix]. revert H. str_norm. exact (fun h => h).
      * destruct (Ascii.eqb c c_colon) eqn:C.
        -- apply Ascii.eqb_eq in C. subst c. rewrite IH.
           ++ cbn [qprefix append]. str_eq.
           ++ exists ws, "". split; [reflexivity|]. split; [exact Wq | reflexivity].
           ++ cbn [qprefix]. revert H. str_norm. exact (fun h => h).
        -- unfold q_restart. destruct (Ascii.eqb c c_quote) eqn:Q.
           ++ apply Ascii.eqb_eq in Q. subst c.
              rewrite IH by (exact I || reflexivity || qc_from H (String c_quote ws)). cbn [qprefix append]. str_eq.
           ++ rewrite IH by (exact I || reflexivity || qc_from H (String c_quote (ws ++ String c ""))).
              cbn [qprefix append]. str_eq.
    + destruct Wq as (w1 & w2 & -> & H1 & H2).
      cbn [tighten_colons_aux]. destruct (is_js_ws c) eqn:W.
      * rewrite IH.
        -- cbn [qprefix append]. str_eq.
        -- exists w1, (w2 ++ String c ""). split; [str_eq|]. split; [exact H1|].
           rewrite str_all_app. cbn [str_all]. rewrite H2, W. reflexivity.
        -- cbn [qprefix]. revert H. str_norm. exact (fun h => h).
      * destruct (Ascii.eqb c c_quote) eqn:Q.
        -- apply Ascii.eqb_eq in Q. subst c. exfalso.
           revert H. str_norm. rewrite qc_match by assumption. discriminate.
        -- unfold q_restart. rewrite Q.
           rewrite IH by (exact I || reflexivity || qc_from H (String c_quote (w1 ++ String c_colon (w2 ++ String c "")))).
           cbn [qprefix append]. str_eq.
Qed.

Lemma trim_start_app_ws (w r : string) : str_all is_js_ws w = true -> trim_start (w ++ r) = trim_start r.
Proof.
  induction w as [|c w IH]; intro H; [reflexivity|].
  cbn [str_all] in H. apply andb_true_iff in H as [Hc Hw]. cbn [append trim_start].
  rewrite Hc. exact (IH Hw).
Qed.

Lemma trim_start_split (r : string) : exists w, r = w ++ trim_start r /\ str_all is_js_ws w = true.
Proof.
  induction r as [|c r IH].
  - exists "". split; reflexivity.
  - cbn [trim_start]. destruct (is_js_ws c) eqn:W.
    + destruct IH as (w & E & Hw). exists (String c w). cbn [append str_all].
      rewrite <- E, W, Hw. split; reflexivity.
    + exists "". split; reflexivity.
Qed.

Lemma tighten_open_follow (r : string) :
  follow_ok r -> tighten_colons_aux (QOpen "") r = String c_quote (tighten_colons_aux QNone r).
Proof.
  unfold follow_ok. destruct (trim_start_split r) as (w & E & Hw). intro F.
  rewrite E. rewrite tq_open_run by exact Hw. rewrite tighten_noquote by (apply js_ws_str_noquote, Hw).
  cbn [append]. destruct (trim_start r) as [|c t].
  - cbn [tighten_colons_aux]. rewrite str_app_nil_r. reflexivity.
  - assert (Hc : is_js_ws c = false /\ Ascii.eqb c c_colon = false /\ Ascii.eqb c c_quote = false)
      by (destruct F as [-> | [-> | ->]]; split; reflexivity || (split; reflexivity)).
    destruct Hc as (W & C & Q).
    cbn [tighten_colons_aux]. rewrite W, C. unfold q_restart. rewrite Q. reflexivity.
Qed.

Lemma follow_before (w m r : string) :
  json_ws w -> (m = "" \/ exists r', m = String c_comma r') -> follow_ok r ->
  follow_ok (w ++ m ++ r).
Proof.
  intros Hw Hm F. unfold follow_ok. rewrite trim_start_app_ws by (apply json_ws_js, Hw).
  destruct Hm as [-> | (r' & ->)]; [exact F|]. cbn [append trim_start].
  change (is_js_ws c_comma) with false. cbv iota. left. reflexivity.
Qed.

Lemma follow_rbrack (r : string) : follow_ok (String c_rbrack r).
Proof. unfold follow_ok. cbn [trim_start]. change (is_js_ws c_rbrack) with false. cbv iota. auto. Qed.

Lemma follow_rbrace (r : string) : follow_ok (String c_rbrace r).
Proof. unfold follow_ok. cbn [trim_start]. change (is_js_ws c_rbrace) with false. cbv iota. auto. Qed.

Lemma follow_nil : follow_ok "".
Proof. exact I. Qed.

Lemma tq_open_colon_c (p r : string) :
  tighten_colons_aux (QOpen p) (String ":"%char r)
  = tighten_colons_aux (QColon (p ++ String c_colon "")) r.
Proof. reflexivity. Qed.

Lemma member_tighten (k w1 w2 x : string) (v : json) :
  literal_clean k = true -> json_ws w1 -> json_ws w2 -> vtext x v -> strings_clean v = true ->
  (exists x', vtext x' v /\ forall r, follow_ok r ->
     tighten_colons_aux QNone (x ++ r) = x' ++ tighten_colons_aux QNone r) ->
  exists w1' w2' x', json_ws w1' /\ json_ws w2' /\ vtext x' v /\
    forall r, follow_ok r ->
    tighten_colons_aux QNone (quote k ++ w1 ++ String ":"%char (w2 ++ x ++ r))
    = quote k ++ w1' ++ String ":"%char (w2' ++ x' ++ tighten_colons_aux QNone r).
Proof.
  intros Ck H1 H2 Hx Cv (x' & Hx' & Ex).
  assert (Key : forall u, tighten_colons_aux QNone (quote k ++ u)
                          = String c_quote (k ++ tighten_colons_aux (QOpen "") u)).
  { intro u. rewrite quote_app, tq_cons_q.
    rewrite tighten_literal; [reflexivity | reflexivity | exact (literal_clean_colon k Ck)]. }
  assert (Sep : forall u, tighten_colons_aux (QOpen "") (w1 ++ String ":"%char (w2 ++ u))
                          = tighten_colons_aux (QColon (w1 ++ String c_colon w2)) u).
  { intro u. rewrite tq_open_run by (apply json_ws_js, H1). rewrite tq_open_colon_c.
    rewrite tq_colon_run by (apply json_ws_js, H2).
    apply (f_equal (fun z => tighten_colons_aux (QColon z) u)). str_eq. }
  destruct (vtext_lead x v Hx) as (c & s & Exs & (_ & W & _ & _ & _ & _) & [Q | (raw & Ev & Exq & Hb)]).
  - exists w1, w2, x'. split; [exact H1|]. split; [exact H2|]. split; [exact Hx'|].
    intros r F. rewrite Key, Sep, Exs. cbn [append]. rewrite tq_colon_nq by assumption.
    rewrite <- tq_cons_nq by exact Q.
    change (String c (s ++ r)) with (String c s ++ r). rewrite <- Exs, Ex by exact F.
    rewrite quote_app. str_eq.
  - subst v. exists "", "", (quote raw). split; [reflexivity|]. split; [reflexivity|].
    split; [constructor; exact Hb|].
    intros r F. rewrite Key, Sep, Exq, quote_app, tq_colon_q.
    rewrite (tighten_literal raw QNone); [| exact I |].
    2: { apply (qc_suffix (String c_quote "")). exact (literal_clean_colon raw Cv). }
    rewrite tighten_open_follow by exact F. cbn [qprefix]. unfold colon_repl.
    rewrite !quote_app. str_eq.
Qed.

Lemma noquote_ws_wrap (c d : ascii) (w : string) :
  json_ws w -> Ascii.eqb c c_quote = false -> Ascii.eqb d c_quote = false ->
  str_all (fun c => negb (Ascii.eqb c c_quote)) (String c (w ++ String d "")) = true.
Proof.
  intros Hw C D. cbn [str_all]. rewrite str_all_app, json_ws_noquote by exact Hw.
  cbn [str_all]. rewrite C, D. reflexivity.
Qed.

Lemma vtext_tighten :
  (forall x v, vtext x v -> strings_clean v = true ->
     exists x', vtext x' v /\ forall r, follow_ok r ->
       tighten_colons_aux QNone (x ++ r) = x' ++ tighten_colons_aux QNone r) /\
  (forall m vs, more_items m vs -> strings_clean (JArr vs) = true ->
     exists m', more_items m' vs /\ forall r, follow_ok r ->
       tighten_colons_aux QNone (m ++ r) = m' ++ tighten_colons_aux QNone r) /\
  (forall m ms, more_members m ms -> strings_clean (JObj ms) = true ->
     exists m', more_members m' ms /\ forall r, follow_ok r ->
       tighten_colons_aux QNone (m ++ r) = m' ++ tighten_colons_aux QNone r).
Proof.
  apply vtext_all_ind.
  - intros _. exists "null". split; [constructor|]. intros r _. apply tighten_noquote. reflexivity.
  - intros _. exists "true". split; [constructor|]. intros r _. apply tighten_noquote. reflexivity.
  - intros _. exists "false". split; [constructor|]. intros r _. apply tighten_noquote. reflexivity.
  - intros lx H _. exists lx. split; [constructor; exact H|]. intros r _. apply tighten_noquote.
    destruct (number_facts _ _ _ H) as (_ & N & _). refine (str_all_impl _ _ lx _ N).
    intros c Hc. destruct (num_char_facts c Hc) as (_ & _ & _ & _ & _ & _ & Q). rewrite Q. reflexivity.
  - intros raw Hb Cv. exists (quote raw). split; [constructor; exact Hb|]. intros r F.
    rewrite quote_app, tq_cons_q.
    rewrite tighten_literal; [| reflexivity | exact (literal_clean_colon raw Cv)].
    rewrite tighten_open_follow by exact F. rewrite quote_app. reflexivity.
  - intros w Hw _. exists (String c_lbrack (w ++ "]")). split; [constructor; exact Hw|].
    intros r _. apply tighten_noquote. apply noquote_ws_wrap; [exact Hw | reflexivity | reflexivity].
  - intros w x w' m v vs Hw Hx Px Hw' Hm Pm Cv. rewrite clean_arr_cons in Cv.
    apply andb_true_iff in Cv as [Cx Cvs].
    destruct (Px Cx) as (x' & Hx' & Ex). destruct (Pm Cvs) as (m' & Hm' & Em).
    exists (String c_lbrack (w ++ x' ++ w' ++ m' ++ "]")). split; [constructor; assumption|].
    intros r _. cbn [append]. rewrite tq_cons_nq by reflexivity. str_norm.
    rewrite (tighten_noquote w) by (apply json_ws_noquote, Hw).
    rewrite Ex by (apply follow_before; [exact Hw' | exact (more_items_lead m vs Hm) | apply follow_rbrack]).
    rewrite (tighten_noquote w') by (apply json_ws_noquote, Hw').
    rewrite Em by apply follow_rbrack. rewrite tq_cons_nq by reflexivity. str_eq.
  - intros w Hw _. exists (String c_lbrace (w ++ "}")). split; [constructor; exact Hw|].
    intros r _. apply tighten_noquote. apply noquote_ws_wrap; [exact Hw | reflexivity | reflexivity].
  - intros w k w1 w2 x w3 m v ms Hw Hk H1 H2 Hx Px H3 Hm Pm Cv. rewrite clean_obj_cons in Cv.
    apply andb_true_iff in Cv as [Cv Cms]. apply andb_true_iff in Cv as [Ck Cx].
    destruct (member_tighten k w1 w2 x v Ck H1 H2 Hx Cx (Px Cx))
      as (w1' & w2' & x' & H1' & H2' & Hx' & Ex).
    destruct (Pm Cms) as (m' & Hm' & Em).
    exists (String c_lbrace (w ++ quote k ++ w1' ++ ":" ++ w2' ++ x' ++ w3 ++ m' ++ "}")).
    split; [constructor; assumption|].
    intros r _. cbn [append]. rewrite tq_cons_nq by reflexivity. str_norm.
    rewrite (tighten_noquote w) by (apply json_ws_noquote, Hw).
    rewrite Ex by (apply follow_before; [exact H3 | exact (more_members_lead m ms Hm) | apply follow_rbrace]).
    rewrite (tighten_noquote w3) by (apply json_ws_noquote, H3).
    rewrite Em by apply follow_rbrace. rewrite tq_cons_nq by reflexivity. str_eq.
  - intros _. exists "". split; [constructor|]. intros r _. reflexivity.
  - intros w x w' m v vs Hw Hx Px Hw' Hm Pm Cv. rewrite clean_arr_cons in Cv.
    apply andb_true_iff in Cv as [Cx Cvs].
    destruct (Px Cx) as (x' & Hx' & Ex). destruct (Pm Cvs) as (m' & Hm' & Em).
    exists (String c_comma (w ++ x' ++ w' ++ m')). split; [constructor; assumption|].
    intros r F. cbn [append]. rewrite tq_cons_nq by reflexivity. str_norm.
    rewrite (tighten_noquote w) by (apply json_ws_noquote, Hw).
    rewrite Ex by (apply follow_before; [exact Hw' | exact (more_items_lead m vs Hm) | exact F]).
    rewrite (tighten_noquote w') by (apply json_ws_noquote, Hw').
    rewrite Em by exact F. str_eq.
  - intros _. exists "". split; [constructor|]. intros r _. reflexivity.
  - intros w k w1 w2 x w3 m v ms Hw Hk H1 H2 Hx Px H3 Hm Pm Cv. rewrite clean_obj_cons in Cv.
    apply andb_true_iff in Cv as [Cv Cms]. apply andb_true_iff in Cv as [Ck Cx].
    destruct (member_tighten k w1 w2 x v Ck H1 H2 Hx Cx (Px Cx))
      as (w1' & w2' & x' & H1' & H2' & Hx' & Ex).
    destruct (Pm Cms) as (m' & Hm' & Em).
    exists (String c_comma (w ++ quote k ++ w1' ++ ":" ++ w2' ++ x' ++ w3 ++ m')).
    split; [constructor; assumption|].
    intros r F. cbn [append]. rewrite tq_cons_nq by reflexivity. str_norm.
    rewrite (tighten_noquote w) by (apply json_ws_noquote, Hw).
    rewrite Ex by (apply follow_before; [exact H3 | exact (more_members_lead m ms Hm) | exact F]).
    rewrite (tighten_noquote w3) by (apply json_ws_noquote, H3).
    rewrite Em by exact F. str_eq.
Qed.

Lemma trim_end_all_ws (t : string) : str_all is_js_ws t = true -> trim_end t = "".
Proof.
  induction t as [|c t IH]; intro H; [reflexivity|].
  cbn [str_all] in H. apply andb_true_iff in H as [Hc Ht].
  cbn [trim_end]. rewrite IH by exact Ht. rewrite Hc. reflexivity.
Qed.

Lemma trim_end_ws_suffix (a t : string) :
  str_all is_js_ws t = true -> trim_end (a ++ t) = trim_end a.
Proof.
  intro Ht. induction a as [|c a IH].
  - exact (trim_end_all_ws t Ht).
  - cbn [append trim_end]. rewrite IH. reflexivity.
Qed.

Lemma trim_around (w x t : string) (c : ascii) (r : string) :
  str_all is_js_ws w = true -> str_all is_js_ws t = true -> x = String c r -> is_js_ws c = false ->
  trim (w ++ x ++ t) = trim x.
Proof.
  intros Hw Ht -> W. unfold trim. rewrite trim_start_app_ws by exact Hw.
  cbn [append]. rewrite !trim_start_lead by exact W.
  change (String c (r ++ t)) with (String c r ++ t). apply trim_end_ws_suffix, Ht.
Qed.

Lemma JSON_parse_accept (T : string) (v : json) :
  JSON_parse T = Accept v ->
  exists w0 x t, T = w0 ++ x ++ t /\ json_ws w0 /\ json_ws t /\ vtext x v.
Proof.
  unfold JSON_parse. intro H.
  destruct (parse_value (3 * String.length T + 3) (skip_json_ws T)) as [v' t'| |] eqn:P;
    try discriminate H.
  destruct (String.eqb_spec (skip_json_ws t') "") as [Et|]; [|discriminate H].
  injection H as <-.
  destruct (proj1 (parser_sound _) _ _ _ P) as (x & Ex & Hd).
  destruct (skip_ws_split T) as (w0 & E0 & Hw0 & _).
  destruct (skip_ws_split t') as (w1 & E1 & Hw1 & _). rewrite Et, str_app_nil_r in E1.
  exists w0, x, t'. split; [rewrite E0, Ex; reflexivity|]. split; [exact Hw0|].
  split; [rewrite E1; exact Hw1|]. apply Hd.
  destruct t' as [|c r]; [exact I|]. rewrite <- E1 in Hw1.
  unfold json_ws in Hw1. cbn [str_all] in Hw1. apply andb_true_iff in Hw1 as [Hc _].
  cbn [delim]. unfold delim_char. rewrite Hc. reflexivity.
Qed.

Lemma JSON_parse_vtext (x : string) (v : json) : vtext x v -> JSON_parse x = Accept v.
Proof.
  intro Hx. unfold JSON_parse.
  destruct (vtext_lead x v Hx) as (c & r & E & (J & _) & _).
  rewrite skip_ws_stop by (rewrite E; exact J).
  rewrite <- (str_app_nil_r x) at 2.
  rewrite (proj1 parser_complete x v Hx "" _ I) by lia. reflexivity.
Qed.

Lemma recover_vtext (T : string) (v : json) :
  JSON_parse T = Accept v -> is_container v = true -> strings_clean v = true ->
  exists x, vtext x v /\ recoverJson T = x.
Proof.
  intros H Hc Hs.
  destruct (JSON_parse_accept T v H) as (w0 & x & t & -> & Hw0 & Ht & Hx).
  destruct (vtext_container x v Hx Hc) as (c0 & mid & c1 & Ex & Hm & Hcc).
  assert (U : is_js_ws c0 = false /\ is_js_ws c1 = false /\ c0 <> "`"%char /\ c1 <> "`"%char /\
              first_root_pos (String c0 (mid ++ String c1 "")) = Some 0 /\
              forall last, scan 0 (mkScan 0 0 false false last) (String c0 (mid ++ String c1 ""))
              = (mkScan 0 0 false false (Z.of_nat (S (0 + String.length mid))),
                 Finished (S (0 + String.length mid)))).
  { destruct Hcc as [[-> ->] | [-> ->]]; (split; [reflexivity|]); (split; [reflexivity|]);
      (split; [discriminate|]); (split; [discriminate|]); (split; [reflexivity|]); intro last.
    - exact (scan_arr_wrap mid Hm 0 0 last 0 ltac:(lia) ltac:(lia)).
    - exact (scan_obj_wrap mid Hm 0 0 last 0 ltac:(lia) ltac:(lia)). }
  destruct U as (W0 & W1 & B0 & B1 & F & Sc).
  rewrite recoverJson_root.
  rewrite (trim_around w0 x t c0 (mid ++ String c1 "")) by
    (exact Ex || exact W0 || apply json_ws_js; assumption).
  rewrite Ex, unfence_trim_wrapped by assumption. rewrite F.
  change (str_drop 0 ?y) with y.
  unfold recover_from_root, scan_init. rewrite Sc.
  cbv beta iota zeta.
  rewrite str_take_all by (simpl; rewrite str_length_app; simpl; lia).
  cbn [negb andb]. rewrite <- Ex, post_process_passes.
  destruct (proj1 vtext_tighten _ _ (proj1 vtext_newline x v Hx) Hs) as (x2 & Hx2 & E2).
  exists x2. split; [exact Hx2|].
  rewrite <- (str_app_nil_r (newline_pass x)).
  rewrite (proj1 vtext_strip _ _ (proj1 vtext_newline x v Hx) Hs ""). cbn [strip_comma_closer_aux].
  rewrite str_app_nil_r, <- (str_app_nil_r (newline_pass x)), E2 by exact follow_nil.
  apply str_app_nil_r.
Qed.

(** C4 (counterexample): valid JSON texts that recovery changes.  The
    scalar text [1] has no root character and becomes [{}]; in
    [qq "[`x,]`]"] the comma pass rewrites the string contents to [x]]; in
    [qq "[` : `]"] the colon pass rewrites them to [:]. *)
Lemma C4_valid_json_changed :
  JSON_parse "1" = Accept (JNum "1") /\ recoverJson "1" = "{}" /\
  JSON_parse (recoverJson "1") = Accept (JObj []) /\
  JSON_parse (qq "[`x,]`]") = Accept (JArr [JStr "x,]"]) /\
  recoverJson (qq "[`x,]`]") = qq "[`x]`]" /\
  JSON_parse (recoverJson (qq "[`x,]`]")) = Accept (JArr [JStr "x]"]) /\
  JSON_parse (qq "[` : `]") = Accept (JArr [JStr " : "]) /\
  recoverJson (qq "[` : `]") = qq "[`:`]" /\
  JSON_parse (recoverJson (qq "[` : `]")) = Accept (JArr [JStr ":"]).
Proof. repeat split; vm_compute; reflexivity. Qed.

(** C4 (amended): for every JSON text whose value is an object or an
    array, with any white space between its tokens, recovery returns a text
    that parses to the same value, as long as no key or string literal
    (quotes included) contains a match of [/,\s*[\]}]/] or of
    [/"\s*:\s*"/]. *)
Theorem C4_identity_up_to_parse (T : string) (v : json)
  (H : JSON_parse T = Accept v) (Hc : is_container v = true)
  (Hs : strings_clean v = true) :
  JSON_parse (recoverJson T) = Accept v.
Proof.
  destruct (recover_vtext T v H Hc Hs) as (x & Hx & ->). apply JSON_parse_vtext, Hx.
Qed.

Lemma C4_identity_up_to_parse_witness :
  let T := qq " { `a` : [1, `x,y`, `p:q`, {`k` :null}] ,`b`:{ } }  " in
  let v := JObj [("a", JArr [JNum "1"; JStr "x,y"; JStr "p:q"; JObj [("k", JNull)]]);
                 ("b", JObj [])] in
  JSON_parse T = Accept v /\ is_container v = true /\ strings_clean v = true /\
  JSON_parse (recoverJson T) = Accept v.
Proof.
  intros T v.
  assert (H : JSON_parse T = Accept v) by (vm_compute; reflexivity).
  assert (Hc : is_container v = true) by reflexivity.
  assert (Hs : strings_clean v = true) by (vm_compute; reflexivity).
  split; [exact H|]. split; [exact Hc|]. split; [exact Hs|].
  exact (C4_identity_up_to_parse T v H Hc Hs).
Defined.

Ltac destruct_string_eqbs :=
  repeat match goal with
         | |- context [String.eqb ?a ?b] => destruct (String.eqb a b)
         end.

(** With a density label of the type [SceneDensity], the lookup is the
    table entry or 8. *)
Lemma keyframe_count_typed (duration density : string)
  (H : is_scene_density density = true) :
  getRequiredKeyframeCount duration density = VNum (spec_requiredKeyframeCount duration density)
  /\ (0 < spec_requiredKeyframeCount duration density)%Z.
Proof.
  unfold is_scene_density in H.
  repeat rewrite orb_true_iff in H.
  destruct H as [[H|H]|H]; apply String.eqb_eq in H; subst density;
    unfold getRequiredKeyframeCount, spec_requiredKeyframeCount;
    generalize (ws_to_underscore (to_lower duration)); intro k;
    match goal with
    | |- context [to_lower ?d] =>
        let v := eval vm_compute in (to_lower d) in change (to_lower d) with v
    end;
    simpl; unfold inherited, object_prototype_member;
    destruct_string_eqbs; simpl; split; try reflexivity; lia.
Qed.

(** C7: for the density labels the caller can pass (the SceneDensity type
    of [UserInput.sceneDensity]: Concise, Standard or Detailed), the lookup
    of any duration label is the spec's: both labels normalised, the table
    entry when row and column are known, 8 otherwise, always a number; in
    particular ("1 Minute", "Standard") and ("17 Minutes", "Extreme") give
    8. *)
Theorem C7_table_or_default :
  (forall duration density, is_scene_density density = true ->
     getRequiredKeyframeCount duration density
     = VNum (spec_requiredKeyframeCount duration density)) /\
  getRequiredKeyframeCount "1 Minute" "Standard" = VNum 8 /\
  getRequiredKeyframeCount "17 Minutes" "Extreme" = VNum 8.
Proof.
  split; [|split; vm_compute; reflexivity].
  intros duration density H. apply (keyframe_count_typed duration density H).
Qed.

Lemma C7_table_or_default_witness :
  is_scene_density "Detailed" = true /\
  getRequiredKeyframeCount "3  MINUTES" "Detailed" = VNum 18 /\
  getRequiredKeyframeCount "constructor" "Standard" = VNum 8.
Proof.
  split; [reflexivity|].
  destruct C7_table_or_default as (G & _ & _).
  split.
  - rewrite (G "3  MINUTES" "Detailed"); [vm_compute; reflexivity | reflexivity].
  - rewrite (G "constructor" "Standard"); [vm_compute; reflexivity | reflexivity].
Defined.

(** ** C6 *)

Lemma gen_parse_failure_after_retry (parse : string -> option json)
  (completion : nat -> response) (input : UserInput) :
  forall fuel r call t, (1 <= r)%nat -> completion call = RText t ->
  parse (cleanJsonString t) = None ->
  gen parse completion fuel input r call = (GErr STRUCTURAL_REPORTED, S call).
Proof.
  intros fuel r call t Hr Hc Hp.
  assert (L : (r <? 1)%nat = false) by (apply Nat.ltb_ge; lia).
  destruct fuel; cbn [gen]; rewrite Hc, Hp, L, quota_like_structural; simpl;
    rewrite handle_structural_failure; reflexivity.
Qed.

(** C6 (counterexample): the recovered text of [qq "{`a`:{`b`:1"] does not
    parse and would parse with one more '}', yet generateMoviePackage does
    not try that: it asks the model again and, given the same text, fails
    after two calls. *)
Lemma C6_no_brace_append_retry :
  JSON_parse (cleanJsonString (Some (qq "{`a`:{`b`:1"))) = Reject /\
  JSON_parse (cleanJsonString (Some (qq "{`a`:{`b`:1")) ++ "}")
  = Accept (JObj [("a", JObj [("b", JNum "1")])]) /\
  generateMoviePackage JSON_parse_opt truncated_completion sample_input
  = (GErr STRUCTURAL_REPORTED, 2).
Proof. repeat split; vm_compute; reflexivity. Qed.

(** C6 (amended): when the recovered text fails to parse, no brace is
    appended: on the first attempt generateMoviePackage calls itself once
    with retryCount 1, which requests a new completion; a parse failure at
    retryCount >= 1 makes no further call and ends in the structural-failure
    error, as passed through handleApiError, which tells the user to shorten
    the script or reduce the density. *)
Theorem C6_parse_failure_regenerates_once (parse : string -> option json)
  (completion : nat -> response) (input : UserInput) (t0 t1 : option string)
  (H0 : completion 0 = RText t0) (P0 : parse (cleanJsonString t0) = None)
  (H1 : completion 1 = RText t1) (P1 : parse (cleanJsonString t1) = None) :
  generateMoviePackage parse completion input = (GErr STRUCTURAL_REPORTED, 2) /\
  (forall fuel r call t, (1 <= r)%nat -> completion call = RText t ->
     parse (cleanJsonString t) = None ->
     gen parse completion fuel input r call = (GErr STRUCTURAL_REPORTED, S call)) /\
  STRUCTURAL_REPORTED =
  "Engine Failure [GENERATE_PACKAGE]: json_structural_failure: response was truncated or invalid. please shorten script or reduce density.".
Proof.
  split; [|split; [exact (gen_parse_failure_after_retry parse completion input)
                  | vm_compute; reflexivity]].
  unfold generateMoviePackage. cbn [gen]. rewrite H0, P0. simpl.
  apply (gen_parse_failure_after_retry parse completion input 4 1 1 t1); auto.
Qed.

Lemma C6_parse_failure_regenerates_once_witness :
  generateMoviePackage JSON_parse_opt truncated_completion sample_input
  = (GErr STRUCTURAL_REPORTED, 2).
Proof.
  refine (proj1 (C6_parse_failure_regenerates_once JSON_parse_opt truncated_completion
                   sample_input (Some (qq "{`a`:{`b`:1")) (Some (qq "{`a`:{`b`:1"))
                   _ _ _ _)); vm_compute; reflexivity.
Defined.

(** ** The normaliser *)

Lemma normalize_ok (data : json) (input : UserInput) (kt sp : jsval) (p : ProductionPackage) :
  normalize data input kt sp = NOk p ->
  exists t,
    data <> JNull /\
    p = mkPackage
          (mkMetadata
             (or_default (json_prop_opt (json_prop data "metadata") "topic")
                         (PStr (substring0 (script input) 30)))
             (or_default (json_prop_opt (json_prop data "metadata") "mood")
                         (PStr "Cinematic"))
             (visualStyle input) (aspectRatio input) (videoDuration input))
          (or_default (json_prop data "seo") default_seo)
          (or_default (json_prop data "story") (PStr (script input)))
          t (js_slice0 (prompts_of data) kt) [] "" "" ""
          (js_get sp "recommended_vst").
Proof.
  unfold normalize, prompts_of. intro H.
  destruct data; try discriminate H; cbv beta iota zeta in H;
    lazymatch type of H with
    | match ?M with None => _ | Some _ => _ end = _ =>
        destruct M as [t|]; [|discriminate H]
    end;
    injection H as <-; exists t; (split; [discriminate | reflexivity]).
Qed.

Lemma map_labels_none (ps : list json) : map_labels ps = None -> In JNull ps.
Proof.
  induction ps as [|q ps IH]; simpl; [discriminate|]. intro H.
  destruct q; try (left; reflexivity);
    (right; apply IH; destruct (map_labels ps); [discriminate H | reflexivity]).
Qed.

Lemma normalize_throw (data : json) (input : UserInput) (kt sp : jsval) (m : string) :
  normalize data input kt sp = NThrow m ->
  (data = JNull /\ m = null_data_error) \/
  (m = null_label_error /\ In JNull (js_slice0 (prompts_of data) kt)).
Proof.
  unfold normalize, prompts_of. intro H.
  destruct data; [injection H as <-; left; auto| idtac ..]; cbv beta iota zeta in H;
    right;
    lazymatch type of H with
    | match ?M with None => _ | Some _ => _ end = _ =>
        destruct M eqn:E; [discriminate H|]
    end;
    injection H as <-; (split; [reflexivity|]);
    lazymatch type of E with
    | match ?J with Some _ => _ | None => _ end = None => destruct J as [j|]
    end;
    cbv beta iota in E; try destruct (json_truthy j); try discriminate E;
    lazymatch type of E with
    | option_map _ (map_labels ?l) = None =>
        destruct (map_labels l) eqn:E2; [discriminate E|]
    end;
    apply map_labels_none; assumption.
Qed.

Lemma or_default_falsy (o : option json) (d : pval) :
  falsy_or_absent o = true -> or_default o d = d.
Proof.
  destruct o as [j|]; simpl; [|reflexivity].
  destruct (json_truthy j); [discriminate | reflexivity].
Qed.

Lemma js_slice0_nonneg {A} (xs : list A) (n : Z) :
  (0 <= n)%Z -> js_slice0 xs (VNum n) = firstn (Z.to_nat n) xs.
Proof.
  intro Hn. unfold js_slice0, to_integer, to_number.
  destruct (Z.ltb_spec n 0); [lia|].
  destruct (Z.le_ge_cases n (Z.of_nat (length xs))) as [L|L].
  - rewrite Z.min_l by lia. reflexivity.
  - rewrite Z.min_r by lia. rewrite Nat2Z.id.
    rewrite firstn_all, firstn_all2; [reflexivity|]. lia.
Qed.

(** ** C8 *)

(** C8 (code bug): when a package is returned for a request whose density
    has the type SceneDensity, its visualPrompts is the prefix of the
    parsed array of the required length (all of it when shorter); but a
    parsed array holding [null] entries, with no keyframe_plan_titles,
    makes the normaliser throw while deriving the scene labels, so no
    package is returned. *)
Theorem C8_prefix_or_null_label_crash :
  (forall data input sp p,
     is_scene_density (sceneDensity input) = true ->
     normalize data input
       (getRequiredKeyframeCount (videoDuration input) (sceneDensity input)) sp = NOk p ->
     visualPrompts p
     = firstn (Z.to_nat (spec_requiredKeyframeCount (videoDuration input) (sceneDensity input)))
              (prompts_of data) /\
     (Z.of_nat (length (visualPrompts p))
      <= spec_requiredKeyframeCount (videoDuration input) (sceneDensity input))%Z) /\
  getRequiredKeyframeCount (videoDuration sample_input) (sceneDensity sample_input) = VNum 8 /\
  length (prompts_of null_prompts) = 12%nat /\
  normalize null_prompts sample_input
    (getRequiredKeyframeCount (videoDuration sample_input) (sceneDensity sample_input))
    (resolve_style (visualStyle sample_input)) = NThrow null_label_error /\
  generateMoviePackage JSON_parse_opt null_prompts_completion sample_input
  = (GErr "Engine Failure [GENERATE_PACKAGE]: cannot read properties of null (reading 'label')", 1%nat).
Proof.
  split; [|repeat split; vm_compute; reflexivity].
  intros data input sp p Hd H.
  destruct (keyframe_count_typed (videoDuration input) (sceneDensity input) Hd) as [E Pos].
  rewrite E in H. apply normalize_ok in H as (t & _ & ->). simpl.
  rewrite js_slice0_nonneg by lia. split; [reflexivity|].
  rewrite length_firstn. lia.
Qed.

Lemma C8_prefix_or_null_label_crash_witness :
  is_scene_density "Standard" = true /\
  visualPrompts
    match normalize (JObj [("visualPrompts", JArr (repeat (JNum "1") 12))]) sample_input
            (getRequiredKeyframeCount "1 Minute" "Standard") (resolve_style "Cyberpunk") with
    | NOk p => p
    | NThrow _ => mkPackage (mkMetadata (PStr "") (PStr "") "" "" "") default_seo
                            (PStr "") (PStr "") [] [] "" "" "" VUndef
    end = repeat (JNum "1") 8.
Proof.
  split; [reflexivity|].
  destruct C8_prefix_or_null_label_crash as [G _].
  destruct (normalize (JObj [("visualPrompts", JArr (repeat (JNum "1") 12))]) sample_input
              (getRequiredKeyframeCount "1 Minute" "Standard") (resolve_style "Cyberpunk"))
    as [p|m] eqn:E; [|vm_compute in E; discriminate E].
  destruct (G _ sample_input _ p (eq_refl true) E) as [V _].
  rewrite V. vm_compute. reflexivity.
Defined.

(** ** C9 *)

(** C9 (counterexample): a present but empty seo object is truthy and is
    kept as it is, so the package's seo has no bestTitle; the default
    record with bestTitle "Untitled" is used only when seo is absent or
    falsy. *)
Lemma C9_present_seo_not_defaulted :
  match normalize (JObj [("seo", JObj [])]) sample_input (VNum 8) (resolve_style "Cyberpunk") with
  | NOk p => seo p = PJson (JObj [])
  | NThrow _ => False
  end /\
  json_prop (JObj []) "bestTitle" = None.
Proof. split; vm_compute; reflexivity. Qed.

(** C9 (amended): the normaliser throws only on a [null] completion or when
    a [null] entry of the kept visualPrompts must be labelled; when it
    returns a package, a falsy or absent metadata.topic, metadata.mood, story
    or seo is replaced by the first 30 characters of the script, "Cinematic",
    the script, or the default seo record (bestTitle "Untitled", altTitles
    []) respectively (falsy as JavaScript reads the parsed value: a number
    such as 1e-400 that parses to 0 is falsy); a truthy seo is kept as it
    is, whatever its members;
    a missing or non-array visualPrompts gives []; the empty object {} gives
    the package of defaults. *)
Theorem C9_defaults_for_absent_fields (data : json) (input : UserInput) (kt sp : jsval)
  (p : ProductionPackage) (H : normalize data input kt sp = NOk p) :
  (falsy_or_absent (json_prop_opt (json_prop data "metadata") "topic") = true ->
     topic (metadata p) = PStr (substring0 (script input) 30)) /\
  (falsy_or_absent (json_prop_opt (json_prop data "metadata") "mood") = true ->
     mood (metadata p) = PStr "Cinematic") /\
  (falsy_or_absent (json_prop data "story") = true -> story p = PStr (script input)) /\
  (falsy_or_absent (json_prop data "seo") = true -> seo p = default_seo) /\
  (forall j, json_prop data "seo" = Some j -> json_truthy j = true -> seo p = PJson j) /\
  (prompts_of data = [] -> visualPrompts p = []) /\
  (forall data' m, normalize data' input kt sp = NThrow m ->
     (data' = JNull /\ m = null_data_error) \/
     (m = null_label_error /\ In JNull (js_slice0 (prompts_of data') kt))) /\
  normalize (JObj []) input kt sp =
  NOk (mkPackage (mkMetadata (PStr (substring0 (script input) 30)) (PStr "Cinematic")
                             (visualStyle input) (aspectRatio input) (videoDuration input))
                 default_seo (PStr (script input)) (PList []) [] [] "" "" ""
                 (js_get sp "recommended_vst")).
Proof.
  apply normalize_ok in H as (t & _ & ->). cbn [metadata topic mood story seo visualPrompts].
  split; [apply or_default_falsy|].
  split; [apply or_default_falsy|].
  split; [apply or_default_falsy|].
  split; [apply or_default_falsy|].
  split; [intros j E T; rewrite E; simpl; rewrite T; reflexivity|].
  split; [intros E; rewrite E; unfold js_slice0; rewrite firstn_nil; reflexivity|].
  split; [intros data' m; apply normalize_throw|].
  unfold normalize, js_slice0. rewrite firstn_nil. reflexivity.
Qed.

Lemma C9_defaults_for_absent_fields_witness :
  match normalize (JObj [("seo", JNum "1e-400"); ("story", JStr "")]) sample_input (VNum 8)
          (resolve_style "Cyberpunk") with
  | NOk p => seo p = default_seo /\ story p = PStr (script sample_input)
  | NThrow _ => False
  end.
Proof.
  destruct (normalize (JObj [("seo", JNum "1e-400"); ("story", JStr "")]) sample_input (VNum 8)
              (resolve_style "Cyberpunk")) as [p|m] eqn:E; [|vm_compute in E; discriminate E].
  destruct (C9_defaults_for_absent_fields _ _ _ _ p E) as (_ & _ & St & Se & _).
  split; [apply Se | apply St]; vm_compute; reflexivity.
Defined.

(** ** C10 *)

Lemma normalize_request_fields (data : json) (input : UserInput) (kt sp : jsval)
  (p : ProductionPackage) :
  normalize data input kt sp = NOk p ->
  md_visualStyle (metadata p) = visualStyle input /\
  md_aspectRatio (metadata p) = aspectRatio input /\
  md_duration (metadata p) = videoDuration input /\
  cst p = "" /\ bst p = "" /\ gst p = "" /\
  vst p = js_get sp "recommended_vst".
Proof.
  intro H. apply normalize_ok in H as (t & _ & ->). repeat split.
Qed.

Lemma gen_ok_normalized (parse : string -> option json) (completion : nat -> response)
  (input : UserInput) :
  forall fuel r call p n,
  gen parse completion fuel input r call = (GOk p, n) ->
  exists data,
    normalize data input
      (getRequiredKeyframeCount (videoDuration input) (sceneDensity input))
      (resolve_style (visualStyle input)) = NOk p.
Proof.
  induction fuel as [|f IH]; intros r call p n H; cbn [gen] in H;
    destruct (completion call) as [t|m];
    try destruct (parse (cleanJsonString t)) as [data|];
    try (destruct (normalize data input _ _) as [q|m] eqn:E;
         [injection H as -> _; exists data; exact E|]);
    repeat match type of H with
           | context [if ?b then _ else _] => destruct b
           end;
    try discriminate H; eapply IH; exact H.
Qed.

(** C10: for one request, any two successful runs of generateMoviePackage,
    whatever the model's completions, agree on metadata.visualStyle,
    metadata.aspectRatio, metadata.duration, cst, bst, gst and vst: the
    first three are the request's, cst, bst and gst are empty and vst is
    the recommended_vst of the resolved preset. *)
Theorem C10_request_fields_independent_of_completion (parse : string -> option json)
  (c1 c2 : nat -> response) (input : UserInput) (p1 p2 : ProductionPackage) (n1 n2 : nat)
  (H1 : generateMoviePackage parse c1 input = (GOk p1, n1))
  (H2 : generateMoviePackage parse c2 input = (GOk p2, n2)) :
  md_visualStyle (metadata p1) = md_visualStyle (metadata p2) /\
  md_aspectRatio (metadata p1) = md_aspectRatio (metadata p2) /\
  md_duration (metadata p1) = md_duration (metadata p2) /\
  cst p1 = cst p2 /\ bst p1 = bst p2 /\ gst p1 = gst p2 /\ vst p1 = vst p2 /\
  md_visualStyle (metadata p1) = visualStyle input /\
  md_aspectRatio (metadata p1) = aspectRatio input /\
  md_duration (metadata p1) = videoDuration input /\
  cst p1 = "" /\ bst p1 = "" /\ gst p1 = "" /\
  vst p1 = js_get (resolve_style (visualStyle input)) "recommended_vst".
Proof.
  destruct (gen_ok_normalized parse c1 input 5 0 0 p1 n1 H1) as [d1 E1].
  destruct (gen_ok_normalized parse c2 input 5 0 0 p2 n2 H2) as [d2 E2].
  destruct (normalize_request_fields _ _ _ _ _ E1) as (A1 & B1 & C1 & D1 & F1 & G1 & V1).
  destruct (normalize_request_fields _ _ _ _ _ E2) as (A2 & B2 & C2 & D2 & F2 & G2 & V2).
  rewrite A1, B1, C1, D1, F1, G1, V1, A2, B2, C2, D2, F2, G2, V2.
  repeat split.
Qed.

Lemma C10_request_fields_independent_of_completion_witness :
  match generateMoviePackage JSON_parse_opt completion_empty sample_input,
        generateMoviePackage JSON_parse_opt completion_rich sample_input with
  | (GOk p1, _), (GOk p2, _) =>
      topic (metadata p1) <> topic (metadata p2) /\ vst p1 = vst p2 /\
      vst p1 = VStr "VST_12 Neon Night City"
  | _, _ => False
  end.
Proof.
  destruct (generateMoviePackage JSON_parse_opt completion_empty sample_input)
    as [[p1|m1] n1] eqn:E1; [|vm_compute in E1; discriminate E1].
  destruct (generateMoviePackage JSON_parse_opt completion_rich sample_input)
    as [[p2|m2] n2] eqn:E2; [|vm_compute in E2; discriminate E2].
  destruct (C10_request_fields_independent_of_completion _ _ _ _ _ _ _ _ E1 E2)
    as (_ & _ & _ & _ & _ & _ & V & _ & _ & _ & _ & _ & _ & R).
  split; [|split; [exact V|]].
  - vm_compute in E1. vm_compute in E2. injection E1 as <- _. injection E2 as <- _.
    vm_compute. discriminate.
  - rewrite R. vm_compute. reflexivity.
Defined.

(* ------------------------------------------------------------------ *)
(** ** The other services and the rest of generateMoviePackage *)

Lemma first_root_pos_drop (u : string) (i : nat) :
  first_root_pos u = Some i -> starts_with_root (str_drop i u) = true.
Proof.
  revert i. induction u as [|c u IH]; intros i H; [discriminate H|].
  simpl in H. destruct (Ascii.eqb c c_lbrace || Ascii.eqb c c_lbrack) eqn:E.
  - injection H as <-. exact E.
  - destruct (first_root_pos u) as [j|] eqn:F; [|discriminate H].
    injection H as <-. apply IH. reflexivity.
Qed.

Lemma root_char_cases (c : ascii) (r : string) :
  starts_with_root (String c r) = true -> c = c_lbrace \/ c = c_lbrack.
Proof.
  simpl. intro H. apply orb_true_iff in H as [H|H]; apply Ascii.eqb_eq in H; auto.
Qed.

Lemma post_process_lead (c : ascii) (r : string) :
  c = c_lbrace \/ c = c_lbrack -> exists r', post_process (String c r) = String c r'.
Proof.
  intros [-> | ->]; eexists; reflexivity.
Qed.

Lemma strip_trailing_comma_lead (c : ascii) (y : string) :
  c = c_lbrace \/ c = c_lbrack -> exists z, strip_trailing_comma (String c y) = String c z.
Proof.
  intro Hc. unfold strip_trailing_comma.
  destruct (ends_with "," (String c y)) eqn:E; [|eexists; reflexivity].
  destruct y as [|d y].
  - destruct Hc as [-> | ->]; discriminate E.
  - simpl String.length. replace (S (S (String.length y)) - 1)%nat with (S (String.length y)) by lia.
    eexists; reflexivity.
Qed.

Lemma trim_end_lead (c : ascii) (x : string) :
  is_js_ws c = false -> exists y, trim_end (String c x) = String c y.
Proof.
  intro W. simpl. destruct (trim_end x); [rewrite W|]; eexists; reflexivity.
Qed.

Lemma recover_from_root_lead (c : ascii) (r : string) :
  c = c_lbrace \/ c = c_lbrack -> exists r', recover_from_root (String c r) = String c r'.
Proof.
  intro Hc. unfold recover_from_root.
  destruct (scan 0 scan_init (String c r)) as [st ex].
  assert (W : is_js_ws c = false) by (destruct Hc as [-> | ->]; reflexivity).
  assert (R : forall x, exists x', repair (lastSafePoint st) (String c x) = String c x').
  { intro x. unfold repair. destruct (negb (lastSafePoint st =? -1)%Z).
    - rewrite Nat.add_1_r. cbn [str_take].
      destruct (trim_end_lead c (str_take (Z.to_nat (lastSafePoint st)) x) W) as [y Hy].
      unfold trim. rewrite trim_start_lead by exact W. rewrite Hy.
      destruct (strip_trailing_comma_lead c y Hc) as [z Hz]. rewrite Hz.
      destruct (balance 0 0 (String c z)). eexists; reflexivity.
    - destruct (ends_with "}" (String c x)); eexists; reflexivity. }
  destruct ex as [i| |]; cbv beta iota zeta.
  - cbn [str_take]. apply post_process_lead. exact Hc.
  - match goal with |- context [if ?b then _ else _] => destruct b end;
      [destruct (R r) as [x' ->]|]; apply post_process_lead; exact Hc.
  - match goal with |- context [if ?b then _ else _] => destruct b end;
      [destruct (R r) as [x' ->]|]; apply post_process_lead; exact Hc.
Qed.

Lemma clean_starts_with_root (t : option string) : starts_with_root (cleanJsonString t) = true.
Proof.
  destruct t as [t|]; [|reflexivity].
  change (cleanJsonString (Some t)) with (recoverJson t). rewrite recoverJson_root.
  destruct (first_root_pos (unfence (trim t))) as [i|] eqn:F; [|reflexivity].
  pose proof (first_root_pos_drop _ _ F) as H.
  destruct (str_drop i (unfence (trim t))) as [|c r]; [discriminate H|].
  destruct (recover_from_root_lead c r (root_char_cases c r H)) as [r' ->]. exact H.
Qed.

Lemma parse_root_container (s : string) (v : json) :
  starts_with_root s = true -> JSON_parse s = Accept v -> is_container v = true.
Proof.
  destruct s as [|c r]; [discriminate|]. intro H.
  destruct (root_char_cases c r H) as [-> | ->]; unfold JSON_parse;
    cbn [String.length]; replace (3 * S (String.length r) + 3)%nat
      with (S (3 * String.length r + 5))%nat by lia; cbn [skip_json_ws parse_value];
    unfold c_lbrace, c_lbrack;
    repeat (match goal with
           | |- context [is_json_ws ?c] => change (is_json_ws c) with false
           | |- context [Ascii.eqb ?a ?b] =>
               let v := eval vm_compute in (Ascii.eqb a b) in change (Ascii.eqb a b) with v
           end; cbv iota).
  - lazymatch goal with |- context [parse_members ?n ?x] =>
      destruct (parse_members n x) as [ms t| |]; try discriminate end.
    lazymatch goal with |- context [String.eqb ?a ?b] => destruct (String.eqb a b) end;
      intro E; inversion E; reflexivity.
  - lazymatch goal with |- context [parse_items ?n ?x] =>
      destruct (parse_items n x) as [xs t| |]; try discriminate end.
    lazymatch goal with |- context [String.eqb ?a ?b] => destruct (String.eqb a b) end;
      intro E; inversion E; reflexivity.
Qed.

Lemma lower_char_idem (c : ascii) : lower_char (lower_char c) = lower_char c.
Proof. destruct c as [[] [] [] [] [] [] [] []]; vm_compute; reflexivity. Qed.

Lemma lower_char_brace (c : ascii) : (lower_char c = "{"%char) <-> c = "{"%char.
Proof.
  split; [|intros ->; reflexivity].
  destruct c as [[] [] [] [] [] [] [] []]; vm_compute; intro H; first [reflexivity | discriminate H].
Qed.

Lemma to_lower_idem (s : string) : to_lower (to_lower s) = to_lower s.
Proof. induction s as [|c s IH]; simpl; [reflexivity|]. rewrite lower_char_idem, IH. reflexivity. Qed.

Lemma prefix_brace_to_lower (s : string) :
  String.prefix "{" (to_lower s) = String.prefix "{" s.
Proof.
  destruct s as [|c s]; [reflexivity|]. cbn [to_lower String.prefix].
  destruct (ascii_dec "{" (lower_char c)) as [E|E], (ascii_dec "{" c) as [F|F].
  - destruct (to_lower s); destruct s; reflexivity.
  - exfalso. apply F. symmetry. apply lower_char_brace. symmetry. exact E.
  - exfalso. apply E. subst c. reflexivity.
  - reflexivity.
Qed.

Lemma prefix_to_lower (sub s : string) :
  String.prefix sub s = true -> String.prefix (to_lower sub) (to_lower s) = true.
Proof.
  revert s. induction sub as [|a sub IH]; intros s H; [destruct (to_lower s); reflexivity|].
  destruct s as [|b s]; [discriminate H|]. cbn [String.prefix to_lower] in H |- *.
  destruct (ascii_dec a b) as [<-|_]; [|discriminate H].
  destruct (ascii_dec (lower_char a) (lower_char a)) as [_|N]; [|congruence]. apply IH. exact H.
Qed.

Lemma includes_to_lower (s sub : string) :
  includes s sub = true -> includes (to_lower s) (to_lower sub) = true.
Proof.
  induction s as [|c s IH]; intro H.
  - simpl in H |- *. destruct sub; [reflexivity | discriminate H].
  - simpl in H. apply orb_true_iff in H as [H|H].
    + pose proof (prefix_to_lower sub (String c s) H) as P.
      change (to_lower (String c s)) with (String (lower_char c) (to_lower s)) in P |- *.
      cbn [includes]. rewrite P. reflexivity.
    + change (to_lower (String c s)) with (String (lower_char c) (to_lower s)).
      cbn [includes]. rewrite IH by exact H. apply orb_true_r.
Qed.

Lemma api_error_msg_plain (parse : string -> option json) (m : string) :
  String.prefix "{" m = false -> api_error_msg parse m = to_lower m.
Proof. intro H. unfold api_error_msg. rewrite H. reflexivity. Qed.

(** handleApiError (lines 26-50) classifies a message that does not start with ['{'] by its lower-cased text only: the message and its lower-cased form are reported alike. *)
Theorem handleApiError_case_insensitive (parse : string -> option json) (m task : string)
  (H : String.prefix "{" m = false) :
  handleApiError parse m task = handleApiError parse (to_lower m) task.
Proof.
  unfold handleApiError.
  rewrite (api_error_msg_plain parse m H).
  rewrite (api_error_msg_plain parse (to_lower m)) by (rewrite prefix_brace_to_lower; exact H).
  rewrite to_lower_idem. reflexivity.
Qed.

Lemma handleApiError_case_insensitive_witness :
  handleApiError JSON_parse_opt "Rate LIMIT hit" "GENERATE_IMAGE"
  = handleApiError JSON_parse_opt (to_lower "Rate LIMIT hit") "GENERATE_IMAGE".
Proof. apply handleApiError_case_insensitive. reflexivity. Defined.

Lemma quota_like_handled (parse : string -> option json) (m task : string) :
  quota_like m = true -> String.prefix "{" m = false -> handleApiError parse m task = QUOTA_MESSAGE.
Proof.
  intros Q H. unfold handleApiError. rewrite (api_error_msg_plain parse m H).
  unfold quota_like in Q. apply orb_true_iff in Q as [Q|Q]; [apply orb_true_iff in Q as [Q|Q]|];
    apply includes_to_lower in Q.
  - change (to_lower "429") with "429" in Q. rewrite Q. reflexivity.
  - change (to_lower "QUOTA") with "quota" in Q. rewrite Q, orb_true_r. reflexivity.
  - change (to_lower "RESOURCE_EXHAUSTED") with "resource_exhausted" in Q.
    rewrite Q, !orb_true_r. reflexivity.
Qed.

(** Every error message that the retry test of line 322 accepts (it contains [429], [QUOTA] or [RESOURCE_EXHAUSTED]) and that does not start with ['{'] is reported by handleApiError as the quota-exhausted error. *)
Theorem quota_retry_reported_as_quota (parse : string -> option json) (m task : string)
  (Hq : quota_like m = true) (Hb : String.prefix "{" m = false) :
  handleApiError parse m task = QUOTA_MESSAGE.
Proof. exact (quota_like_handled parse m task Hq Hb). Qed.

Lemma quota_retry_reported_as_quota_witness :
  handleApiError JSON_parse_opt "Error: RESOURCE_EXHAUSTED" "GENERATE_PACKAGE" = QUOTA_MESSAGE.
Proof. apply quota_retry_reported_as_quota; vm_compute; reflexivity. Defined.

(** cleanJsonString always returns a text whose first character is ['{'] or ['[']. *)
Theorem cleanJsonString_root (t : option string) : starts_with_root (cleanJsonString t) = true.
Proof. exact (clean_starts_with_root t). Qed.

Section GenProps.
Variable parse : string -> option json.
Variable completion : nat -> response.
Variable input : UserInput.

Lemma gen_quota_step (f r c : nat) (m : string) :
  completion c = RThrow m -> quota_like m = true -> (r < 5)%nat ->
  gen parse completion (S f) input r c = gen parse completion f input (S r) (S c).
Proof.
  intros Hc Hq Hr. cbn [gen]. rewrite Hc, Hq.
  replace (r <? 5)%nat with true by (symmetry; apply Nat.ltb_lt; exact Hr). reflexivity.
Qed.

Lemma gen_quota_prefix (k : nat) :
  forall f r c,
  (forall i, (i < k)%nat -> exists m, completion (c + i) = RThrow m /\ quota_like m = true) ->
  (r + k <= 5)%nat -> (k <= f)%nat ->
  gen parse completion f input r c = gen parse completion (f - k) input (r + k) (c + k).
Proof.
  induction k as [|k IH]; intros f r c Hq Hr Hf.
  - rewrite Nat.sub_0_r, !Nat.add_0_r. reflexivity.
  - destruct f as [|f]; [lia|].
    destruct (Hq 0%nat ltac:(lia)) as [m [Hc Hm]]. rewrite Nat.add_0_r in Hc.
    rewrite (gen_quota_step f r c m Hc Hm ltac:(lia)).
    rewrite (IH f (S r) (S c)).
    + replace (S r + k)%nat with (r + S k)%nat by lia.
      replace (S c + k)%nat with (c + S k)%nat by lia. reflexivity.
    + intros i Hi. destruct (Hq (S i) ltac:(lia)) as [m' H']. exists m'.
      replace (S c + i)%nat with (c + S i)%nat by lia. exact H'.
    + lia.
    + lia.
Qed.

Lemma gen_fuel_S : forall f r c, (5 - r <= f)%nat ->
  gen parse completion (S f) input r c = gen parse completion f input r c.
Proof.
  induction f as [|f IH]; intros r c Hf.
  - assert (A : (r <? 5)%nat = false) by (apply Nat.ltb_ge; lia).
    assert (B : (r <? 1)%nat = false) by (apply Nat.ltb_ge; lia).
    cbn [gen]. rewrite A, B.
    destruct (completion c); [destruct (parse _); [destruct (normalize _ _ _ _)|]|];
      rewrite ?andb_false_r; reflexivity.
  - cbn [gen].
    destruct (completion c) as [t|m].
    + destruct (parse (cleanJsonString t)) as [data|].
      * destruct (normalize _ _ _ _) as [p|m]; [reflexivity|].
        destruct (quota_like m && (r <? 5)%nat) eqn:E; [|reflexivity].
        apply andb_true_iff in E as [_ E]. apply Nat.ltb_lt in E.
        apply IH. lia.
      * destruct (r <? 1)%nat eqn:E.
        -- apply Nat.ltb_lt in E. apply IH. lia.
        -- rewrite quota_like_structural. reflexivity.
    + destruct (quota_like m && (r <? 5)%nat) eqn:E; [|reflexivity].
      apply andb_true_iff in E as [_ E]. apply Nat.ltb_lt in E.
      apply IH. lia.
Qed.

Lemma gen_fuel_enough : forall d f r c, (5 - r <= f)%nat ->
  gen parse completion (d + f) input r c = gen parse completion f input r c.
Proof.
  induction d as [|d IH]; intros f r c Hf; [reflexivity|].
  change (S d + f)%nat with (S (d + f)). rewrite gen_fuel_S by lia. apply IH. exact Hf.
Qed.

Lemma gen_calls : forall f r c,
  (c < snd (gen parse completion f input r c) <= c + S f)%nat.
Proof.
  induction f as [|f IH]; intros r c.
  - cbn [gen]. destruct (completion c); [destruct (parse _); [destruct (normalize _ _ _ _)|]|];
      repeat match goal with |- context [if ?b then _ else _] => destruct b end; simpl; lia.
  - cbn [gen]. destruct (completion c); [destruct (parse _); [destruct (normalize _ _ _ _)|]|];
      repeat match goal with |- context [if ?b then _ else _] => destruct b end; simpl;
      try lia; specialize (IH (S r) (S c)); lia.
Qed.

End GenProps.

(** When every model call throws a quota-like error (not JSON-wrapped), generateMoviePackage makes six calls (the first and five retries) and reports the quota-exhausted error. *)
Theorem movie_quota_exhaustion (parse : string -> option json) (completion : nat -> response)
  (input : UserInput)
  (Hq : forall c, (c <= 5)%nat ->
        exists m, completion c = RThrow m /\ quota_like m = true /\ String.prefix "{" m = false) :
  generateMoviePackage parse completion input = (GErr QUOTA_MESSAGE, 6%nat).
Proof.
  unfold generateMoviePackage.
  rewrite (gen_quota_prefix parse completion input 5 5 0 0); simpl; try lia.
  - destruct (Hq 5%nat ltac:(lia)) as [m [Hc [Hm Hb]]].
    cbn [gen]. rewrite Hc, Hm. simpl.
    rewrite (quota_like_handled parse m _ Hm Hb). reflexivity.
  - intros i Hi. destruct (Hq i ltac:(lia)) as [m [Hc [Hm _]]]. exists m. auto.
Qed.

Lemma movie_quota_exhaustion_witness :
  generateMoviePackage JSON_parse_opt (fun _ => RThrow "429 RESOURCE_EXHAUSTED") sample_input
  = (GErr QUOTA_MESSAGE, 6%nat).
Proof.
  apply movie_quota_exhaustion. intros c _. exists "429 RESOURCE_EXHAUSTED".
  split; [reflexivity | split; vm_compute; reflexivity].
Defined.

(** Quota retries do not reset the structural retry: after [k >= 1] quota failures, an answer whose recovered text does not parse ends generateMoviePackage at once with the structural-failure error, after [k + 1] calls. *)
Theorem movie_quota_then_structural (parse : string -> option json)
  (completion : nat -> response) (input : UserInput) (k : nat) (t : option string)
  (Hk : (1 <= k <= 5)%nat)
  (Hq : forall c, (c < k)%nat -> exists m, completion c = RThrow m /\ quota_like m = true)
  (Ht : completion k = RText t) (Hp : parse (cleanJsonString t) = None) :
  generateMoviePackage parse completion input = (GErr STRUCTURAL_REPORTED, S k).
Proof.
  unfold generateMoviePackage.
  rewrite (gen_quota_prefix parse completion input k 5 0 0); simpl; try lia.
  - apply (gen_parse_failure_after_retry parse completion input _ _ _ t); assumption || lia.
  - exact Hq.
Qed.

Lemma movie_quota_then_structural_witness :
  generateMoviePackage JSON_parse_opt
    (fun c => if (c <? 2)%nat then RThrow "429" else RText (Some (qq "{`a`:{`b`:1"))) sample_input
  = (GErr STRUCTURAL_REPORTED, 3%nat).
Proof.
  apply (movie_quota_then_structural _ _ _ 2 (Some (qq "{`a`:{`b`:1"))).
  - lia.
  - intros c Hc. exists "429". split; [|reflexivity].
    destruct c as [|[|c]]; [reflexivity | reflexivity | lia].
  - reflexivity.
  - vm_compute. reflexivity.
Defined.

(** A thrown error that the case-sensitive retry test of line 322 rejects is not retried: generateMoviePackage reports it through handleApiError after one call (even when handleApiError, which lower-cases, reports it as quota exhaustion). *)
Theorem movie_unretried_error (parse : string -> option json) (completion : nat -> response)
  (input : UserInput) (m : string)
  (Hc : completion 0%nat = RThrow m) (Hq : quota_like m = false) :
  generateMoviePackage parse completion input
  = (GErr (handleApiError parse m "GENERATE_PACKAGE"), 1%nat).
Proof. unfold generateMoviePackage. cbn [gen]. rewrite Hc, Hq. reflexivity. Qed.

Lemma movie_unretried_error_witness :
  generateMoviePackage JSON_parse_opt (fun _ => RThrow "Quota exceeded for this project")
    sample_input = (GErr QUOTA_MESSAGE, 1%nat).
Proof.
  rewrite (movie_unretried_error _ _ _ "Quota exceeded for this project");
    [vm_compute; reflexivity | reflexivity | vm_compute; reflexivity].
Defined.

(** The number of model calls of generateMoviePackage: with [API_KEY] set to a non-empty string it makes between one and six; unset or empty, it rejects with the missing-key error of getAiClient before any call. *)
Theorem movie_call_count (apiKey : option string) (parse : string -> option json)
  (completion : nat -> response) (input : UserInput) :
  (forall k, apiKey = Some k -> k <> "" ->
     (1 <= snd (generateMoviePackage_env apiKey parse completion input) <= 6)%nat) /\
  (apiKey = None \/ apiKey = Some "" ->
     generateMoviePackage_env apiKey parse completion input = (GErr KEY_NOT_FOUND, 0%nat)).
Proof.
  unfold generateMoviePackage_env, getAiClient. split.
  - intros k -> Hk. apply String.eqb_neq in Hk. rewrite Hk.
    pose proof (gen_calls parse completion input 5 0 0). unfold generateMoviePackage. lia.
  - intros [-> | ->]; reflexivity.
Qed.

Lemma movie_call_count_witness :
  (1 <= snd (generateMoviePackage_env (Some "key") JSON_parse_opt truncated_completion
               sample_input) <= 6)%nat /\
  generateMoviePackage_env None JSON_parse_opt truncated_completion sample_input
  = (GErr KEY_NOT_FOUND, 0%nat).
Proof.
  split.
  - apply (proj1 (movie_call_count (Some "key") JSON_parse_opt truncated_completion sample_input)
             "key"); [reflexivity | discriminate].
  - apply (proj2 (movie_call_count None JSON_parse_opt truncated_completion sample_input)).
    left. reflexivity.
Defined.

(** A package returned by generateMoviePackage has as [vst] the [recommended_vst] of the style preset resolved from the request's visual style. *)
Theorem movie_vst_from_style (parse : string -> option json) (completion : nat -> response)
  (input : UserInput) (p : ProductionPackage)
  (H : fst (generateMoviePackage parse completion input) = GOk p) :
  vst p = js_get (resolve_style (visualStyle input)) "recommended_vst".
Proof.
  unfold generateMoviePackage in H.
  destruct (gen parse completion 5 input 0 0) as [g n] eqn:E. simpl in H. subst g.
  destruct (gen_ok_normalized parse completion input 5 0 0 p n E) as [data Hn].
  destruct (normalize_ok _ _ _ _ _ Hn) as [t [_ ->]]. reflexivity.
Qed.

Lemma movie_vst_from_style_witness :
  exists p, fst (generateMoviePackage JSON_parse_opt (fun _ => RText (Some "{}")) sample_input)
            = GOk p /\ vst p = VStr "VST_12 Neon Night City".
Proof.
  eexists. split; [reflexivity|].
  rewrite (movie_vst_from_style JSON_parse_opt (fun _ => RText (Some "{}")) sample_input);
    reflexivity.
Defined.

Lemma assoc_not_in {A} (k : string) (l : list (string * A)) :
  ~ In k (map fst l) -> assoc k l = None.
Proof.
  induction l as [|[k' v] l IH]; simpl; intro H; [reflexivity|].
  destruct (String.eqb_spec k k') as [->|N]; [exfalso; apply H; left; reflexivity|].
  apply IH. intro I. apply H. right. exact I.
Qed.

Lemma object_prototype_member_fun (k : string) (v : jsval) :
  object_prototype_member k = Some v -> exists n a, v = VFun n a.
Proof.
  unfold object_prototype_member. intro H.
  repeat match type of H with
         | (if ?b then _ else _) = _ => destruct b
         end; try discriminate H; injection H as <-; eauto.
Qed.

(** The style lookup of line 234: a preset name gives its own entry of the preset table, a preset record; another name that is neither a member of [Object.prototype] nor [__proto__] gives the Studio Ghibli preset; a prototype member name or [__proto__] gives a value whose [image_style], [video_style] and [recommended_vst] are undefined. *)
Theorem resolve_style_cases (name : string) :
  (In name preset_names ->
   exists i v r, preset_entry name = Some (preset i v r) /\
                 resolve_style name = preset i v r) /\
  (~ In name preset_names -> object_prototype_member name = None -> name <> "__proto__" ->
   resolve_style name = resolve_style "Studio Ghibli") /\
  (~ In name preset_names -> (object_prototype_member name <> None \/ name = "__proto__") ->
   forall f, In f ["image_style"; "video_style"; "recommended_vst"] ->
   js_get (resolve_style name) f = VUndef).
Proof.
  split; [|split].
  - intro H. unfold preset_names in H. simpl in H.
    repeat (destruct H as [<-|H]; [do 3 eexists; split; vm_compute; reflexivity|]). destruct H.
  - intros H Hp Hn. unfold resolve_style, js_get at 1. unfold preset_names in H.
    unfold VISUAL_STYLE_PRESETS in H |- *. rewrite (assoc_not_in _ _ H).
    apply String.eqb_neq in Hn. rewrite Hn. unfold inherited. rewrite Hp. reflexivity.
  - intros H Hp f Hf. unfold resolve_style, js_get at 2. unfold preset_names in H.
    unfold VISUAL_STYLE_PRESETS in H |- *. rewrite (assoc_not_in _ _ H).
    destruct (String.eqb_spec name "__proto__") as [E|E].
    + simpl. destruct Hf as [<-|[<-|[<-|[]]]]; reflexivity.
    + destruct Hp as [Hp|Hp]; [|contradiction].
      unfold inherited. destruct (object_prototype_member name) as [v|] eqn:Ev; [|contradiction].
      destruct (object_prototype_member_fun _ _ Ev) as [n [a ->]].
      simpl. destruct Hf as [<-|[<-|[<-|[]]]]; reflexivity.
Qed.

Lemma resolve_style_cases_witness :
  (exists i v r, preset_entry "Film Noir" = Some (preset i v r) /\
                 resolve_style "Film Noir" = preset i v r) /\
  resolve_style "Anime" = resolve_style "Studio Ghibli" /\
  js_get (resolve_style "toString") "recommended_vst" = VUndef.
Proof.
  split; [|split].
  - apply (proj1 (resolve_style_cases "Film Noir")). vm_compute. tauto.
  - apply (proj1 (proj2 (resolve_style_cases "Anime"))); [vm_compute; intuition discriminate
      | reflexivity | discriminate].
  - apply (proj2 (proj2 (resolve_style_cases "toString")));
      [vm_compute; intuition discriminate | left; discriminate | simpl; tauto].
Defined.

Lemma map_labels_spec (ps : list json) (ls : list pval) :
  map_labels ps = Some ls ->
  Forall2 (fun l q => q <> JNull /\ l = or_default (json_prop q "label") (PStr "Scene")) ls ps.
Proof.
  revert ls. induction ps as [|q ps IH]; intros ls H; simpl in H.
  - injection H as <-. constructor.
  - destruct (label_or_scene q) as [l|] eqn:El; [|discriminate H].
    destruct (map_labels ps) as [ls'|]; [|discriminate H]. injection H as <-.
    constructor; [|apply IH; reflexivity].
    destruct q; try discriminate El; injection El as <-; split; (discriminate || reflexivity).
Qed.

(** When [keyframe_plan_titles] is absent or falsy, the titles of a normalised package are a list aligned with its [visualPrompts]: one entry per prompt, the prompt's truthy [label] or [Scene] (a label such as 1e-400, which parses to 0, is falsy). *)
Theorem normalize_titles_from_prompts (data : json) (input : UserInput) (kt sp : jsval)
  (p : ProductionPackage)
  (H : normalize data input kt sp = NOk p)
  (Hf : falsy_or_absent (json_prop data "keyframe_plan_titles") = true) :
  exists ls, titles p = PList ls /\
    Forall2 (fun l q => q <> JNull /\ l = or_default (json_prop q "label") (PStr "Scene"))
            ls (visualPrompts p).
Proof.
  unfold normalize in H.
  destruct data; try discriminate H; cbv beta iota zeta in H;
    (lazymatch type of Hf with falsy_or_absent ?o = _ => destruct o as [j|] end;
     [simpl in Hf; destruct (json_truthy j); [discriminate Hf|] |]);
    cbv beta iota in H;
    lazymatch type of H with
    | match option_map PList (map_labels ?l) with None => _ | Some _ => _ end = _ =>
        destruct (map_labels l) as [ls|] eqn:E; [|discriminate H]
    end;
    simpl in H; injection H as <-; exists ls; (split; [reflexivity | apply map_labels_spec; exact E]).
Qed.

Lemma normalize_titles_from_prompts_witness :
  exists p, normalize (JObj [("visualPrompts", JArr [JObj [("label", JStr "Dawn")]; JObj []; JObj [("label", JNum "1e-400")]])])
              sample_input (VNum 12) (resolve_style "Cyberpunk") = NOk p /\
  exists ls, titles p = PList ls /\
    Forall2 (fun l q => q <> JNull /\ l = or_default (json_prop q "label") (PStr "Scene"))
            ls (visualPrompts p).
Proof.
  eexists. split; [reflexivity|].
  apply (normalize_titles_from_prompts
           (JObj [("visualPrompts", JArr [JObj [("label", JStr "Dawn")]; JObj []; JObj [("label", JNum "1e-400")]])])
           sample_input (VNum 12) (resolve_style "Cyberpunk"));
    reflexivity.
Defined.

(** An answer whose recovered text is the empty object (no text, or no ['{'] or ['[']) is not an error: generateMoviePackage returns after one call a package with no visual prompts, no titles, the script as story and the default SEO record. *)
Theorem movie_empty_answer (completion : nat -> response) (input : UserInput)
  (t : option string) (Hc : completion 0%nat = RText t) (He : cleanJsonString t = "{}") :
  exists p, generateMoviePackage JSON_parse_opt completion input = (GOk p, 1%nat) /\
    visualPrompts p = [] /\ titles p = PList [] /\
    story p = PStr (script input) /\ seo p = default_seo.
Proof.
  unfold generateMoviePackage. cbn [gen]. rewrite Hc, He.
  replace (JSON_parse_opt "{}") with (Some (JObj [])) by (vm_compute; reflexivity).
  cbv beta iota. unfold normalize. cbn [json_prop fold_left].
  lazymatch goal with |- context [js_slice0 [] ?e] =>
    replace (js_slice0 [] e) with (@nil json)
      by (unfold js_slice0; destruct (Z.to_nat _); reflexivity) end.
  cbn [map_labels option_map].
  eexists. split; [reflexivity|]. repeat split; reflexivity.
Qed.

Lemma movie_empty_answer_witness :
  exists p, generateMoviePackage JSON_parse_opt
              (fun _ => RText (Some "Sorry, I cannot help with that.")) sample_input
            = (GOk p, 1%nat) /\
    visualPrompts p = [] /\ titles p = PList [] /\
    story p = PStr (script sample_input) /\ seo p = default_seo.
Proof.
  apply (movie_empty_answer _ sample_input (Some "Sorry, I cannot help with that."));
    [reflexivity | vm_compute; reflexivity].
Defined.

Lemma delay_unfold (a : nat) (r : Q) :
  (delayWithJitter a r == inject_Z (2 ^ Z.of_nat a) * 2000 + r * 1000)%Q.
Proof. unfold delayWithJitter. rewrite inject_Z_mult. reflexivity. Qed.

(** The back-off of lines 20-24 waits at least two seconds, and each attempt waits strictly longer than the one before, whatever the jitter. *)
Theorem delayWithJitter_increasing (a : nat) (r1 r2 : Q)
  (H1 : (0 <= r1 < 1)%Q) (H2 : (0 <= r2)%Q) :
  (2000 <= delayWithJitter a r1 < delayWithJitter (S a) r2)%Q.
Proof.
  rewrite !delay_unfold. rewrite Nat2Z.inj_succ, Z.pow_succ_r by lia.
  rewrite inject_Z_mult.
  assert (P : (1 <= inject_Z (2 ^ Z.of_nat a))%Q).
  { change 1%Q with (inject_Z 1). rewrite <- Zle_Qle.
    assert (0 < 2 ^ Z.of_nat a)%Z by (apply Z.pow_pos_nonneg; lia). lia. }
  change (inject_Z 2) with 2%Q. split; lra.
Qed.

Lemma delayWithJitter_increasing_witness :
  (2000 <= delayWithJitter 2 (1 # 2) < delayWithJitter 3 0)%Q.
Proof.
  apply delayWithJitter_increasing;
    [split; vm_compute; [intro H; discriminate H | reflexivity] | vm_compute; intro H; discriminate H].
Defined.

(** For jitters in [0, 1), the five back-off waits of generateMoviePackage (attempts 0 to 4) add up to between 62 and 67 seconds, and the three waits of generateImage (attempts 0 to 2) to between 14 and 17 seconds. *)
Theorem backoff_totals (r0 r1 r2 r3 r4 : Q)
  (H0 : (0 <= r0 < 1)%Q) (H1 : (0 <= r1 < 1)%Q) (H2 : (0 <= r2 < 1)%Q)
  (H3 : (0 <= r3 < 1)%Q) (H4 : (0 <= r4 < 1)%Q) :
  (62000 <= delayWithJitter 0 r0 + delayWithJitter 1 r1 + delayWithJitter 2 r2
            + delayWithJitter 3 r3 + delayWithJitter 4 r4 < 67000)%Q /\
  (14000 <= delayWithJitter 0 r0 + delayWithJitter 1 r1 + delayWithJitter 2 r2 < 17000)%Q.
Proof.
  unfold delayWithJitter. simpl (2 ^ _ * 2000)%Z.
  change (inject_Z 2000) with 2000%Q. change (inject_Z 4000) with 4000%Q.
  change (inject_Z 8000) with 8000%Q. change (inject_Z 16000) with 16000%Q.
  change (inject_Z 32000) with 32000%Q.
  split; split; lra.
Qed.

Lemma backoff_totals_witness :
  (62000 <= delayWithJitter 0 0 + delayWithJitter 1 (1 # 2) + delayWithJitter 2 (9 # 10)
            + delayWithJitter 3 0 + delayWithJitter 4 (1 # 3) < 67000)%Q /\
  (14000 <= delayWithJitter 0 0 + delayWithJitter 1 (1 # 2) + delayWithJitter 2 (9 # 10) < 17000)%Q.
Proof.
  apply backoff_totals; split; vm_compute; first [reflexivity | intro H; discriminate H].
Defined.

Lemma clean_parse_container (t : option string) (v : json) :
  JSON_parse (cleanJsonString t) = Accept v -> is_container v = true.
Proof. exact (parse_root_container _ v (clean_starts_with_root t)). Qed.

(** A value that [JSON.parse] accepts from the output of cleanJsonString is an object or an array. *)
Theorem cleanJsonString_parse_container (t : option string) (v : json)
  (H : JSON_parse (cleanJsonString t) = Accept v) : is_container v = true.
Proof. exact (clean_parse_container t v H). Qed.

Lemma cleanJsonString_parse_container_witness :
  JSON_parse (cleanJsonString (Some (qq "Here you go: [1, 2,] trailing"))) = Accept (JArr [JNum "1"; JNum "2"]) /\
  is_container (JArr [JNum "1"; JNum "2"]) = true.
Proof.
  split; [vm_compute; reflexivity|].
  apply (cleanJsonString_parse_container (Some (qq "Here you go: [1, 2,] trailing"))).
  vm_compute. reflexivity.
Defined.

Lemma JSON_parse_opt_accept (s : string) (j : json) :
  JSON_parse_opt s = Some j -> JSON_parse s = Accept j.
Proof. unfold JSON_parse_opt. destruct (JSON_parse s); congruence. Qed.

Lemma trim_end_idem (s : string) : trim_end (trim_end s) = trim_end s.
Proof.
  induction s as [|c r IH]; [reflexivity|].
  change (trim_end (String c r)) with
    (match trim_end r with
     | EmptyString => if is_js_ws c then EmptyString else String c EmptyString
     | _ => String c (trim_end r) end).
  destruct (trim_end r) as [|d r'] eqn:E.
  - destruct (is_js_ws c) eqn:W; [reflexivity|]. simpl. rewrite W. reflexivity.
  - change (trim_end (String c (String d r'))) with
      (match trim_end (String d r') with
       | EmptyString => if is_js_ws c then EmptyString else String c EmptyString
       | _ => String c (trim_end (String d r')) end).
    rewrite IH. reflexivity.
Qed.

Lemma trim_start_ws (s : string) :
  trim_start s = EmptyString \/ exists c r, trim_start s = String c r /\ is_js_ws c = false.
Proof.
  induction s as [|c r IH]; [left; reflexivity|]. simpl.
  destruct (is_js_ws c) eqn:W; [exact IH|]. right. eauto.
Qed.

Lemma trim_idem (s : string) : trim (trim s) = trim s.
Proof.
  unfold trim. destruct (trim_start_ws s) as [E|[c [r [E W]]]]; rewrite E; [reflexivity|].
  destruct (trim_end_lead c r W) as [y Hy]. rewrite Hy.
  rewrite (trim_start_lead c y W), <- Hy, trim_end_idem. reflexivity.
Qed.

Lemma trimmed_or_spec (t : option string) (fallback : string) :
  trimmed_or t fallback = fallback \/
  (trimmed_or t fallback <> "" /\ trim (trimmed_or t fallback) = trimmed_or t fallback).
Proof.
  unfold trimmed_or. destruct t as [s|]; [|left; reflexivity].
  destruct (String.eqb_spec (trim s) "") as [_|N]; [left; reflexivity|].
  right. split; [exact N | apply trim_idem].
Qed.

(** With a key, the text generateVoiceoverPack returns for an answer is never empty and has no surrounding white space. *)
Theorem voiceover_result_trimmed (k : string) (t : option string) (Hk : k <> "") :
  exists s, generateVoiceoverPack (Some k) (RText t) = Ret s /\ s <> "" /\ trim s = s.
Proof.
  unfold generateVoiceoverPack, getAiClient. apply String.eqb_neq in Hk. rewrite Hk.
  eexists. split; [reflexivity|].
  destruct (trimmed_or_spec t "Failed to generate prompt.") as [->|H];
    [split; [discriminate | reflexivity] | exact H].
Qed.

Lemma voiceover_result_trimmed_witness :
  exists s, generateVoiceoverPack (Some "key") (RText (Some "  Hello there.  ")) = Ret s /\
    s <> "" /\ trim s = s.
Proof. apply voiceover_result_trimmed. discriminate. Defined.

(** enhanceVisualPrompt and enhanceVideoPrompt fail only when the API key is missing; otherwise they return the given prompt or a non-empty trimmed answer. *)
Theorem enhance_prompts_never_fail (apiKey : option string) (prompt : string) (resp : response) :
  ((exists s, enhanceVisualPrompt apiKey prompt resp = Ret s /\
              (s = prompt \/ (s <> "" /\ trim s = s))) \/
   (enhanceVisualPrompt apiKey prompt resp = Throw KEY_NOT_FOUND /\
    (apiKey = None \/ apiKey = Some ""))) /\
  ((exists s, enhanceVideoPrompt apiKey prompt resp = Ret s /\
              (s = prompt \/ (s <> "" /\ trim s = s))) \/
   (enhanceVideoPrompt apiKey prompt resp = Throw KEY_NOT_FOUND /\
    (apiKey = None \/ apiKey = Some ""))).
Proof.
  unfold enhanceVisualPrompt, enhanceVideoPrompt, getAiClient.
  destruct apiKey as [k|]; [|split; right; auto].
  destruct (String.eqb_spec k "") as [->|_]; [split; right; auto|].
  split; left; (destruct resp as [t|m]; [exists (trimmed_or t prompt); split; [reflexivity | apply trimmed_or_spec]
                                      | exists prompt; auto]).
Qed.

(** With a key, generateSfxCues never fails: it returns the fallback cues or a parsed object or array. *)
Theorem sfx_cues_shape (k : string) (resp : response) (Hk : k <> "") :
  exists j, generateSfxCues (Some k) resp = Ret j /\ (j = sfx_fallback \/ is_container j = true).
Proof.
  unfold generateSfxCues, getAiClient. apply String.eqb_neq in Hk. rewrite Hk.
  destruct resp as [t|m]; [|eauto].
  destruct (JSON_parse_opt (cleanJsonString t)) as [j|] eqn:E; [|eauto].
  exists j. split; [reflexivity|]. right.
  exact (clean_parse_container t j (JSON_parse_opt_accept _ _ E)).
Qed.

Lemma sfx_cues_shape_witness :
  (exists j, generateSfxCues (Some "key") (RText (Some "primary: rain")) = Ret j /\
     (j = sfx_fallback \/ is_container j = true)) /\
  generateSfxCues (Some "key") (RText (Some "primary: rain")) = Ret (JObj []).
Proof. split; [apply sfx_cues_shape; discriminate | vm_compute; reflexivity]. Defined.

(** With a key, once the recovered answer parses, refinePackagePrompts returns without error, and it returns a value that is not a list only when [visualPrompts] is a truthy scalar (a non-empty string, a non-zero number or true). *)
Theorem refine_parsed_never_fails (k syntaxError : string) (t : option string) (raw : json)
  (Hk : k <> "") (Hp : JSON_parse_opt (cleanJsonString t) = Some raw) :
  exists r, refinePackagePrompts (Some k) syntaxError (RText t) = Ret r /\
    (forall v, r = RValue v ->
       json_prop raw "visualPrompts" = Some v /\ json_truthy v = true /\ is_container v = false).
Proof.
  pose proof (clean_parse_container t raw (JSON_parse_opt_accept _ _ Hp)) as C.
  unfold refinePackagePrompts, getAiClient. apply String.eqb_neq in Hk. rewrite Hk, Hp.
  destruct raw as [| | | |xs|ms]; try discriminate C.
  - eexists. split; [reflexivity|]. discriminate.
  - unfold refine_results.
    destruct (json_prop (JObj ms) "visualPrompts") as [j|] eqn:E.
    + destruct (json_truthy j) eqn:T.
      * destruct j as [|b|n|s|xs|ms']; eexists; (split; [reflexivity|]);
          try discriminate; intros v Hv; injection Hv as <-; auto.
      * eexists. split; [reflexivity|]. discriminate.
    + eexists. split; [reflexivity|]. discriminate.
Qed.

Lemma refine_parsed_never_fails_witness :
  refinePackagePrompts (Some "key") "Unexpected token" (RText (Some (qq "{`visualPrompts`: `none`}")))
  = Ret (RValue (JStr "none")) /\
  json_prop (JObj [("visualPrompts", JStr "none")]) "visualPrompts" = Some (JStr "none") /\
  json_truthy (JStr "none") = true /\ is_container (JStr "none") = false.
Proof.
  destruct (refine_parsed_never_fails "key" "Unexpected token" (Some (qq "{`visualPrompts`: `none`}"))
              (JObj [("visualPrompts", JStr "none")]) ltac:(discriminate) ltac:(vm_compute; reflexivity))
    as [r [Hr Hv]].
  assert (E : Ret r = Ret (RValue (JStr "none"))) by (rewrite <- Hr; vm_compute; reflexivity).
  injection E as E.
  split; [rewrite <- E; exact Hr | exact (Hv _ E)].
Defined.

Lemma units_eqb_false (a b : list nat) : a <> b -> units_eqb a b = false.
Proof. unfold units_eqb. destruct (list_eq_dec Nat.eq_dec a b); congruence. Qed.

Lemma put_prop_new (k : list nat) (v : json) (props : list (list nat * json)) :
  ~ In k (map fst props) -> put_prop k v props = (props ++ [(k, v)])%list.
Proof.
  induction props as [|[k' v'] ps IH]; simpl; intro H; [reflexivity|].
  rewrite units_eqb_false by (intro E; apply H; left; congruence).
  rewrite IH by (intro I; apply H; right; exact I). reflexivity.
Qed.

Lemma object_of_fold (ms : list (string * json)) :
  forall acc, NoDup (map fst acc ++ map (fun m => key_units (fst m)) ms)%list ->
  fold_left (fun acc m => put_prop (key_units (fst m)) (snd m) acc) ms acc
  = (acc ++ map (fun m => (key_units (fst m), snd m)) ms)%list.
Proof.
  induction ms as [|m ms IH]; intros acc H; simpl; [rewrite app_nil_r; reflexivity|].
  rewrite put_prop_new.
  - rewrite IH.
    + rewrite <- app_assoc. reflexivity.
    + rewrite map_app, <- app_assoc. exact H.
  - simpl in H. intro I. apply NoDup_remove_2 in H. apply H. apply in_or_app. left. exact I.
Qed.

(** [Object.values] of an object whose keys are distinct and no array index lists the values in the order the keys appear. *)
Theorem object_values_plain_keys (ms : list (string * json))
  (Hd : NoDup (map (fun m => key_units (fst m)) ms))
  (Hn : Forall (fun m => array_index (key_units (fst m)) = None) ms) :
  object_values ms = map snd ms.
Proof.
  unfold object_values, object_of. rewrite (object_of_fold ms []) by exact Hd. simpl.
  assert (I : forall (l : list (string * json)) acc,
             Forall (fun m => array_index (key_units (fst m)) = None) l ->
             fold_left (fun acc p => match array_index (fst p) with
                                     | Some n => insert_index n (snd p) acc
                                     | None => acc end)
                       (map (fun m => (key_units (fst m), snd m)) l) acc = acc).
  { induction l as [|m l IH]; intros acc F; [reflexivity|].
    inversion F as [|? ? Hm Hl]; subst. simpl. rewrite Hm. apply IH. exact Hl. }
  rewrite (I ms [] Hn). simpl.
  assert (F : forall l : list (string * json),
             Forall (fun m => array_index (key_units (fst m)) = None) l ->
             map snd (filter (fun p => match array_index (fst p) with
                                       | Some _ => false | None => true end)
                        (map (fun m => (key_units (fst m), snd m)) l)) = map snd l).
  { induction l as [|m l IH]; intro Fl; [reflexivity|].
    inversion Fl as [|? ? Hm Hl]; subst. simpl. rewrite Hm. simpl. rewrite IH by exact Hl.
    reflexivity. }
  apply F. exact Hn.
Qed.

Lemma object_values_plain_keys_witness :
  object_values [("b", JNum "1"); ("a", JNum "2")] = [JNum "1"; JNum "2"].
Proof.
  apply object_values_plain_keys.
  - vm_compute. constructor; [intros [H|[]]; discriminate H | constructor; [intros [] | constructor]].
  - repeat constructor.
Defined.

Lemma str_forall_cons (p : ascii -> bool) (c : ascii) (s : string) :
  str_forall p (String c s) = p c && str_forall p s.
Proof. reflexivity. Qed.

Lemma str_forall_app (p : ascii -> bool) (a b : string) :
  str_forall p (a ++ b) = str_forall p a && str_forall p b.
Proof.
  induction a as [|c a IH]; [reflexivity|].
  simpl (String c a ++ b). rewrite !str_forall_cons, IH, andb_assoc. reflexivity.
Qed.

Lemma before_comma_free (a : string) : str_forall no_comma a = true -> before_comma a = a.
Proof.
  induction a as [|c a IH]; [reflexivity|]. rewrite str_forall_cons. simpl. intro H.
  apply andb_true_iff in H as [Hc Ha]. unfold no_comma in Hc.
  destruct (Ascii.eqb c c_comma); [discriminate Hc|]. rewrite IH by exact Ha. reflexivity.
Qed.

Lemma before_comma_app (a b : string) :
  str_forall no_comma a = true -> before_comma (a ++ String c_comma b) = a.
Proof.
  induction a as [|c a IH]; intro H; [reflexivity|]. rewrite str_forall_cons in H. simpl.
  apply andb_true_iff in H as [Hc Ha]. unfold no_comma in Hc.
  destruct (Ascii.eqb c c_comma); [discriminate Hc|]. rewrite IH by exact Ha. reflexivity.
Qed.

Lemma second_piece_app (a b : string) :
  str_forall no_comma a = true -> second_piece (a ++ String c_comma b) = Some (before_comma b).
Proof.
  induction a as [|c a IH]; intro H; [reflexivity|]. rewrite str_forall_cons in H. simpl.
  apply andb_true_iff in H as [Hc Ha]. unfold no_comma in Hc.
  destruct (Ascii.eqb c c_comma); [discriminate Hc|]. apply IH. exact Ha.
Qed.

Lemma lazy_to_semicolon_app (m r : string) :
  str_forall mime_char m = true -> lazy_to_semicolon (m ++ String ";" r) = Some m.
Proof.
  induction m as [|c m IH]; intro H; [reflexivity|]. rewrite str_forall_cons in H. simpl.
  apply andb_true_iff in H as [Hc Hm]. unfold mime_char in Hc.
  destruct (Ascii.eqb c ";"), (is_line_terminator c); rewrite ?orb_true_r in Hc;
    try discriminate Hc. rewrite IH by exact Hm. reflexivity.
Qed.

Lemma mime_no_comma (m : string) : str_forall mime_char m = true -> str_forall no_comma m = true.
Proof.
  induction m as [|c m IH]; [reflexivity|]. rewrite !str_forall_cons. intro H.
  apply andb_true_iff in H as [Hc Hm]. unfold mime_char, no_comma in *.
  destruct (Ascii.eqb c c_comma); [discriminate Hc|]. apply IH. exact Hm.
Qed.

(** The data URL that generateImage returns for an inline image, passed back as [refImage], is sent as that image's data with that image's MIME type (for a non-empty MIME type without [,], [;] or line breaks and non-empty data without [,]). *)
Theorem image_data_url_round_trip (prompt mime data : string)
  (pre rest : list (option inline_data))
  (Hpre : Forall (fun p => p = None) pre)
  (Hm : mime <> "") (Hmc : str_forall mime_char mime = true)
  (Hd : data <> "") (Hdc : str_forall no_comma data = true) :
  image_request_parts prompt (first_image (pre ++ Some (mkInline (Some mime) (Some data)) :: rest))
  = [PInline data mime; PText prompt].
Proof.
  assert (F : first_image (pre ++ Some (mkInline (Some mime) (Some data)) :: rest)
              = Some (("data:" ++ mime ++ ";base64") ++ String c_comma data)).
  { induction Hpre as [|p pre Hp _ IH]; [|subst p; exact IH].
    simpl. f_equal. rewrite !str_app_assoc. reflexivity. }
  rewrite F. unfold image_request_parts.
  assert (NC : str_forall no_comma ("data:" ++ mime ++ ";base64") = true).
  { change ("data:" ++ mime ++ ";base64") with ("data:" ++ (mime ++ ";base64")).
    rewrite !str_forall_app, (mime_no_comma mime Hmc). reflexivity. }
  replace (String.eqb (("data:" ++ mime ++ ";base64") ++ String c_comma data) "") with false
    by (destruct ("data:" ++ mime ++ ";base64"); reflexivity).
  rewrite (before_comma_app _ _ NC), (second_piece_app _ _ NC), (before_comma_free _ Hdc).
  apply String.eqb_neq in Hd. rewrite Hd.
  change (match_colon_semicolon ("data:" ++ mime ++ ";base64"))
    with (match lazy_to_semicolon (mime ++ ";base64") with
          | Some m => Some m
          | None => match_colon_semicolon (mime ++ ";base64") end).
  change (mime ++ ";base64") with (mime ++ String ";" "base64").
  rewrite (lazy_to_semicolon_app _ _ Hmc).
  apply String.eqb_neq in Hm. rewrite Hm. reflexivity.
Qed.

Lemma image_data_url_round_trip_witness :
  image_request_parts "a lighthouse"
    (first_image [None; Some (mkInline (Some "image/jpeg") (Some "QUJD")); None])
  = [PInline "QUJD" "image/jpeg"; PText "a lighthouse"].
Proof.
  apply (image_data_url_round_trip "a lighthouse" "image/jpeg" "QUJD" [None] [None]);
    [repeat constructor | discriminate | reflexivity | discriminate | reflexivity].
Defined.

(** With a key, generateImage returns the data URL of the first part carrying inline data after one call; when there is none, it reports the missing image after one call, without retry. *)
Theorem generate_image_first_answer (ic : nat -> image_response) (k : string)
  (ps : option (list (option inline_data)))
  (Hk : k <> "") (Hc : ic 0%nat = IParts ps) :
  generateImage ic (Some k) =
  match first_image (match ps with Some l => l | None => [] end) with
  | Some url => (Ret url, 1%nat)
  | None => (Throw NO_IMAGE_REPORTED, 1%nat)
  end.
Proof.
  unfold generateImage, getAiClient. apply String.eqb_neq in Hk. rewrite Hk.
  cbn [gen_image]. rewrite Hc.
  destruct (first_image _); reflexivity.
Qed.

Lemma generate_image_first_answer_witness :
  generateImage (fun _ => IParts (Some [None])) (Some "key") = (Throw NO_IMAGE_REPORTED, 1%nat).
Proof. apply (generate_image_first_answer _ "key" (Some [None])); [discriminate | reflexivity]. Defined.

Lemma gen_image_quota_prefix (ic : nat -> image_response) (k : nat) :
  forall f r c,
  (forall i, (i < k)%nat -> exists m, ic (c + i) = IThrow m /\ quota_like m = true) ->
  (r + k <= 3)%nat -> (k <= f)%nat ->
  gen_image ic f r c = gen_image ic (f - k) (r + k) (c + k).
Proof.
  induction k as [|k IH]; intros f r c Hq Hr Hf.
  - rewrite Nat.sub_0_r, !Nat.add_0_r. reflexivity.
  - destruct f as [|f]; [lia|].
    destruct (Hq 0%nat ltac:(lia)) as [m [Hc Hm]]. rewrite Nat.add_0_r in Hc.
    cbn [gen_image]. rewrite Hc, Hm.
    replace (r <? 3)%nat with true by (symmetry; apply Nat.ltb_lt; lia). cbv beta iota.
    rewrite (IH f (S r) (S c)).
    + replace (S r + k)%nat with (r + S k)%nat by lia.
      replace (S c + k)%nat with (c + S k)%nat by lia. reflexivity.
    + intros i Hi. destruct (Hq (S i) ltac:(lia)) as [m' H']. exists m'.
      replace (S c + i)%nat with (c + S i)%nat by lia. exact H'.
    + lia.
    + lia.
Qed.

(** When every call throws a quota-like error (not JSON-wrapped), generateImage makes four calls (the first and three retries) and reports the quota-exhausted error. *)
Theorem generate_image_quota_exhaustion (ic : nat -> image_response) (k : string)
  (Hk : k <> "")
  (Hq : forall c, (c <= 3)%nat ->
        exists m, ic c = IThrow m /\ quota_like m = true /\ String.prefix "{" m = false) :
  generateImage ic (Some k) = (Throw QUOTA_MESSAGE, 4%nat).
Proof.
  unfold generateImage, getAiClient. apply String.eqb_neq in Hk. rewrite Hk.
  rewrite (gen_image_quota_prefix ic 3 3 0 0); simpl; try lia.
  - destruct (Hq 3%nat ltac:(lia)) as [m [Hc [Hm Hb]]].
    cbn [gen_image]. rewrite Hc, Hm. simpl.
    rewrite (quota_like_handled JSON_parse_opt m _ Hm Hb). reflexivity.
  - intros i Hi. destruct (Hq i ltac:(lia)) as [m [Hc [Hm _]]]. exists m. auto.
Qed.

Lemma generate_image_quota_exhaustion_witness :
  generateImage (fun _ => IThrow "Error 429: QUOTA") (Some "key") = (Throw QUOTA_MESSAGE, 4%nat).
Proof.
  apply generate_image_quota_exhaustion; [discriminate|].
  intros c _. exists "Error 429: QUOTA". split; [reflexivity | split; vm_compute; reflexivity].
Defined.

Lemma le16_bytes (v : Z) :
  let u := (v mod 2 ^ 16)%Z in
  (u mod 256 + 256 * ((u / 256) mod 256))%Z = u.
Proof.
  intro u. assert (0 <= u < 2 ^ 16)%Z by (apply Z.mod_pos_bound; lia).
  change (2 ^ 16)%Z with 65536%Z in *.
  Z.div_mod_to_equations. lia.
Qed.

Lemma le32_bytes (v : Z) :
  let u := (v mod 2 ^ 32)%Z in
  (u mod 256 + 256 * ((u / 256) mod 256)
   + 65536 * ((u / 65536) mod 256 + 256 * ((u / 16777216) mod 256)))%Z = u.
Proof.
  intro u. assert (0 <= u < 2 ^ 32)%Z by (apply Z.mod_pos_bound; lia).
  change (2 ^ 32)%Z with 4294967296%Z in *.
  Z.div_mod_to_equations. lia.
Qed.

Lemma wav_fields (l s n b : Z) :
  let h := createWavHeader l s n b in
  getUint32 h 4 = ((36 + l) mod 2 ^ 32)%Z /\
  getUint32 h 16 = 16%Z /\ getUint16 h 20 = 1%Z /\
  getUint16 h 22 = (n mod 2 ^ 16)%Z /\
  getUint32 h 24 = (s mod 2 ^ 32)%Z /\
  getUint32 h 28 = (Z.quot (s * n * b) 8 mod 2 ^ 32)%Z /\
  getUint16 h 32 = (Z.quot (n * b) 8 mod 2 ^ 16)%Z /\
  getUint16 h 34 = (b mod 2 ^ 16)%Z /\
  getUint32 h 40 = (l mod 2 ^ 32)%Z.
Proof.
  intro h. unfold h, createWavHeader, getUint32, getUint16, setUint32, setUint16, setUint8.
  cbn -[Z.modulo Z.div Z.pow Z.mul Z.add Z.quot].
  repeat split; first [apply le32_bytes | apply le16_bytes | reflexivity].
Qed.

Lemma wav_layout (l s n b : Z) :
  let h := createWavHeader l s n b in
  length h = 44%nat /\
  firstn 4 h = [82; 73; 70; 70]%Z /\
  firstn 8 (skipn 8 h) = [87; 65; 86; 69; 102; 109; 116; 32]%Z /\
  firstn 4 (skipn 36 h) = [100; 97; 116; 97]%Z /\
  Forall (fun x => 0 <= x < 256)%Z h.
Proof.
  intro h. unfold h, createWavHeader, setUint32, setUint16, setUint8.
  cbn -[Z.modulo Z.div Z.pow Z.mul Z.add Z.quot].
  repeat split; try reflexivity.
  repeat constructor; try (apply Z.mod_pos_bound; lia); lia.
Qed.

(** createWavHeader yields 44 bytes, each in [0, 256), with the [RIFF], [WAVEfmt ] and [data] tags at offsets 0, 8 and 36. *)
Theorem createWavHeader_layout (l s n b : Z) :
  let h := createWavHeader l s n b in
  length h = 44%nat /\
  firstn 4 h = [82; 73; 70; 70]%Z /\
  firstn 8 (skipn 8 h) = [87; 65; 86; 69; 102; 109; 116; 32]%Z /\
  firstn 4 (skipn 36 h) = [100; 97; 116; 97]%Z /\
  Forall (fun x => 0 <= x < 256)%Z h.
Proof. exact (wav_layout l s n b). Qed.

(** Reading the header fields back as little-endian integers gives the values written, reduced modulo [2^32] or [2^16]: RIFF size [36 + dataLength], format chunk size 16, PCM format 1, channels, sample rate, byte rate, block align, bits per sample and data size. *)
Theorem wav_header_fields (l s n b : Z) :
  let h := createWavHeader l s n b in
  getUint32 h 4 = ((36 + l) mod 2 ^ 32)%Z /\
  getUint32 h 16 = 16%Z /\ getUint16 h 20 = 1%Z /\
  getUint16 h 22 = (n mod 2 ^ 16)%Z /\
  getUint32 h 24 = (s mod 2 ^ 32)%Z /\
  getUint32 h 28 = (Z.quot (s * n * b) 8 mod 2 ^ 32)%Z /\
  getUint16 h 32 = (Z.quot (n * b) 8 mod 2 ^ 16)%Z /\
  getUint16 h 34 = (b mod 2 ^ 16)%Z /\
  getUint32 h 40 = (l mod 2 ^ 32)%Z.
Proof. exact (wav_fields l s n b). Qed.

(** For a whole number of bytes per sample and values within the field widths, the byte rate written is the sample rate times the block align. *)
Theorem wav_byte_rate (s n k : Z)
  (Hs : (0 <= s < 2 ^ 32)%Z) (Hn : (0 <= n)%Z) (Hk : (0 <= k)%Z)
  (Hb : (n * k < 2 ^ 16)%Z) (Hr : (s * (n * k) < 2 ^ 32)%Z) :
  let h := createWavHeader 0 s n (8 * k) in
  getUint32 h 28 = (getUint32 h 24 * getUint16 h 32)%Z /\
  getUint16 h 32 = (n * k)%Z.
Proof.
  intro h. destruct (wav_fields 0 s n (8 * k)) as (_ & _ & _ & _ & H24 & H28 & H32 & _).
  fold h in H24, H28, H32. rewrite H24, H28, H32.
  replace (s * n * (8 * k))%Z with ((s * (n * k)) * 8)%Z by ring.
  replace (n * (8 * k))%Z with ((n * k) * 8)%Z by ring.
  rewrite !Z.quot_mul by lia.
  assert (0 <= n * k)%Z by nia.
  rewrite (Z.mod_small s), (Z.mod_small (n * k)), (Z.mod_small (s * (n * k))) by nia.
  split; reflexivity.
Qed.

Lemma wav_byte_rate_witness :
  let h := createWavHeader 0 24000 1 (8 * 2) in
  getUint32 h 28 = (getUint32 h 24 * getUint16 h 32)%Z /\ getUint16 h 32 = (1 * 2)%Z.
Proof. apply wav_byte_rate; lia. Defined.

(** With a key, generateSpeech reports a missing or empty audio payload as an engine failure of the synthesis. *)
Theorem speech_missing_audio (atob : string -> outcome string) (k : string)
  (a : option string) (Hk : k <> "") (Ha : a = None \/ a = Some "") :
  generateSpeech atob (Some k) (SAudio a) = Throw SYNTHESIS_REPORTED.
Proof.
  unfold generateSpeech, getAiClient. apply String.eqb_neq in Hk. rewrite Hk.
  destruct Ha as [->| ->]; reflexivity.
Qed.

Lemma speech_missing_audio_witness :
  generateSpeech (fun x => Ret x) (Some "key") (SAudio None) = Throw SYNTHESIS_REPORTED.
Proof. apply speech_missing_audio; [discriminate | left; reflexivity]. Defined.

Lemma decode_length (bin : string) : length (decode bin) = String.length bin.
Proof.
  unfold decode. rewrite length_map.
  induction bin as [|c r IH]; simpl; [reflexivity | rewrite IH; reflexivity].
Qed.

(** With a key, for audio that decodes to [bin], generateSpeech returns a WAV file of [44 + length bin] bytes whose RIFF size is the file size minus 8, whose data size is the PCM length, with sample rate 24000, one channel and 16 bits, followed by the decoded bytes; every byte is in [0, 256). *)
Theorem speech_wav_file (atob : string -> outcome string) (k s bin : string)
  (Hk : k <> "") (Hs : s <> "") (Ha : atob s = Ret bin)
  (Hb : (36 + Z.of_nat (String.length bin) < 2 ^ 32)%Z) :
  exists w, generateSpeech atob (Some k) (SAudio (Some s)) = Ret w /\
    length w = (44 + String.length bin)%nat /\
    getUint32 w 4 = (Z.of_nat (length w) - 8)%Z /\
    getUint32 w 40 = Z.of_nat (String.length bin) /\
    getUint32 w 24 = 24000%Z /\ getUint16 w 22 = 1%Z /\ getUint16 w 34 = 16%Z /\
    skipn 44 w = decode bin /\ Forall (fun x => 0 <= x < 256)%Z w.
Proof.
  unfold generateSpeech, getAiClient. apply String.eqb_neq in Hk, Hs. rewrite Hk, Hs, Ha.
  set (pcm := decode bin).
  assert (Lp : length pcm = String.length bin).
  { unfold pcm. apply decode_length. }
  set (hd := createWavHeader (Z.of_nat (length pcm)) 24000 1 16).
  destruct (wav_layout (Z.of_nat (length pcm)) 24000 1 16) as (Lh & _ & _ & _ & Fh).
  destruct (wav_fields (Z.of_nat (length pcm)) 24000 1 16)
    as (F4 & _ & _ & F22 & F24 & _ & _ & F34 & F40).
  fold hd in Lh, Fh, F4, F22, F24, F34, F40.
  assert (G16 : forall o, (o + 1 < 44)%nat -> getUint16 (hd ++ pcm) o = getUint16 hd o).
  { intros o Ho. unfold getUint16. rewrite !app_nth1 by lia. reflexivity. }
  assert (G32 : forall o, (o + 3 < 44)%nat -> getUint32 (hd ++ pcm) o = getUint32 hd o).
  { intros o Ho. unfold getUint32. rewrite !G16 by lia. reflexivity. }
  exists (hd ++ pcm)%list. split; [reflexivity|].
  rewrite length_app, Lh, Lp.
  split; [reflexivity|]. repeat split.
  - rewrite G32 by lia. rewrite F4, Lp, Z.mod_small by lia. lia.
  - rewrite G32 by lia. rewrite F40, Lp, Z.mod_small by lia. reflexivity.
  - apply Forall_app. split; [exact Fh|].
    unfold pcm, decode. apply Forall_map. apply Forall_forall. intros c _.
    apply Z.mod_pos_bound. lia.
Qed.

Lemma speech_wav_file_witness :
  exists w, generateSpeech (fun x => Ret x) (Some "key") (SAudio (Some "AB")) = Ret w /\
    length w = (44 + String.length "AB")%nat /\
    getUint32 w 4 = (Z.of_nat (length w) - 8)%Z /\
    getUint32 w 40 = Z.of_nat (String.length "AB") /\
    getUint32 w 24 = 24000%Z /\ getUint16 w 22 = 1%Z /\ getUint16 w 34 = 16%Z /\
    skipn 44 w = decode "AB" /\ Forall (fun x => 0 <= x < 256)%Z w.
Proof. apply speech_wav_file; [discriminate | discriminate | reflexivity | vm_compute; reflexivity]. Defined.

(** A result of extractContinuityTokensFromImage or generateViralScript is always an object or an array (though not necessarily of the declared shape). *)
Theorem json_services_container (apiKey : option string) (syntaxError : string)
  (resp : response) (j : json)
  (H : extractContinuityTokensFromImage apiKey syntaxError resp = Ret j \/
       generateViralScript apiKey syntaxError resp = Ret j) :
  is_container j = true.
Proof.
  unfold extractContinuityTokensFromImage, generateViralScript in H.
  destruct (getAiClient apiKey); [|destruct H as [H|H]; discriminate H].
  destruct resp as [t|m]; [|destruct H as [H|H]; discriminate H].
  destruct (JSON_parse_opt (cleanJsonString t)) as [v|] eqn:E;
    [|destruct H as [H|H]; discriminate H].
  assert (v = j) as <- by (destruct H as [H|H]; injection H; auto).
  exact (clean_parse_container t v (JSON_parse_opt_accept _ _ E)).
Qed.

Lemma json_services_container_witness :
  extractContinuityTokensFromImage (Some "key") "Unexpected token"
    (RText (Some "Tokens: [1]")) = Ret (JArr [JNum "1"]) /\
  is_container (JArr [JNum "1"]) = true.
Proof.
  split; [vm_compute; reflexivity|].
  apply (json_services_container (Some "key") "Unexpected token" (RText (Some "Tokens: [1]"))).
  left. vm_compute. reflexivity.
Defined.

